(** * HealthAssistant: the keyword router and the WebSocket chat loop of [app.py]

    A shallow embedding of the message router of [chat_socket] and of the
    functions it calls, together with the properties the specification states
    about them.

    Modelling conventions.
    - Python [str] values are [string]s of 8-bit characters.  [str.lower],
      [str.strip] and [\d] are modelled on the ASCII range (the range SQLite's
      [LOWER] works on as well); characters above 127 are left untouched.
      Where what Python does beyond ASCII decides the outcome (the accounts
      of [auth.py], the history read back by [api_chat_history]), Python's
      function is a parameter, [str_lower] or [str_strip], of which only what
      is stated is assumed.
    - A conversation entry is the dict [{"role": r, "content": c}]; the
      message lists the agents return are lists of such entries.
    - [config.py] is not part of the sources: [CHAT_BUFFER] and [USER_NAME]
      are parameters, and so is the module-level [doc_retriever].
    - The SQLite store, the LLM agents, the retriever and the clock are
      external: every iteration of the loop reads them from a [world] record.
      A query is evaluated on the store as the world shows it at that call;
      each external call may raise, and what it raises is an [exn].
    - The transcript file and the socket are logs.  What the file system
      does during an iteration is an [io] record: an append returns, or
      raises.  [iteration] and [session_loop] are the loop body and the loop
      under any such record; [handle_message] and [chat_loop] are the same
      while every append succeeds.  The socket is open for as long as the
      loop runs: [ws.send] returns.  The transcript is written on a POSIX
      file system and read back in text mode.  [print] calls and the
      registry [active_connections] play no part in what follows and are
      left out. *)

From Stdlib Require Import Bool List ZArith Lia Ascii String.
From Stdlib Require Import Permutation Sorted DecimalString.
Import ListNotations.

Local Open Scope list_scope.
Local Open Scope string_scope.

(* ------------------------------------------------------------------------- *)
(** ** Text *)

Module Text.

(** The one-character string [chr n]. *)
Definition chr (n : nat) : string := String (ascii_of_nat n) EmptyString.

(** ["\n"] *)
Definition nl : string := chr 10.

Definition is_upper (c : ascii) : bool :=
  let n := N_of_ascii c in (65 <=? n)%N && (n <=? 90)%N.

Definition lower_char (c : ascii) : ascii :=
  if is_upper c then ascii_of_N (N_of_ascii c + 32) else c.

(** [s.lower()] *)
Fixpoint lower (s : string) : string :=
  match s with
  | EmptyString => EmptyString
  | String c s' => String (lower_char c) (lower s')
  end.

(** [needle in hay] on Python strings: [needle] occurs at some offset of [hay]. *)
Fixpoint contains (needle hay : string) : bool :=
  if String.prefix needle hay then true
  else match hay with
       | EmptyString => false
       | String _ hay' => contains needle hay'
       end.

(** [any(kw in s for kw in kws)] *)
Definition any_in (kws : list string) (s : string) : bool :=
  existsb (fun kw => contains kw s) kws.

(** The propositional reading of [needle in hay]. *)
Definition Substring (needle hay : string) : Prop :=
  exists pre post, hay = pre ++ needle ++ post.

(** Characters [c] with [c.isspace()] in the ASCII range. *)
Definition is_space (c : ascii) : bool :=
  let n := N_of_ascii c in
  ((9 <=? n)%N && (n <=? 13)%N) || ((28 <=? n)%N && (n <=? 32)%N).

(** [s.lstrip()] *)
Fixpoint lstrip (s : string) : string :=
  match s with
  | EmptyString => EmptyString
  | String c s' => if is_space c then lstrip s' else s
  end.

(** [True] when every character of [s] is white space. *)
Fixpoint blank (s : string) : bool :=
  match s with
  | EmptyString => true
  | String c s' => is_space c && blank s'
  end.

(** [s.rstrip()] *)
Fixpoint rstrip (s : string) : string :=
  match s with
  | EmptyString => EmptyString
  | String c s' => if blank s then EmptyString else String c (rstrip s')
  end.

(** [s.strip()] *)
Definition strip (s : string) : string := rstrip (lstrip s).

(** [sep.join(parts)] *)
Definition join (sep : string) (parts : list string) : string :=
  String.concat sep parts.

(** [str(n)] for a Python [int]. *)
Definition str_of_Z (n : Z) : string :=
  NilZero.string_of_int (Z.to_int n).

End Text.
Import Text.

(** The carriage return and the line feed. *)
Definition cr : ascii := ascii_of_nat 13.
Definition lf : ascii := ascii_of_nat 10.

(** A character of the ASCII range. *)
Definition is_ascii (c : ascii) : bool := (N_of_ascii c <? 128)%N.

(** A character other than the carriage return. *)
Definition not_cr (c : ascii) : bool := negb (c =? cr)%char.

(** Every character of [s] is in the class [cls]. *)
Definition all_in (cls : ascii -> bool) (s : string) : Prop :=
  Forall (fun c => cls c = true) (list_ascii_of_string s).


(* ------------------------------------------------------------------------- *)
(** ** Router keywords and the classifier *)

(** [SQL_AGENT_KEYWORDS] *)
Definition SQL_AGENT_KEYWORDS : list string :=
  [ "book"; "booking"; "reserve"; "reservation"; "reservations";
    "cancel"; "cancellation"; "delete"; "remove";
    "slot"; "slots"; "available"; "availability";
    "my appointments"; "my bookings"; "my reservations";
    "appointment"; "appointments";
    "database"; "db";
    "slot_id"; "slot id" ].

(** [SUMMARY_AGENT_KEYWORDS] *)
Definition SUMMARY_AGENT_KEYWORDS : list string :=
  [ "summary"; "summarize"; "summarise"; "recap"; "recapitulate";
    "consultation summary"; "consultation report";
    "what did we discuss"; "what we discussed";
    "give me a summary"; "show summary" ].

(** The literal list of [chat_socket]'s availability test. *)
Definition AVAILABILITY_KEYWORDS : list string :=
  [ "slot"; "available"; "show"; "see" ].

Definition should_use_sql_agent (message : string) : bool :=
  let msg_lower := lower message in
  any_in SQL_AGENT_KEYWORDS msg_lower.

Definition should_use_summary_agent (message : string) : bool :=
  let msg_lower := lower message in
  any_in SUMMARY_AGENT_KEYWORDS msg_lower.

(** The inner test of the sql branch:
    [any(kw in msg_lower for kw in ["slot", "available", "show", "see"])]. *)
Definition asks_availability (msg : string) : bool :=
  let msg_lower := lower msg in
  any_in AVAILABILITY_KEYWORDS msg_lower.

Inductive Intent : Type := Summary | SqlAgent | MedicalQa.

(** The [if / elif / else] chain at the head of the [try] block of
    [chat_socket]. *)
Definition classify (msg : string) : Intent :=
  if should_use_summary_agent msg then Summary
  else if should_use_sql_agent msg then SqlAgent
  else MedicalQa.

(* ------------------------------------------------------------------------- *)
(** ** Conversation buffers *)

(** A conversation entry, the dict [{"role": ..., "content": ...}]. *)
Record entry : Type := mkEntry { role : string; content : string }.

Definition user_entry (c : string) : entry := mkEntry "user" c.
Definition assistant_entry (c : string) : entry := mkEntry "assistant" c.

(** The Python slice [l[start:]]: a negative [start] counts from the end, and
    the bounds are clamped to the list. *)
Definition slice_from {A : Type} (start : Z) (l : list A) : list A :=
  let n := Z.of_nat (List.length l) in
  let i := if (start <? 0)%Z then Z.max 0 (start + n) else Z.min start n in
  skipn (Z.to_nat i) l.

(** [if len(buf) > bound: buf[:] = buf[-bound:]] *)
Definition truncate_to (bound : Z) (buf : list entry) : list entry :=
  if (Z.of_nat (List.length buf) >? bound)%Z then slice_from (- bound) buf else buf.

(* ------------------------------------------------------------------------- *)
(** ** The appointment store *)

(** A row of the table [doctors] (the columns the queries read). *)
Record doctor_row : Type := mkDoctor
  { d_name : string; d_specialization : string }.

(** A row of the table [appointments]; [a_patient = None] is SQL [NULL]. *)
Record appointment_row : Type := mkAppointment
  { a_id : Z; a_doctor : string; a_time_slot : string;
    a_patient : option string }.

Record store : Type := mkStore
  { doctors : list doctor_row; appointments : list appointment_row }.

(** A result row [(a.id, a.doctor, a.time_slot, d.specialization)]. *)
Record slot : Type := mkSlot
  { slot_id : Z; slot_doctor : string; slot_time : string;
    slot_spec : string }.

(** Insertion of [x] into a list ordered by [le]. *)
Fixpoint insert_by {A : Type} (le : A -> A -> bool) (x : A) (l : list A)
  : list A :=
  match l with
  | [] => [x]
  | y :: l' => if le x y then x :: l else y :: insert_by le x l'
  end.

(** [ORDER BY]: the rows in ascending order of [le].  SQL leaves the order of
    rows with equal keys open; here they keep their relative order. *)
Fixpoint order_by {A : Type} (le : A -> A -> bool) (l : list A) : list A :=
  match l with
  | [] => []
  | x :: l' => insert_by le x (order_by le l')
  end.

(** [FROM appointments a JOIN doctors d ON a.doctor = d.name
     WHERE a.patient IS NULL] *)
Definition open_slots (db : store) : list slot :=
  flat_map
    (fun a =>
       match a_patient a with
       | None =>
           map (fun d => mkSlot (a_id a) (a_doctor a) (a_time_slot a)
                                (d_specialization d))
               (filter (fun d => a_doctor a =? d_name d) (doctors db))
       | Some _ => []
       end)
    (appointments db).

Definition by_time (r1 r2 : slot) : bool :=
  String.leb (slot_time r1) (slot_time r2).

Definition by_spec_time (r1 r2 : slot) : bool :=
  String.ltb (slot_spec r1) (slot_spec r2)
  || ((slot_spec r1 =? slot_spec r2) && String.leb (slot_time r1) (slot_time r2)).

(** [SELECT name FROM doctors] *)
Definition get_all_doctor_names (db : store) : list string :=
  map d_name (doctors db).

Definition by_spec_name (d1 d2 : doctor_row) : bool :=
  String.ltb (d_specialization d1) (d_specialization d2)
  || ((d_specialization d1 =? d_specialization d2)
      && String.leb (d_name d1) (d_name d2)).

(** [by_spec[spec].append(name)] on a [defaultdict(list)], whose keys keep
    their order of insertion. *)
Fixpoint group_append (spec name : string)
  (by_spec : list (string * list string)) : list (string * list string) :=
  match by_spec with
  | [] => [(spec, [name])]
  | (key, names) :: others =>
      if key =? spec then (key, (names ++ [name])%list) :: others
      else (key, names) :: group_append spec name others
  end.

(** [get_all_doctors_list()]: the rows of
    [SELECT name, specialization FROM doctors ORDER BY specialization, name],
    grouped by specialization, one line per specialization in sorted
    order. *)
Definition get_all_doctors_list (db : store) : string :=
  let rows := order_by by_spec_name (doctors db) in
  match rows with
  | [] => "NO DOCTORS AVAILABLE in the system."
  | _ :: _ =>
      let by_spec :=
        fold_left (fun groups d =>
                     group_append (d_specialization d) (d_name d) groups)
                  rows [] in
      let lines :=
        "AVAILABLE DOCTORS IN OUR SYSTEM:"
        :: map (fun '(spec, doctors) =>
                  "- " ++ spec ++ ": " ++ join ", " doctors)
               (order_by (fun g1 g2 => String.leb (fst g1) (fst g2)) by_spec) in
      join nl lines
  end.

(** The query of [get_slots_by_doctors] for a non-empty [doctor_names]:
    [... AND (LOWER(a.doctor) = LOWER(?) OR ...) ORDER BY a.time_slot]. *)
Definition query_slots_by_doctors (db : store) (doctor_names : list string)
  : list slot :=
  order_by by_time
    (filter (fun r => existsb (fun n => lower (slot_doctor r) =? lower n)
                              doctor_names)
            (open_slots db)).

(** The two queries of [get_slots_by_specialization]; an empty string is as
    false as [None] in [if specialization:]. *)
Definition get_slots_by_specialization (db : store)
  (specialization : option string) : list slot :=
  match specialization with
  | Some (String c sp) =>
      order_by by_time
        (filter (fun r => lower (slot_spec r) =? lower (String c sp))
                (open_slots db))
  | _ => order_by by_spec_time (open_slots db)
  end.

(** The scan of [extract_mentioned_doctors_from_history], on the reversed
    history: the first assistant entry met decides, and ends the scan. *)
Fixpoint scan_last_assistant (all_doctors : list string)
  (reversed_history : list entry) : list string :=
  match reversed_history with
  | [] => []
  | e :: older =>
      if role e =? "assistant"
      then filter (fun doctor_name =>
                     contains (lower doctor_name) (lower (content e)))
                  all_doctors
      else scan_last_assistant all_doctors older
  end.

(** [extract_mentioned_doctors_from_history], given the roster that
    [get_all_doctor_names()] returned. *)
Definition extract_mentioned_doctors_from_history
  (all_doctors : list string) (chat_history : list entry) : list string :=
  scan_last_assistant all_doctors (rev chat_history).

(** ["- Slot ID {slot_id}: {doctor} ({spec}) - {time_slot}\n"] *)
Definition slot_line (r : slot) : string :=
  "- Slot ID " ++ str_of_Z (slot_id r) ++ ": " ++ slot_doctor r
  ++ " (" ++ slot_spec r ++ ") - " ++ slot_time r ++ nl.

(** The loop [for slot in slots: slots_info += ...] after a header. *)
Definition slot_lines (rows : list slot) : string :=
  String.concat "" (map slot_line rows).

Definition NO_SLOTS : string :=
  "No appointment slots available at the moment.".

(** [context_prefix + msg] *)
Definition message_for_agent (slots_info msg : string) : string :=
  "[PRE-FETCHED SLOTS DATA - USE THIS EXACTLY, DO NOT QUERY AGAIN]:" ++ nl
  ++ slots_info ++ nl ++ nl ++ "User says: " ++ msg.

(* ------------------------------------------------------------------------- *)
(** ** Exceptions and the outside world *)

(** What an operation of the loop can raise.  [External msg] stands for any
    exception [e] of a collaborator (SQLite, an agent, the retriever) with
    [str(e) = msg]. *)
Inductive exn : Type :=
| UnboundLocalError (name : string)
| IndexError
| External (msg : string).

(** [str(e)], as CPython 3.11 and later word it. *)
Definition str_exn (e : exn) : string :=
  match e with
  | UnboundLocalError name =>
      "cannot access local variable '" ++ name
      ++ "' where it is not associated with a value"
  | IndexError => "list index out of range"
  | External msg => msg
  end.

Inductive outcome (A : Type) : Type :=
| Ok (a : A)
| Raise (e : exn).
Arguments Ok {A} a.
Arguments Raise {A} e.

(** What one iteration of the loop finds outside the process. *)
Record world : Type := mkWorld
  { (** [datetime.now().strftime("%d-%m-%Y %H:%M:%S")] at the user's line and
        at the bot's line *)
    now_user : string;
    now_bot : string;
    (** the store as each of the three prefetch queries finds it *)
    db_doctor_names : outcome store;
    db_slots_by_doctors : outcome store;
    db_all_slots : outcome store;
    (** the store as [get_all_doctors_list()] finds it *)
    db_doctors_list : outcome store;
    (** [retriever.invoke(query)]: the page contents of the documents *)
    retriever_invoke : string -> outcome (list string);
    (** [sql_agent.invoke({"messages": ...})["messages"]] *)
    sql_agent_invoke : list entry -> outcome (list entry);
    (** [agent.invoke({"messages": ...})["messages"]] *)
    agent_invoke : list entry -> outcome (list entry);
    (** reading the transcript file succeeds *)
    history_readable : bool;
    (** [get_user_appointments(user_name)], which catches its own errors *)
    user_appointments : string -> string;
    (** [llm.invoke([system_message, user_message]).content] of the summary
        agent, as a function of the user message *)
    summary_llm_invoke : string -> outcome string }.

(** An external agent invocation, as the loop issues it. *)
Inductive call : Type :=
| SummaryCall (user_name : string)
| SqlCall (messages : list entry)
| MedicalCall (messages : list entry).

(** The state of one connection: the locals of [chat_socket], the user's
    transcript file, what was sent on the socket, and the agent invocations
    made so far (oldest first). *)
Record session : Type := mkSession
  { current_ws_user_name : string;
    chat_history : list entry;
    sql_chat_history : list entry;
    (** the locals [sql_agent] and [agent] are bound *)
    sql_agent : bool;
    agent : bool;
    (** the local [response]; [None] while it is unbound *)
    response : option string;
    transcript : string;
    sent : list string;
    invoked : list call }.

(** *** The monad of the loop body: state, and exceptions that keep the
    state reached when they are raised. *)
Definition M (A : Type) : Type := session -> outcome A * session.

Definition ret {A : Type} (a : A) : M A := fun s => (Ok a, s).

Definition bind {A B : Type} (m : M A) (k : A -> M B) : M B :=
  fun s => match m s with
           | (Ok a, s') => k a s'
           | (Raise e, s') => (Raise e, s')
           end.

Definition raise {A : Type} (e : exn) : M A := fun s => (Raise e, s).

(** [try: body / except Exception as e: handler(e)] *)
Definition try_except {A : Type} (body : M A) (handler : exn -> M A) : M A :=
  fun s => match body s with
           | (Ok a, s') => (Ok a, s')
           | (Raise e, s') => handler e s'
           end.

Definition get {A : Type} (f : session -> A) : M A := fun s => (Ok (f s), s).

Definition modify (f : session -> session) : M unit := fun s => (Ok tt, f s).

(** The result of an external call. *)
Definition lift {A : Type} (o : outcome A) : M A := fun s => (o, s).

Declare Scope session_scope.
Delimit Scope session_scope with session.
Notation "x <- m ;; k" := (bind m (fun x => k))
  (at level 61, m at next level, right associativity) : session_scope.
Notation "m ;; k" := (bind m (fun _ => k))
  (at level 61, right associativity) : session_scope.
Local Open Scope session_scope.

Definition set_chat_history (h : list entry) (s : session) : session :=
  mkSession (current_ws_user_name s) h (sql_chat_history s) (sql_agent s)
            (agent s) (response s) (transcript s) (sent s) (invoked s).

Definition set_sql_chat_history (h : list entry) (s : session) : session :=
  mkSession (current_ws_user_name s) (chat_history s) h (sql_agent s)
            (agent s) (response s) (transcript s) (sent s) (invoked s).

Definition set_response (r : string) (s : session) : session :=
  mkSession (current_ws_user_name s) (chat_history s) (sql_chat_history s)
            (sql_agent s) (agent s) (Some r) (transcript s) (sent s)
            (invoked s).

Definition set_transcript (t : string) (s : session) : session :=
  mkSession (current_ws_user_name s) (chat_history s) (sql_chat_history s)
            (sql_agent s) (agent s) (response s) t (sent s) (invoked s).

Definition push_sent (x : string) (s : session) : session :=
  mkSession (current_ws_user_name s) (chat_history s) (sql_chat_history s)
            (sql_agent s) (agent s) (response s) (transcript s)
            (sent s ++ [x]) (invoked s).

Definition push_invoked (c : call) (s : session) : session :=
  mkSession (current_ws_user_name s) (chat_history s) (sql_chat_history s)
            (sql_agent s) (agent s) (response s) (transcript s) (sent s)
            (invoked s ++ [c]).

(* ------------------------------------------------------------------------- *)
(** ** The transcript logger *)

(** The text [f"[{timestamp}] {role}: {message}\n\n"] that
    [save_chat_message] appends. *)
Definition transcript_line (timestamp role message : string) : string :=
  "[" ++ timestamp ++ "] " ++ role ++ ": " ++ message ++ nl ++ nl.

(** [save_chat_message(role, message, current_ws_user_name)] at clock
    reading [timestamp].  [appended] is what [os.makedirs], [open] and
    [f.write] do: they return, or one of them raises; a call that raises
    leaves the file as it was. *)
Definition save_chat_message (appended : outcome unit)
  (timestamp role message : string) : M unit :=
  lift appended ;;
  modify (fun s =>
            set_transcript (transcript s ++ transcript_line timestamp role message) s).

(** [ws.send(text)] on the open socket. *)
Definition ws_send (text : string) : M unit := modify (push_sent text).

(** What the file system does during one iteration of the loop: at the
    append of the user's line and at the append of the bot's line. *)
Record io : Type := mkIo
  { user_line : outcome unit;
    bot_line : outcome unit }.

(** The file can be written. *)
Definition steady : io := mkIo (Ok tt) (Ok tt).

(* ------------------------------------------------------------------------- *)
(** ** The context prefetcher *)

(** [get_slots_by_doctors(doctor_names)]: no query for an empty list. *)
Definition get_slots_by_doctors (w : world) (doctor_names : list string)
  : M (list slot) :=
  match doctor_names with
  | [] => ret []
  | _ :: _ =>
      db <- lift (db_slots_by_doctors w) ;;
      ret (query_slots_by_doctors db doctor_names)
  end.

(** The block of [chat_socket] that computes [slots_info]. *)
Definition prefetch_slots_info (w : world) : M string :=
  db <- lift (db_doctor_names w) ;;
  history <- get chat_history ;;
  let mentioned_doctors :=
    extract_mentioned_doctors_from_history (get_all_doctor_names db) history in
  match mentioned_doctors with
  | _ :: _ =>
      slots <- get_slots_by_doctors w mentioned_doctors ;;
      match slots with
      | _ :: _ =>
          let doctors_str := join ", " mentioned_doctors in
          ret ("AVAILABLE SLOTS FOR " ++ doctors_str ++ ":" ++ nl
               ++ slot_lines slots)
      | [] =>
          db_all <- lift (db_all_slots w) ;;
          let all_slots := get_slots_by_specialization db_all None in
          let doctors_str := join ", " mentioned_doctors in
          match all_slots with
          | _ :: _ =>
              ret ("No slots available for " ++ doctors_str
                   ++ ". Here are ALL available slots:" ++ nl
                   ++ slot_lines all_slots)
          | [] => ret NO_SLOTS
          end
      end
  | [] =>
      db_all <- lift (db_all_slots w) ;;
      let all_slots := get_slots_by_specialization db_all None in
      match all_slots with
      | _ :: _ => ret ("ALL AVAILABLE SLOTS:" ++ nl ++ slot_lines all_slots)
      | [] => ret NO_SLOTS
      end
  end.

(* ------------------------------------------------------------------------- *)
(** ** The agents *)

(** [parse_results(result)]: the message list and the content of its last
    message. *)
Definition parse_results (messages : list entry) : M (list entry * string) :=
  match rev messages with
  | [] => raise IndexError
  | final :: _ => ret (messages, content final)
  end.

(** The text [generate_consultation_summary] returns when the user's file
    reads as [conversation_text]. *)
Definition consultation_summary (w : world) (user_name : string)
  (conversation_text : string) : string :=
  if strip conversation_text =? ""
  then "No consultation history available to summarize."
  else
    let appointments := user_appointments w user_name in
    let user_message :=
      "Please analyze the following conversation and provide a structured consultation summary."
      ++ nl ++ nl ++ "CURRENT USER APPOINTMENTS (from database): "
      ++ appointments ++ nl ++ nl ++ "CONVERSATION HISTORY:" ++ nl
      ++ conversation_text in
    match summary_llm_invoke w user_message with
    | Ok text => text
    | Raise e => "Error generating summary: " ++ str_exn e
    end.

(** [generate_consultation_summary(summary_llm, user_name)].  The user's file
    is the transcript of the session; [read_chat_history_from_file] returns
    the empty string when it cannot read it. *)
Definition generate_consultation_summary (w : world) (user_name : string)
  : M string :=
  file <- get transcript ;;
  let conversation_text := if history_readable w then file else "" in
  ret (consultation_summary w user_name conversation_text).

(** [search_medical_info(doc_retriever, query)] *)
Definition search_medical_info (w : world) (query : string) : M string :=
  docs <- lift (retriever_invoke w query) ;;
  match docs with
  | _ :: _ => ret (join (nl ++ nl) docs)
  | [] => ret "No relevant medical information found."
  end.

Definition INSTRUCTIONS : string :=
  "INSTRUCTIONS: Based on the user's symptoms, choose the most appropriate doctor from the list above and give him a hint base on the symptoms and medical knowledge base.".

(** The augmented message of the medical branch. *)
Definition enhanced_msg (msg doctors : string) (faiss_context : option string)
  : string :=
  let base := msg ++ nl ++ nl ++ "[SYSTEM - DOCTORS DATABASE]:" ++ nl
              ++ doctors ++ nl ++ nl in
  let with_kb :=
    match faiss_context with
    | Some ctx =>
        if negb (ctx =? "") && negb (contains "No relevant" ctx)
        then base ++ "[SYSTEM - MEDICAL KNOWLEDGE BASE]:" ++ nl ++ ctx
             ++ nl ++ nl
        else base
    | None => base
    end in
  with_kb ++ INSTRUCTIONS.

(* ------------------------------------------------------------------------- *)
(** ** The WebSocket session loop *)

Section ChatSocket.

(** [CHAT_BUFFER] of [config.py]. *)
Variable CHAT_BUFFER : Z.
(** The module-level [doc_retriever] is not [None]. *)
Variable doc_retriever : bool.

(** The sql branch from [sql_chat_history.append] on: the user entry, the
    truncation, the agent, its reply. *)
Definition sql_send (w : world) (message : string) : M unit :=
  modify (fun s =>
            set_sql_chat_history
              (sql_chat_history s ++ [user_entry message])%list s) ;;
  modify (fun s =>
            set_sql_chat_history (truncate_to CHAT_BUFFER (sql_chat_history s)) s) ;;
  bound <- get sql_agent ;;
  if bound : bool then
    messages <- get sql_chat_history ;;
    modify (push_invoked (SqlCall messages)) ;;
    sql_result <- lift (sql_agent_invoke w messages) ;;
    parsed <- parse_results sql_result ;;
    modify (set_sql_chat_history (fst parsed)) ;;
    modify (set_response (snd parsed)) ;;
    modify (fun s =>
              set_sql_chat_history
                (sql_chat_history s ++ [assistant_entry (snd parsed)])%list s)
  else raise (UnboundLocalError "sql_agent").

(** The sql branch, under [if any(kw in msg_lower for kw in [...])]. *)
Definition sql_turn (w : world) (msg : string) : M unit :=
  slots_info <- prefetch_slots_info w ;;
  sql_send w (message_for_agent slots_info msg).

(** The medical branch from [chat_history.append] on. *)
Definition medical_send (w : world) (message : string) : M unit :=
  modify (fun s =>
            set_chat_history (chat_history s ++ [user_entry message])%list s) ;;
  modify (fun s =>
            set_chat_history (truncate_to CHAT_BUFFER (chat_history s)) s) ;;
  bound <- get agent ;;
  if bound : bool then
    messages <- get chat_history ;;
    modify (push_invoked (MedicalCall messages)) ;;
    llm_result <- lift (agent_invoke w messages) ;;
    parsed <- parse_results llm_result ;;
    modify (set_chat_history (fst parsed)) ;;
    modify (set_response (snd parsed)) ;;
    modify (fun s =>
              set_chat_history
                (chat_history s ++ [assistant_entry (snd parsed)])%list s)
  else raise (UnboundLocalError "agent").

(** The [else] branch: the medical agent. *)
Definition medical_turn (w : world) (msg : string) : M unit :=
  db <- lift (db_doctors_list w) ;;
  let doctors := get_all_doctors_list db in
  faiss_context <-
    (if doc_retriever && negb (strip msg =? "")
     then ctx <- search_medical_info w msg ;; ret (Some ctx)
     else ret None) ;;
  medical_send w (enhanced_msg msg doctors faiss_context).

(** The router: the [if / elif / else] of the [try] block. *)
Definition dispatch (w : world) (msg : string) : M unit :=
  match classify msg with
  | Summary =>
      user_name <- get current_ws_user_name ;;
      modify (push_invoked (SummaryCall user_name)) ;;
      text <- generate_consultation_summary w user_name ;;
      modify (set_response text)
  | SqlAgent =>
      if asks_availability msg then sql_turn w msg else ret tt
  | MedicalQa => medical_turn w msg
  end.

(** Reading the local [response]. *)
Definition read_response : M string :=
  r <- get response ;;
  match r with
  | Some text => ret text
  | None => raise (UnboundLocalError "response")
  end.

(** The body of the inner [try]. *)
Definition try_body (o : io) (w : world) (msg : string) : M unit :=
  dispatch w msg ;;
  text <- read_response ;;
  save_chat_message (bot_line o) (now_bot w) "bot" text ;;
  ws_send text.

(** One iteration of [while True], for a message that is not [None]: the
    append of the user's line, which is outside the inner [try], then the
    [try / except]. *)
Definition iteration (o : io) (w : world) (msg : string) : M unit :=
  save_chat_message (user_line o) (now_user w) "user" msg ;;
  try_except (try_body o w msg)
             (fun e => ws_send ("Bot Error: " ++ str_exn e)).

(** The loop on the given receives, each with what the file system and the
    world do at that time; [None] is the [None] of
    [ws.receive()].  An exception that leaves an iteration ends the loop (the
    outer [try] has a [finally] clause only). *)
Fixpoint session_loop (receives : list (io * world * option string))
  : M unit :=
  match receives with
  | [] => ret tt
  | (_, _, None) :: _ => ret tt
  | (o, w, Some msg) :: later => iteration o w msg ;; session_loop later
  end.

(** An iteration during which the file can be written. *)
Definition handle_message (w : world) (msg : string) : M unit :=
  iteration steady w msg.

(** The loop while the file can be written. *)
Fixpoint chat_loop (receives : list (world * option string)) : M unit :=
  match receives with
  | [] => ret tt
  | (_, None) :: _ => ret tt
  | (w, Some msg) :: later => handle_message w msg ;; chat_loop later
  end.

Definition GREETING : string :=
  "Bot: Hello! I'm ready to assist you. I can help with medical questions and manage your appointments.".

(** What the connection set-up finds: the [username] query parameter and
    whether the two agent constructors return. *)
Record handshake : Type := mkHandshake
  { username_param : option string;
    initialize_sql_agent : outcome unit;
    initialize_llm : outcome unit;
    (** the user's transcript file as found ([""] when it is created) *)
    history_file : string }.

(** The state in which [chat_socket] enters its loop: the user name, the
    agents bound by the set-up, and the greeting sent. *)
Definition open_session (USER_NAME : string) (h : handshake) : session :=
  let named :=
    match username_param h with
    | Some (String c u) => Some (String c u)
    | _ => None
    end in
  let sql_bound :=
    match named, initialize_sql_agent h with
    | Some _, Ok _ => true
    | _, _ => false
    end in
  let agent_bound :=
    match initialize_llm h with
    | Ok _ => sql_bound
    | Raise _ => false
    end in
  mkSession (match named with Some u => u | None => USER_NAME end)
            [] [] sql_bound agent_bound None (history_file h) [GREETING] [].

(** [chat_socket] on a connection and the receives that follow. *)
Definition chat_socket (USER_NAME : string) (h : handshake)
  (receives : list (world * option string)) : outcome unit * session :=
  chat_loop receives (open_session USER_NAME h).

End ChatSocket.

(* ------------------------------------------------------------------------- *)
(** ** Reading the transcript back: the regular expression of
    [api_chat_history] *)

Module Re.

(** The constructs of Python's [re] that the pattern uses, under
    [re.DOTALL]. *)
Inductive regex : Type :=
| Lit (s : string)            (** literal text *)
| Digits (n : nat)            (** [\d{n}] *)
| Seq (r1 r2 : regex)         (** [r1 r2] *)
| Alt (r1 r2 : regex)         (** [r1|r2] *)
| Group (r : regex)           (** [(r)] *)
| LazyAnyPlus                 (** [.+?] *)
| Lookahead (r : regex)       (** [(?=r)] *)
| EndZ.                       (** [\Z] *)

Definition is_digit (c : ascii) : bool :=
  let n := N_of_ascii c in (48 <=? n)%N && (n <=? 57)%N.

(** [input] without its first [n] characters, when they are all digits. *)
Fixpoint eat_digits (n : nat) (input : string) : option string :=
  match n with
  | O => Some input
  | S n' =>
      match input with
      | String c rest => if is_digit c then eat_digits n' rest else None
      | EmptyString => None
      end
  end.

(** [input] without its prefix [s], when it starts with [s]. *)
Fixpoint eat_lit (s input : string) : option string :=
  match s with
  | EmptyString => Some input
  | String c s' =>
      match input with
      | String d rest => if (c =? d)%char then eat_lit s' rest else None
      | EmptyString => None
      end
  end.

(** What [rest] lacks to be [input]: the text a group has consumed. *)
Definition consumed (input rest : string) : string :=
  substring 0 (String.length input - String.length rest) input.

(** [.+?]: one character, then as few more as the continuation needs. *)
Fixpoint lazy_any_plus {X : Type} (input : string) (k : string -> option X)
  : option X :=
  match input with
  | EmptyString => None
  | String _ rest =>
      match k rest with
      | Some x => Some x
      | None => lazy_any_plus rest k
      end
  end.

(** The backtracking matcher.  [input] is what is left of the subject,
    [caps] the groups closed so far, [k] what remains of the pattern. *)
Fixpoint match_re (r : regex) (X : Type) (input : string) (caps : list string)
  (k : string -> list string -> option X) {struct r} : option X :=
  match r with
  | Lit s =>
      match eat_lit s input with
      | Some rest => k rest caps
      | None => None
      end
  | Digits n =>
      match eat_digits n input with
      | Some rest => k rest caps
      | None => None
      end
  | Seq r1 r2 =>
      match_re r1 X input caps (fun rest caps' => match_re r2 X rest caps' k)
  | Alt r1 r2 =>
      match match_re r1 X input caps k with
      | Some x => Some x
      | None => match_re r2 X input caps k
      end
  | Group r' =>
      match_re r' X input caps
        (fun rest caps' => k rest (caps' ++ [consumed input rest])%list)
  | LazyAnyPlus => lazy_any_plus input (fun rest => k rest caps)
  | Lookahead r' =>
      match match_re r' unit input caps (fun _ _ => Some tt) with
      | Some _ => k input caps
      | None => None
      end
  | EndZ =>
      match input with
      | EmptyString => k input caps
      | String _ _ => None
      end
  end.

(** A match that starts at the head of [input]: its groups and what follows
    it. *)
Definition match_here (r : regex) (input : string)
  : option (list string * string) :=
  match_re r _ input [] (fun rest caps => Some (caps, rest)).

(** [re.fullmatch(r, s) is not None] *)
Definition fullmatch (r : regex) (s : string) : bool :=
  match match_re r unit s []
          (fun rest _ => if rest =? "" then Some tt else None) with
  | Some _ => true
  | None => false
  end.

(** The scan of [re.findall]: the leftmost match, then on from its end.
    After an empty match the scan moves one character on. *)
Fixpoint findall_from (fuel : nat) (r : regex) (input : string)
  : list (list string) :=
  match fuel with
  | O => []
  | S fuel' =>
      let step :=
        match input with
        | EmptyString => []
        | String _ input' => findall_from fuel' r input'
        end in
      match match_here r input with
      | Some (caps, rest) =>
          if (String.length rest <? String.length input)%nat
          then caps :: findall_from fuel' r rest
          else caps :: step
      | None => step
      end
  end.

(** [re.findall(r, content, re.DOTALL)]; every step of the scan shortens the
    input, so its length bounds the number of steps. *)
Definition findall (r : regex) (content : string) : list (list string) :=
  findall_from (S (String.length content)) r content.

End Re.
Import Re.

Notation "r1 >> r2" := (Seq r1 r2) (at level 41, right associativity).

(** [\d{2}-\d{2}-\d{4} \d{2}:\d{2}:\d{2}] *)
Definition TIMESTAMP : regex :=
  Digits 2 >> Lit "-" >> Digits 2 >> Lit "-" >> Digits 4 >> Lit " "
  >> Digits 2 >> Lit ":" >> Digits 2 >> Lit ":" >> Digits 2.

(** [r'\[(\d{2}-\d{2}-\d{4} \d{2}:\d{2}:\d{2})\] (user|bot): (.+?)(?=\n\[|\Z)'] *)
Definition PATTERN : regex :=
  Lit "[" >> Group TIMESTAMP >> Lit "] "
  >> Group (Alt (Lit "user") (Lit "bot")) >> Lit ": "
  >> Group LazyAnyPlus >> Lookahead (Alt (Lit (nl ++ "[")) EndZ).

(** An element of [messages] in [api_chat_history]. *)
Record history_message : Type := mkHistoryMessage
  { timestamp : string; msg_role : string; text : string }.

(** [timestamp, role, text = match] and the dict built from them.
    [str_strip] is Python's [str.strip], which trims the white space of
    Unicode; [strip] is what it does on ASCII text. *)
Definition message_of_match (str_strip : string -> string)
  (groups : list string) : history_message :=
  let timestamp := nth 0 groups "" in
  let role := nth 1 groups "" in
  let text := nth 2 groups "" in
  mkHistoryMessage timestamp (if role =? "user" then "user" else "bot")
                   (str_strip text).

(** What [f.read()] returns for a file opened in text mode: each ["\r\n"]
    and each other ["\r"] of the file is read as ["\n"]. *)
Fixpoint universal_newlines (file : string) : string :=
  match file with
  | EmptyString => EmptyString
  | String c rest =>
      if (c =? cr)%char
      then
        match rest with
        | String d rest' =>
            if (d =? lf)%char
            then String lf (universal_newlines rest')
            else String lf (universal_newlines rest)
        | EmptyString => String lf EmptyString
        end
      else String c (universal_newlines rest)
  end.

(** The [messages] that [api_chat_history] builds from the user's file:
    [content = f.read()], then the matches of the pattern. *)
Definition api_chat_history (str_strip : string -> string) (file : string)
  : list history_message :=
  let content := universal_newlines file in
  map (message_of_match str_strip) (findall PATTERN content).

(** The file after [save_chat_message] has been called, on an empty file,
    for each [(role, text, timestamp)] in turn.  The file system is a POSIX
    one: a line break is written as the one character it is. *)
Definition written (records : list (string * string * string)) : string :=
  fold_left
    (fun file '(role, text, timestamp) =>
       file ++ transcript_line timestamp role text)
    records "".

(** A clock reading in the format of [strftime("%d-%m-%Y %H:%M:%S")]. *)
Definition is_timestamp (s : string) : bool := fullmatch TIMESTAMP s.

(** A pattern of literals and digit runs only: it matches in one way at
    most. *)
Fixpoint plain (r : regex) : bool :=
  match r with
  | Lit _ | Digits _ => true
  | Seq r1 r2 => plain r1 && plain r2
  | _ => false
  end.

(** What a plain pattern leaves of [input]. *)
Fixpoint eat (r : regex) (input : string) : option string :=
  match r with
  | Lit s => eat_lit s input
  | Digits n => eat_digits n input
  | Seq r1 r2 =>
      match eat r1 input with
      | Some rest => eat r2 rest
      | None => None
      end
  | _ => None
  end.

(** The lookahead [(?=\n\[|\Z)] holds in front of [u]. *)
Definition stops (u : string) : bool :=
  match eat_lit (nl ++ "[") u with
  | Some _ => true
  | None => match u with EmptyString => true | String _ _ => false end
  end.

(** The literals of a plain pattern are made of characters of [cls]. *)
Fixpoint literals_in (cls : ascii -> bool) (r : regex) : bool :=
  match r with
  | Lit s => forallb cls (list_ascii_of_string s)
  | Digits _ => true
  | Seq r1 r2 => literals_in cls r1 && literals_in cls r2
  | _ => false
  end.

(** A record the logger is given by [chat_socket] that reads back: the role
    is "user" or "bot", the clock reading is a timestamp, and the text holds
    no carriage return and no line break followed by an opening bracket. *)
Definition reads_back (record : string * string * string) : Prop :=
  let '(role, text, timestamp) := record in
  (role = "user" \/ role = "bot")
  /\ is_timestamp timestamp = true
  /\ contains (String cr "") text = false
  /\ contains (nl ++ "[") text = false.

(** What follows a line in the file: nothing, or the next line. *)
Definition line_follows (rest : string) : Prop :=
  rest = "" \/ exists x, rest = "[" ++ x.

(** The message [api_chat_history] is expected to return for a record. *)
Definition message_of_record (str_strip : string -> string)
  (record : string * string * string) : history_message :=
  let '(role, text, timestamp) := record in
  mkHistoryMessage timestamp role (str_strip text).

(** [msg] holds, in lower case, one of the keywords [kws]. *)
Definition has_keyword (kws : list string) (msg : string) : Prop :=
  exists kw, In kw kws /\ Substring kw (lower msg).

(** [e] is an assistant turn. *)
Definition is_assistant (e : entry) : Prop := role e = "assistant".

(** The roster test of the prefetcher: the doctor's name, in lower case,
    occurs in the lower-cased content of [e]. *)
Definition mentions (e : entry) (doctor_name : string) : bool :=
  contains (lower doctor_name) (lower (content e)).

(** The session once [save_chat_message("user", msg, ...)] has run. *)
Definition user_logged (w : world) (msg : string) (s : session) : session :=
  set_transcript (transcript s ++ transcript_line (now_user w) "user" msg) s.

(** The session once the bot's line for [reply] is written and [reply] sent. *)
Definition replied (w : world) (reply : string) (s : session) : session :=
  push_sent reply
    (set_transcript (transcript s ++ transcript_line (now_bot w) "bot" reply) s).

(** The text the [except] clause sends for [e]. *)
Definition bot_error (e : exn) : string := "Bot Error: " ++ str_exn e.

(** The buffer an invocation hands to its agent; the summary service gets
    none. *)
Definition call_buffer (c : call) : list entry :=
  match c with
  | SummaryCall _ => []
  | SqlCall messages | MedicalCall messages => messages
  end.

(** The messages of [receives] that the loop handles: those in front of the
    first [None]. *)
Fixpoint received (receives : list (world * option string)) : list string :=
  match receives with
  | (_, Some msg) :: later => msg :: received later
  | _ => []
  end.

(** [m] leaves the component [f] of the session as it found it, whether it
    returns or raises. *)
Definition keeps {A B : Type} (f : session -> B) (m : M A) : Prop :=
  forall s, f (snd (m s)) = f s.

(** The receives that the loop handles, each with the world it finds: those
    in front of the first [None]. *)
Fixpoint handled (receives : list (world * option string))
  : list (world * string) :=
  match receives with
  | (w, Some msg) :: later => (w, msg) :: handled later
  | _ => []
  end.

(** The [user_message] content that [generate_consultation_summary] builds. *)
Definition summary_prompt (appointments conversation_text : string) : string :=
  "Please analyze the following conversation and provide a structured consultation summary."
  ++ nl ++ nl ++ "CURRENT USER APPOINTMENTS (from database): "
  ++ appointments ++ nl ++ nl ++ "CONVERSATION HISTORY:" ++ nl
  ++ conversation_text.

(** What [generate_consultation_summary] returns once it asks the model: the
    content of the answer, or the text of its own [except] clause. *)
Definition summary_reply (w : world) (user_name conversation_text : string)
  : string :=
  match summary_llm_invoke w
          (summary_prompt (user_appointments w user_name) conversation_text)
  with
  | Ok answer => answer
  | Raise e => "Error generating summary: " ++ str_exn e
  end.

(** What an invocation made for [msg] in session [s] is handed: the summary
    service the user name of the session, an agent a buffer that ends with
    the user entry built from [msg]. *)
Definition call_carries (s : session) (msg : string) (c : call) : Prop :=
  match c with
  | SummaryCall user_name => user_name = current_ws_user_name s
  | SqlCall messages =>
      exists older slots_info,
        messages
        = (older ++ [user_entry (message_for_agent slots_info msg)])%list
  | MedicalCall messages =>
      exists older doctors faiss_context,
        messages
        = (older ++ [user_entry (enhanced_msg msg doctors faiss_context)])%list
  end.

(** [l] is in ascending order of [le]. *)
Definition sorted_by {A : Type} (le : A -> A -> bool) (l : list A) : Prop :=
  Sorted (fun a b => le a b = true) l.

(** The rows that the join of the slot queries produces: [r] is an
    appointment without patient, with the specialization of a row of
    [doctors] that bears the doctor's name. *)
Definition is_open_slot (db : store) (r : slot) : Prop :=
  exists a d,
    In a (appointments db) /\ In d (doctors db)
    /\ a_patient a = None /\ a_doctor a = d_name d
    /\ r = mkSlot (a_id a) (a_doctor a) (a_time_slot a) (d_specialization d).

(* ------------------------------------------------------------------------- *)
(** ** The patient problem summary of [summary_agent.py] *)

(** [read_chat_history_from_file(user_name)]: the content of the user's file,
    and the empty string when the file is missing or cannot be read. *)
Definition read_chat_history_from_file (file : option string)
  (readable : bool) : string :=
  match file with
  | Some content => if readable then content else ""
  | None => ""
  end.

(** [generate_patient_problem_summary(llm, user_name)], given the user's
    file; [llm] maps the conversation text to the content of the model's
    answer. *)
Definition generate_patient_problem_summary (llm : string -> outcome string)
  (file : option string) (readable : bool) : string :=
  let conversation_text := read_chat_history_from_file file readable in
  if strip conversation_text =? "" then "General consultation"
  else
    match llm conversation_text with
    | Ok answer =>
        let problem := strip answer in
        let problem :=
          if (200 <? String.length problem)%nat
          then substring 0 197 problem ++ "..."
          else problem in
        if problem =? "" then "General consultation" else problem
    | Raise _ => "General consultation"
    end.

(* ------------------------------------------------------------------------- *)
(** ** The booking endpoints of [app.py]

    The endpoints are modelled on a store that can be reached; what they
    return is the status code and the text of the ["error"], ["message"] or
    ["response"] field.  The [slot_id] member of a request body is an
    integer when it is present; the [patient] member, when it is present, is
    a string or, for [api_book_slot], the JSON [null]. *)

(** The [patient] member of the JSON body of a request. *)
Inductive body_value : Type :=
| Missing                  (** the body has no such member *)
| JsonNull                 (** [{"patient": null}] *)
| JsonString (s : string). (** [{"patient": "..."}] *)

(** The member of a body that gives a string or nothing. *)
Definition body_of (patient : option string) : body_value :=
  match patient with
  | Some p => JsonString p
  | None => Missing
  end.

(** [SELECT ... FROM appointments WHERE id = ?] and [fetchone()]. *)
Definition find_appointment (slot_id : Z) (db : store)
  : option appointment_row :=
  find (fun a => (a_id a =? slot_id)%Z) (appointments db).

(** [UPDATE appointments SET patient = ? WHERE id = ?] *)
Definition set_patient (patient : option string) (slot_id : Z) (db : store)
  : store :=
  mkStore (doctors db)
    (map (fun a =>
            if (a_id a =? slot_id)%Z
            then mkAppointment (a_id a) (a_doctor a) (a_time_slot a) patient
            else a)
         (appointments db)).

(** [api_book_slot] behind [login_required]: [current_user] is the full name
    of the logged-in user, [body_patient] the [patient] member of the body.
    [data.get('patient', current_user_name)] is the caller's name only when
    the member is missing: a [null] is [None], which the [UPDATE] writes as
    [NULL]. *)
Definition api_book_slot (current_user : option string)
  (body_patient : body_value) (slot_id : Z) (db : store)
  : (nat * string) * store :=
  match current_user with
  | None => ((401, "Please log in first"), db)
  | Some current_user_name =>
      let patient :=
        match body_patient with
        | JsonString p => Some p
        | JsonNull => None
        | Missing => Some current_user_name
        end in
      match find_appointment slot_id db with
      | None => ((404, "Slot not found"), db)
      | Some result =>
          match a_patient result with
          | Some _ => ((400, "Slot already booked"), db)
          | None =>
              ((200, "Appointment booked successfully"),
               set_patient patient slot_id db)
          end
      end
  end.

(** [api_cancel_slot] behind [login_required]. *)
Definition api_cancel_slot (current_user : option string)
  (body_patient : option string) (slot_id : Z) (db : store)
  : (nat * string) * store :=
  match current_user with
  | None => ((401, "Please log in first"), db)
  | Some current_user_name =>
      let patient :=
        match body_patient with
        | Some p => p
        | None => current_user_name
        end in
      match find_appointment slot_id db with
      | None => ((404, "Slot not found"), db)
      | Some result =>
          match a_patient result with
          | None => ((400, "Slot is not booked"), db)
          | Some booked_by =>
              if negb (lower booked_by =? lower patient)
              then ((403, "Cannot cancel another patient's reservation"), db)
              else
                ((200, "Appointment with " ++ a_doctor result ++ " for "
                       ++ a_time_slot result ++ " cancelled successfully"),
                 set_patient None slot_id db)
          end
      end
  end.

(** A Python value is true: the [patient] column holds a non-empty string. *)
Definition truthy (patient : option string) : bool :=
  match patient with
  | Some (String _ _) => true
  | _ => false
  end.

(** [reserve] ([POST /setReservation]); [slot_id] is
    [data.get("slot_id") or request.args.get("slot_id", type=int)]. *)
Definition reserve (USER_NAME : string) (slot_id : option Z) (db : store)
  : (nat * string) * store :=
  match slot_id with
  | None | Some 0%Z => ((400, "Missing slot_id"), db)
  | Some id =>
      match find_appointment id db with
      | None => ((404, "Unable to process request"), db)
      | Some row =>
          let patient := a_patient row in
          if truthy patient
             && negb (lower (match patient with Some p => p | None => "" end)
                      =? lower USER_NAME)
          then ((403, "Unable to process request"), db)
          else
            ((200, "Reservation successful"),
             if negb (truthy patient)
             then set_patient (Some USER_NAME) id db
             else db)
      end
  end.

(** [cancel] ([POST /cancelReservation]). *)
Definition cancel (USER_NAME : string) (slot_id : option Z) (db : store)
  : (nat * string) * store :=
  match slot_id with
  | None | Some 0%Z => ((400, "Missing slot_id"), db)
  | Some id =>
      match find_appointment id db with
      | None => ((404, "Unable to process request"), db)
      | Some row =>
          let patient := a_patient row in
          if truthy patient
             && negb (lower (match patient with Some p => p | None => "" end)
                      =? lower USER_NAME)
          then ((403, "Unable to process request"), db)
          else ((200, "Cancellation successful"), set_patient None id db)
      end
  end.

(** The slot identifiers of the store are pairwise distinct, as the primary
    key of [appointments] makes them. *)
Definition distinct_ids (db : store) : Prop :=
  NoDup (map a_id (appointments db)).

(* ------------------------------------------------------------------------- *)
(** ** Upload file names ([app.py]) *)

(** [ALLOWED_EXTENSIONS] *)
Definition ALLOWED_EXTENSIONS : list string :=
  [ "png"; "jpg"; "jpeg"; "gif"; "pdf"; "doc"; "docx" ].

(** [s.rsplit('.', 1)]: [[before; after]] around the last dot of [s], and
    [[s]] when [s] has no dot. *)
Fixpoint rsplit_dot (s : string) : list string :=
  match s with
  | EmptyString => [EmptyString]
  | String c s' =>
      match rsplit_dot s' with
      | [before; after] => [String c before; after]
      | _ => if (c =? ".")%char then [EmptyString; s'] else [String c s']
      end
  end.

(** [allowed_file(filename)] *)
Definition allowed_file (filename : string) : bool :=
  contains "." filename
  && existsb (String.eqb (lower (nth 1 (rsplit_dot filename) "")))
             ALLOWED_EXTENSIONS.

(* ------------------------------------------------------------------------- *)
(** ** Accounts ([auth.py]) *)

Module Cls.

(** The constructs of the e-mail pattern: a character, a greedy run
    [[...]{min,}] of a character class, a sequence, and [$]. *)
Inductive pattern : Type :=
| Chr (c : ascii)
| Many (min : nat) (cls : ascii -> bool)
| Then (p1 p2 : pattern)
| Dollar.

(** [input] without its first [n] characters, when they are all in [cls]. *)
Fixpoint eat_class (n : nat) (cls : ascii -> bool) (input : string)
  : option string :=
  match n with
  | O => Some input
  | S n' =>
      match input with
      | String c rest => if cls c then eat_class n' cls rest else None
      | EmptyString => None
      end
  end.

(** A greedy run [[...]*]: as many characters as the class allows, then
    fewer until the continuation accepts. *)
Fixpoint greedy_star {X : Type} (cls : ascii -> bool) (input : string)
  (k : string -> option X) : option X :=
  match input with
  | String c rest =>
      if cls c
      then match greedy_star cls rest k with
           | Some x => Some x
           | None => k input
           end
      else k input
  | EmptyString => k input
  end.

(** The backtracking matcher, as in [Re]. *)
Fixpoint match_pattern {X : Type} (p : pattern) (input : string)
  (k : string -> option X) {struct p} : option X :=
  match p with
  | Chr c =>
      match input with
      | String d rest => if (c =? d)%char then k rest else None
      | EmptyString => None
      end
  | Many min cls =>
      match eat_class min cls input with
      | Some rest => greedy_star cls rest k
      | None => None
      end
  | Then p1 p2 => match_pattern p1 input (fun rest => match_pattern p2 rest k)
  | Dollar =>
      (* the end of the string, or the line break that ends it *)
      if (input =? "") || (input =? nl) then k input else None
  end.

(** [re.match(p, s) is not None] *)
Definition matches (p : pattern) (s : string) : bool :=
  match match_pattern p s (fun _ => Some tt) with
  | Some _ => true
  | None => false
  end.

(** What a pattern denotes: [p] can consume [consumed] when [rest] follows. *)
Fixpoint accepts (p : pattern) (consumed rest : string) : Prop :=
  match p with
  | Chr c => consumed = String c EmptyString
  | Many min cls => (min <= String.length consumed)%nat /\ all_in cls consumed
  | Then p1 p2 =>
      exists a1 a2,
        consumed = a1 ++ a2 /\ accepts p1 a1 (a2 ++ rest) /\ accepts p2 a2 rest
  | Dollar => consumed = "" /\ (rest = "" \/ rest = nl)
  end.

End Cls.

Definition is_lower_letter (c : ascii) : bool :=
  let n := N_of_ascii c in (97 <=? n)%N && (n <=? 122)%N.

(** [[a-zA-Z]] *)
Definition is_letter (c : ascii) : bool := is_upper c || is_lower_letter c.

Definition one_of (chars : string) (c : ascii) : bool :=
  existsb (Ascii.eqb c) (list_ascii_of_string chars).

(** [[a-zA-Z0-9._%+-]] *)
Definition is_local_char (c : ascii) : bool :=
  is_letter c || is_digit c || one_of "._%+-" c.

(** [[a-zA-Z0-9.-]] *)
Definition is_domain_char (c : ascii) : bool :=
  is_letter c || is_digit c || one_of ".-" c.

(** [r'^[a-zA-Z0-9._%+-]+@[a-zA-Z0-9.-]+\.[a-zA-Z]{2,}$'], matched from the
    start of the string by [re.match]. *)
Definition EMAIL : Cls.pattern :=
  Cls.Then (Cls.Many 1 is_local_char)
    (Cls.Then (Cls.Chr "@")
       (Cls.Then (Cls.Many 1 is_domain_char)
          (Cls.Then (Cls.Chr ".")
             (Cls.Then (Cls.Many 2 is_letter) Cls.Dollar)))).

(** [validate_email(email)] *)
Definition validate_email (email : string) : bool := Cls.matches EMAIL email.

(** [re.search] of a one-character class. *)
Definition has_char (cls : ascii -> bool) (s : string) : bool :=
  existsb cls (list_ascii_of_string s).

(** The class of special characters of the password rule: the
    punctuation marks below and the double quote. *)
Definition is_special (c : ascii) : bool :=
  one_of ("!@#$%^&*(),.?" ++ chr 34 ++ ":{}|<>") c.

(** [validate_password_strength(password)]: [(is_valid, error_message)]. *)
Definition validate_password_strength (password : string)
  : bool * option string :=
  if (String.length password <? 8)%nat
  then (false, Some "Password must be at least 8 characters")
  else if negb (has_char is_upper password)
  then (false, Some "Password must contain an uppercase letter")
  else if negb (has_char is_lower_letter password)
  then (false, Some "Password must contain a lowercase letter")
  else if negb (has_char is_digit password)
  then (false, Some "Password must contain a number")
  else if negb (has_char is_special password)
  then (false, Some "Password must contain a special character")
  else (true, None).

(** A row of the table [users]. *)
Record user_row : Type := mkUser
  { u_id : Z; u_username : string; u_email : string;
    u_password_hash : string; u_password_salt : string;
    u_role : string; u_full_name : string }.

(** The dict [user_info] of [login_user] and [get_user_by_id]. *)
Record user_info : Type := mkUserInfo
  { user_id : Z; username : string; email : string; user_role : string;
    full_name : string }.

Definition info_of (u : user_row) : user_info :=
  mkUserInfo (u_id u) (u_username u) (u_email u) (u_role u) (u_full_name u).

(** What [register_user] returns: [(True, user_id)] or [(False, error)]. *)
Inductive registration : Type :=
| Registered (user_id : Z)
| Refused (error : string).

(** [cur.lastrowid] after an insert: the application never deletes a user,
    so the key given is one more than the largest key of the table. *)
Definition next_user_id (users : list user_row) : Z :=
  1 + fold_right Z.max 0%Z (map u_id users).

(** The string has ASCII characters only. *)
Definition ascii_only (s : string) : bool :=
  forallb is_ascii (list_ascii_of_string s).

Section Auth.

(** [hashlib.pbkdf2_hmac('sha256', password, salt, 100000).hex()] *)
Variable pbkdf2 : string -> string -> string.

(** Python's [str.lower].  It is kept apart from SQLite's [LOWER], which is
    [lower]: the latter changes the letters A to Z and nothing else, the
    former folds other letters as well. *)
Variable str_lower : string -> string.

(** [hash_password(password, salt)] for a given salt. *)
Definition hash_password (password salt : string) : string * string :=
  (pbkdf2 password salt, salt).

(** [secrets.compare_digest(a, b)] on two [str]: a [TypeError] unless both
    are ASCII. *)
Definition compare_digest (a b : string) : outcome bool :=
  if ascii_only a && ascii_only b
  then Ok (a =? b)
  else Raise (External
                "comparing strings with non-ASCII characters is not supported").

(** [verify_password(password, stored_hash, salt)] *)
Definition verify_password (password stored_hash salt : string)
  : outcome bool :=
  let '(computed_hash, _) := hash_password password salt in
  compare_digest computed_hash stored_hash.

(** [register_user]; [fresh_salt] is the [secrets.token_hex(32)] that
    [hash_password] draws.  The two [SELECT]s compare under SQLite's
    [LOWER]; the [INSERT] stores [username.lower()] and [email.lower()] and
    fails with an [IntegrityError] when a row has that very user name or
    address (the columns are [UNIQUE]). *)
Definition register_user (fresh_salt : string)
  (username email password full_name role : string)
  (users : list user_row) : registration * list user_row :=
  if (username =? "") || (String.length username <? 3)%nat
  then (Refused "Username must be at least 3 characters", users)
  else if negb (validate_email email)
  then (Refused "Invalid email format", users)
  else
    let '(is_valid, error) := validate_password_strength password in
    if negb is_valid
    then (Refused (match error with Some e => e | None => "" end), users)
    else if (full_name =? "") || (String.length full_name <? 2)%nat
    then (Refused "Full name is required", users)
    else if negb (existsb (String.eqb role) ["patient"; "doctor"; "admin"])
    then (Refused "Invalid role", users)
    else
      let '(password_hash, salt) := hash_password password fresh_salt in
      if existsb (fun u => lower (u_username u) =? lower username) users
      then (Refused "Username already exists", users)
      else if existsb (fun u => lower (u_email u) =? lower email) users
      then (Refused "Email already registered", users)
      else if existsb (fun u => u_username u =? str_lower username) users
      then (Refused "Database error: UNIQUE constraint failed: users.username",
            users)
      else if existsb (fun u => u_email u =? str_lower email) users
      then (Refused "Database error: UNIQUE constraint failed: users.email",
            users)
      else
        let user_id := next_user_id users in
        (Registered user_id,
         (users
          ++ [mkUser user_id (str_lower username) (str_lower email)
                     password_hash salt role full_name])%list).

(** The row a successful [register_user] adds. *)
Definition registered_row (fresh_salt username email password full_name
                           role : string) (users : list user_row)
  : user_row :=
  mkUser (next_user_id users) (str_lower username) (str_lower email)
         (fst (hash_password password fresh_salt)) fresh_salt role full_name.

(** [login_user]: [(success, error, user_info)], or what [verify_password]
    raises, and the [user_id] of the Flask session afterwards.  The query
    compares under SQLite's [LOWER]; of the rows that match, [fetchone] is
    given the first of the table. *)
Definition login_user (username_or_email password : string)
  (users : list user_row) (session_user : option Z)
  : outcome (bool * option string * option user_info) * option Z :=
  match find (fun u =>
                (lower (u_username u) =? lower username_or_email)
                || (lower (u_email u) =? lower username_or_email))
             users with
  | None =>
      (Ok (false, Some "Invalid username or password", None), session_user)
  | Some u =>
      match verify_password password (u_password_hash u)
                            (u_password_salt u) with
      | Raise e => (Raise e, session_user)
      | Ok verified =>
          if negb verified
          then (Ok (false, Some "Invalid username or password", None),
                session_user)
          else (Ok (true, None, Some (info_of u)), Some (u_id u))
      end
  end.

End Auth.

(** [get_user_by_id(user_id)] *)
Definition get_user_by_id (user_id : Z) (users : list user_row)
  : option user_info :=
  option_map info_of (find (fun u => (u_id u =? user_id)%Z) users).

(** [get_current_user()]: the user of the session, if it names one. *)
Definition get_current_user (session_user : option Z)
  (users : list user_row) : option user_info :=
  match session_user with
  | None | Some 0%Z => None
  | Some user_id => get_user_by_id user_id users
  end.

(** The strings the e-mail pattern describes: an address, and possibly the
    line break that [$] lets through. *)
Definition is_email_shaped (email : string) : Prop :=
  exists local domain tld tail,
    email = local ++ "@" ++ domain ++ "." ++ tld ++ tail
    /\ local <> "" /\ all_in is_local_char local
    /\ domain <> "" /\ all_in is_domain_char domain
    /\ (2 <= String.length tld)%nat /\ all_in is_letter tld
    /\ (tail = "" \/ tail = nl).

(** The user names of the table are pairwise distinct, case aside. *)
Definition distinct_usernames (users : list user_row) : Prop :=
  NoDup (map (fun u => lower (u_username u)) users).

(** And so are the e-mail addresses. *)
Definition distinct_emails (users : list user_row) : Prop :=
  NoDup (map (fun u => lower (u_email u)) users).

(* ------------------------------------------------------------------------- *)
(** ** Look-ups by name ([summary_agent.py], [helper.py], [sql_agent.py]) *)

(** [f] holds of [s] or of one of its suffixes. *)
Fixpoint any_suffix (f : string -> bool) (s : string) : bool :=
  f s
  || match s with
     | String _ s' => any_suffix f s'
     | EmptyString => false
     end.

(** SQLite's [text LIKE pattern]: [%] stands for any run of characters, [_]
    for any one character, and a letter for itself in either case. *)
Fixpoint like (pattern text : string) {struct pattern} : bool :=
  match pattern with
  | EmptyString => text =? ""
  | String c pattern' =>
      if (c =? "%")%char then any_suffix (like pattern') text
      else
        match text with
        | String d text' =>
            ((c =? "_")%char || (lower_char c =? lower_char d)%char)
            && like pattern' text'
        | EmptyString => false
        end
  end.

(** [LOWER(column) LIKE LOWER(?)]; a [NULL] column matches nothing. *)
Definition lower_like (column : option string) (param : string) : bool :=
  match column with
  | Some value => like (lower param) (lower value)
  | None => false
  end.

(** [FROM appointments a JOIN doctors d ON a.doctor = d.name WHERE ...],
    with the columns [(a.id, a.doctor, a.time_slot, d.specialization)]. *)
Definition joined_where (keep : appointment_row -> bool) (db : store)
  : list slot :=
  flat_map
    (fun a =>
       if keep a
       then map (fun d => mkSlot (a_id a) (a_doctor a) (a_time_slot a)
                                 (d_specialization d))
                (filter (fun d => a_doctor a =? d_name d) (doctors db))
       else [])
    (appointments db).

(** [get_user_appointments(user_name)] of [summary_agent.py]; [db] is the
    store, or what connecting to it or querying it raises. *)
Definition get_user_appointments (db : outcome store) (user_name : string)
  : string :=
  match db with
  | Raise _ => "Unable to retrieve"
  | Ok db =>
      let rows :=
        order_by by_time
          (joined_where
             (fun a => lower_like (a_patient a) ("%" ++ user_name ++ "%"))
             db) in
      match rows with
      | [] => "None"
      | _ :: _ =>
          join "; "
               (map (fun r => slot_doctor r ++ " (" ++ slot_spec r ++ ") - "
                              ++ slot_time r)
                    rows)
      end
  end.

Module Helper.

(** An entry of the list [search_patient_appointments] returns. *)
Record appointment_link : Type := mkAppointmentLink
  { time_slot : string; doctor : string; reservation_link : string }.

(** ['<a href="res?id={}" target="_blank"> link </a>'.format(id)] *)
Definition link_to (id : Z) : string :=
  "<a href=" ++ chr 34 ++ "res?id=" ++ str_of_Z id ++ chr 34 ++ " target="
  ++ chr 34 ++ "_blank" ++ chr 34 ++ "> link </a>".

(** [search_patient_appointments(patient, doctor)]: neither query has an
    [ORDER BY], the rows come in the order of the table. *)
Definition search_patient_appointments (patient : string)
  (doctor : option string) (db : store) : list appointment_link :=
  let rows :=
    match doctor with
    | Some (String c d) =>
        filter (fun a =>
                  lower_like (a_patient a) ("%" ++ patient ++ "%")
                  && lower_like (Some (a_doctor a))
                                ("%" ++ String c d ++ "%"))
               (appointments db)
    | _ =>
        filter (fun a => lower_like (a_patient a) ("%" ++ patient ++ "%"))
               (appointments db)
    end in
  map (fun a => mkAppointmentLink (a_time_slot a) (a_doctor a)
                                  (link_to (a_id a)))
      rows.

End Helper.

Module SqlAgent.

(** [get_user_reservations(patient)] *)
Definition get_user_reservations (patient : string) (db : store)
  : list slot :=
  order_by by_time
    (joined_where
       (fun a => match a_patient a with
                 | Some booked_by => lower booked_by =? lower patient
                 | None => false
                 end)
       db).

End SqlAgent.

(** A name without the wildcards of [LIKE]. *)
Definition no_wildcard (name : string) : Prop :=
  contains "%" name = false /\ contains "_" name = false.

(* ------------------------------------------------------------------------- *)
(** ** Sample data *)

Module Sample.

Definition ts1 : string := "03-11-2026 10:20:30".
Definition ts2 : string := "03-11-2026 10:20:41".

Definition roster : store :=
  mkStore [ mkDoctor "Dr. Fontana" "Cardiology";
            mkDoctor "Dr. Moretti" "Dermatology";
            mkDoctor "Dr. Ricci" "Neurology" ]
          [ mkAppointment 1 "Dr. Fontana" "2026-11-05 09:00" None;
            mkAppointment 2 "Dr. Ricci" "2026-11-04 15:30" (Some "Mario Rossi");
            mkAppointment 3 "Dr. Moretti" "2026-11-04 11:00" None ].

(** The roster when every appointment is taken. *)
Definition booked_out : store :=
  mkStore (doctors roster)
          [ mkAppointment 2 "Dr. Ricci" "2026-11-04 15:30" (Some "Mario Rossi") ].

(** An agent that answers by one more message. *)
Definition echo (reply : string) (messages : list entry)
  : outcome (list entry) :=
  Ok (messages ++ [assistant_entry reply])%list.

Definition calm (db : store) : world :=
  mkWorld ts1 ts2 (Ok db) (Ok db) (Ok db) (Ok db)
          (fun _ => Ok [])
          (echo "Slot 1 is free.")
          (echo "I recommend Dr. Ricci.")
          true
          (fun _ => "None")
          (fun _ => Ok "You discussed a headache.").

(** A world whose store cannot be reached. *)
Definition locked : world :=
  mkWorld ts1 ts2 (Raise (External "database is locked"))
          (Raise (External "database is locked"))
          (Raise (External "database is locked"))
          (Raise (External "database is locked"))
          (fun _ => Ok [])
          (echo "Slot 1 is free.")
          (echo "I recommend Dr. Ricci.")
          true
          (fun _ => "None")
          (fun _ => Ok "You discussed a headache.").

Definition named : handshake :=
  mkHandshake (Some "Mario Rossi") (Ok tt) (Ok tt) "".

(** A connection without the [username] parameter. *)
Definition anonymous : handshake :=
  mkHandshake None (Ok tt) (Ok tt) "".

Definition after_ricci : list entry :=
  [ user_entry "my head hurts"; assistant_entry "I recommend Dr. Ricci." ].

(** A named session whose last assistant turn recommended Dr. Ricci. *)
Definition session_after_ricci : session :=
  set_chat_history after_ricci (open_session "Guest" named).

Definition headache : string := "I have a headache".
Definition booking : string := "book an appointment with Dr. Ricci".

End Sample.

Module SampleAccounts.

(** A stand-in for the key derivation. *)
Definition digest (password salt : string) : string := salt ++ "$" ++ password.

(** [str.lower] on the characters below 256: the letters A to Z, and the
    capital letters from 192 to 222 (215, the multiplication sign, apart). *)
Definition latin1_lower_char (c : ascii) : ascii :=
  let n := N_of_ascii c in
  if ((65 <=? n) && (n <=? 90)
      || (192 <=? n) && (n <=? 222) && negb (n =? 215))%N
  then ascii_of_N (n + 32)
  else c.

Fixpoint latin1_lower (s : string) : string :=
  match s with
  | EmptyString => EmptyString
  | String c s' => String (latin1_lower_char c) (latin1_lower s')
  end.

Definition rossi : user_row :=
  mkUser 1 "rossi" "mario.rossi@email.com" (digest "Password123!" "5f")
         "5f" "patient" "Mario Rossi".

Definition accounts : list user_row := [rossi].

(** The table after Anna Verdi has registered. *)
Definition with_verdi : list user_row :=
  snd (register_user digest latin1_lower "a9" "Verdi" "Anna.Verdi@email.com"
                     "Password123!" "Anna Verdi" "patient" accounts).

(** A user name that begins with a capital A with grave accent. *)
Definition abc_grave : string := String (ascii_of_nat 192) "BC".

End SampleAccounts.

(* ------------------------------------------------------------------------- *)
(** * Properties *)

(** ** Text *)

Section TextFacts.

Lemma append_assoc (a b c : string) : (a ++ b) ++ c = a ++ (b ++ c).
Proof. induction a as [|x a IH]; simpl; [reflexivity | now rewrite IH]. Qed.

Lemma append_nil_r (a : string) : a ++ "" = a.
Proof. induction a as [|x a IH]; simpl; [reflexivity | now rewrite IH]. Qed.

Lemma length_append (a b : string) :
  String.length (a ++ b) = (String.length a + String.length b)%nat.
Proof. induction a as [|x a IH]; simpl; [reflexivity | now rewrite IH]. Qed.

Lemma prefix_spec (p s : string) :
  String.prefix p s = true <-> exists post, s = p ++ post.
Proof.
  revert s; induction p as [|c p IH]; intros s.
  - split; [intros _; now exists s | intros _; now destruct s].
  - destruct s as [|d s]; simpl.
    + split; [discriminate | intros [post H]; discriminate].
    + destruct (ascii_dec c d) as [->|Hcd].
      * rewrite IH. split; intros [post H]; exists post.
        -- now rewrite H.
        -- now inversion H.
      * split; [discriminate | intros [post H]; inversion H; congruence].
Qed.

Lemma contains_spec (needle hay : string) :
  contains needle hay = true <-> Substring needle hay.
Proof.
  unfold Substring. induction hay as [|c hay IH].
  - cbn [contains]. destruct (String.prefix needle "") eqn:E.
    + split; [intros _ | reflexivity].
      apply prefix_spec in E. destruct E as [post E]. now exists "", post.
    + split; [discriminate|]. intros (pre & post & H).
      destruct pre; [|discriminate]. simpl in H.
      assert (String.prefix needle "" = true) by (apply prefix_spec; eauto).
      congruence.
  - cbn [contains]. destruct (String.prefix needle (String c hay)) eqn:E.
    + split; [intros _ | reflexivity].
      apply prefix_spec in E. destruct E as [post E]. now exists "", post.
    + rewrite IH. split.
      * intros (pre & post & H). exists (String c pre), post. now rewrite H.
      * intros (pre & post & H). destruct pre as [|d pre].
        -- simpl in H.
           assert (String.prefix needle (String c hay) = true)
             by (apply prefix_spec; eauto).
           congruence.
        -- inversion H. eauto.
Qed.

Lemma any_in_spec (kws : list string) (s : string) :
  any_in kws s = true <-> exists kw, In kw kws /\ Substring kw s.
Proof.
  unfold any_in. rewrite existsb_exists.
  split; intros (kw & Hin & H); exists kw; split; auto;
    now apply contains_spec.
Qed.

Lemma contains_char_cons (x c : ascii) (s : string) :
  contains (String x "") (String c s) = (c =? x)%char || contains (String x "") s.
Proof.
  cbn [contains String.prefix].
  destruct (ascii_dec x c) as [<-|Hc].
  - rewrite Ascii.eqb_refl. now destruct s.
  - destruct (Ascii.eqb_spec c x); [congruence | reflexivity].
Qed.

Lemma all_in_nil (cls : ascii -> bool) : all_in cls "".
Proof. constructor. Qed.

Lemma all_in_cons (cls : ascii -> bool) (c : ascii) (s : string) :
  all_in cls (String c s) <-> cls c = true /\ all_in cls s.
Proof.
  unfold all_in. simpl. split.
  - intros H. inversion H. now split.
  - intros [H1 H2]. now constructor.
Qed.

Lemma all_in_append (cls : ascii -> bool) (a b : string) :
  all_in cls (a ++ b) <-> all_in cls a /\ all_in cls b.
Proof.
  induction a as [|c a IH]; simpl.
  - split; [intros H; split; [apply all_in_nil | assumption] | tauto].
  - rewrite !all_in_cons, IH. tauto.
Qed.

End TextFacts.

(** ** The classifier *)

Lemma should_use_summary_agent_spec (msg : string) :
  should_use_summary_agent msg = true <-> has_keyword SUMMARY_AGENT_KEYWORDS msg.
Proof. apply any_in_spec. Qed.

Lemma should_use_sql_agent_spec (msg : string) :
  should_use_sql_agent msg = true <-> has_keyword SQL_AGENT_KEYWORDS msg.
Proof. apply any_in_spec. Qed.

(** C3.  The classifier is a total function of the message alone.  It
    answers Summary exactly when the lower-cased message contains a summary
    keyword, SqlAgent exactly when it contains no summary keyword but a sql
    keyword, and MedicalQa exactly when it contains neither; so a message
    with both kinds of keyword is a Summary message. *)
Theorem classify_by_keywords (msg : string) :
  (classify msg = Summary <-> has_keyword SUMMARY_AGENT_KEYWORDS msg)
  /\ (classify msg = SqlAgent <->
        ~ has_keyword SUMMARY_AGENT_KEYWORDS msg
        /\ has_keyword SQL_AGENT_KEYWORDS msg)
  /\ (classify msg = MedicalQa <->
        ~ has_keyword SUMMARY_AGENT_KEYWORDS msg
        /\ ~ has_keyword SQL_AGENT_KEYWORDS msg).
Proof.
  rewrite <- should_use_summary_agent_spec, <- should_use_sql_agent_spec.
  unfold classify.
  destruct (should_use_summary_agent msg), (should_use_sql_agent msg);
    repeat split; try discriminate; try reflexivity; try tauto;
    intros [H1 H2]; try discriminate; try (exfalso; now apply H1);
    try (exfalso; now apply H2).
Qed.

Example classify_recap_booking :
  classify "Give me a RECAP of my booking" = Summary.
Proof. reflexivity. Qed.

Example classify_headache : classify "I have a headache" = MedicalQa.
Proof. reflexivity. Qed.

(** ** Doctor-name extraction *)

Lemma scan_skips_other_roles (all_doctors : list string)
  (skipped rest : list entry) :
  Forall (fun x => ~ is_assistant x) skipped ->
  scan_last_assistant all_doctors (skipped ++ rest)%list
  = scan_last_assistant all_doctors rest.
Proof.
  induction 1 as [|x skipped Hx _ IH]; simpl; [reflexivity|].
  apply String.eqb_neq in Hx. now rewrite Hx.
Qed.

Lemma extract_without_assistant (all_doctors : list string)
  (history : list entry) :
  Forall (fun x => ~ is_assistant x) history ->
  extract_mentioned_doctors_from_history all_doctors history = [].
Proof.
  intros H. unfold extract_mentioned_doctors_from_history.
  rewrite <- (app_nil_r (rev history)).
  rewrite scan_skips_other_roles; [reflexivity|].
  apply Forall_forall. intros x Hx. apply in_rev in Hx.
  revert x Hx. now apply Forall_forall.
Qed.

(** C4.  Whatever the history before it, the extraction reads the most
    recent assistant entry and nothing else: the result is the roster,
    in roster order, filtered by "the lower-cased name occurs in the
    lower-cased content of that entry". *)
Theorem extract_reads_last_assistant (all_doctors : list string)
  (older newer : list entry) (e : entry) :
  is_assistant e ->
  Forall (fun x => ~ is_assistant x) newer ->
  extract_mentioned_doctors_from_history all_doctors (older ++ e :: newer)%list
  = filter (mentions e) all_doctors
  /\ forall d,
       In d (extract_mentioned_doctors_from_history all_doctors
               (older ++ e :: newer)%list)
       <-> In d all_doctors /\ Substring (lower d) (lower (content e)).
Proof.
  intros He Hnewer.
  assert (E : extract_mentioned_doctors_from_history all_doctors
                (older ++ e :: newer)%list = filter (mentions e) all_doctors).
  { unfold extract_mentioned_doctors_from_history.
    rewrite rev_app_distr. simpl. rewrite <- app_assoc.
    rewrite scan_skips_other_roles.
    - simpl. unfold is_assistant in He. rewrite He. reflexivity.
    - apply Forall_forall. intros x Hx. apply in_rev in Hx.
      revert x Hx. now apply Forall_forall. }
  split; [exact E|].
  intros d. rewrite E, filter_In. unfold mentions.
  now rewrite contains_spec.
Qed.

Lemma extract_reads_last_assistant_witness :
  extract_mentioned_doctors_from_history
    ["Dr. Fontana"; "Dr. Moretti"; "Dr. Ricci"]
    ([assistant_entry "Dr. Ricci is a neurologist."]
     ++ assistant_entry "I recommend dr. moretti or Dr. Fontana"
     :: [user_entry "thanks"])%list
  = ["Dr. Fontana"; "Dr. Moretti"].
Proof.
  refine (proj1 (extract_reads_last_assistant
                   ["Dr. Fontana"; "Dr. Moretti"; "Dr. Ricci"]
                   [assistant_entry "Dr. Ricci is a neurologist."]
                   [user_entry "thanks"]
                   (assistant_entry "I recommend dr. moretti or Dr. Fontana")
                   eq_refl _)).
  constructor; [|constructor]. unfold is_assistant; simpl. discriminate.
Defined.

(** ** The loop body: what each operation leaves alone *)

Section Frames.

Context {B : Type} (f : session -> B).

Lemma keeps_ret {A : Type} (a : A) : keeps f (ret a).
Proof. intros s; reflexivity. Qed.

Lemma keeps_raise {A : Type} (e : exn) : keeps f (@raise A e).
Proof. intros s; reflexivity. Qed.

Lemma keeps_lift {A : Type} (o : outcome A) : keeps f (lift o).
Proof. intros s; reflexivity. Qed.

Lemma keeps_get {A : Type} (g : session -> A) : keeps f (get g).
Proof. intros s; reflexivity. Qed.

Lemma keeps_modify (g : session -> session) :
  (forall s, f (g s) = f s) -> keeps f (modify g).
Proof. intros H s; apply H. Qed.

Lemma keeps_bind {A C : Type} (m : M A) (k : A -> M C) :
  keeps f m -> (forall a, keeps f (k a)) -> keeps f (bind m k).
Proof.
  intros Hm Hk s. unfold bind. specialize (Hm s).
  destruct (m s) as [[a|e] s1]; simpl in *.
  - now rewrite Hk.
  - exact Hm.
Qed.

Lemma keeps_try_except {A : Type} (m : M A) (h : exn -> M A) :
  keeps f m -> (forall e, keeps f (h e)) -> keeps f (try_except m h).
Proof.
  intros Hm Hh s. unfold try_except. specialize (Hm s).
  destruct (m s) as [[a|e] s1]; simpl in *.
  - exact Hm.
  - now rewrite Hh.
Qed.

End Frames.

(** Breaks a [keeps] goal down along the structure of the computation. *)
Ltac frame :=
  repeat first
    [ apply keeps_ret | apply keeps_raise | apply keeps_lift | apply keeps_get
    | apply keeps_modify; intros; reflexivity
    | apply keeps_bind; [|intros]
    | match goal with
      | |- keeps _ (match ?x with _ => _ end) => destruct x
      | |- keeps _ (let _ := _ in _) => cbv zeta
      end ].

Lemma prefetch_keeps_session (w : world) : keeps (fun s => s) (prefetch_slots_info w).
Proof. unfold prefetch_slots_info, get_slots_by_doctors. frame. Qed.

Lemma parse_results_keeps_session (messages : list entry) :
  keeps (fun s => s) (parse_results messages).
Proof. unfold parse_results. frame. Qed.

Lemma summary_keeps_session (w : world) (user_name : string) :
  keeps (fun s => s) (generate_consultation_summary w user_name).
Proof. unfold generate_consultation_summary. frame. Qed.

Section LoopFacts.

Variable CHAT_BUFFER : Z.
Variable doc_retriever : bool.

Lemma dispatch_keeps_transcript (w : world) (msg : string) :
  keeps transcript (dispatch CHAT_BUFFER doc_retriever w msg).
Proof.
  unfold dispatch, sql_turn, sql_send, medical_turn, medical_send,
    search_medical_info, prefetch_slots_info, get_slots_by_doctors,
    parse_results, generate_consultation_summary.
  frame.
Qed.

Lemma dispatch_keeps_sent (w : world) (msg : string) :
  keeps sent (dispatch CHAT_BUFFER doc_retriever w msg).
Proof.
  unfold dispatch, sql_turn, sql_send, medical_turn, medical_send,
    search_medical_info, prefetch_slots_info, get_slots_by_doctors,
    parse_results, generate_consultation_summary.
  frame.
Qed.

(** One iteration, by what the router did. *)
Lemma handle_message_cases (w : world) (msg : string) (s : session) :
  handle_message CHAT_BUFFER doc_retriever w msg s =
  match dispatch CHAT_BUFFER doc_retriever w msg (user_logged w msg s) with
  | (Raise e, s1) => (Ok tt, push_sent (bot_error e) s1)
  | (Ok _, s1) =>
      match response s1 with
      | Some reply => (Ok tt, replied w reply s1)
      | None => (Ok tt, push_sent (bot_error (UnboundLocalError "response")) s1)
      end
  end.
Proof.
  cbv beta iota zeta delta
    [handle_message iteration steady try_except try_body bind
     save_chat_message modify lift read_response get ws_send ret raise
     user_logged user_line bot_line].
  destruct (dispatch CHAT_BUFFER doc_retriever w msg _) as [[[]|e] s1];
    [destruct (response s1)|]; reflexivity.
Qed.

(** [chat_loop] is the loop during which every append succeeds. *)
Lemma chat_loop_is_steady (receives : list (world * option string))
  (s : session) :
  chat_loop CHAT_BUFFER doc_retriever receives s
  = session_loop CHAT_BUFFER doc_retriever
      (map (fun '(w, msg) => (steady, w, msg)) receives) s.
Proof.
  revert s. induction receives as [|[w [msg|]] later IH]; intros s;
    try reflexivity.
  cbn [chat_loop session_loop map]. unfold bind, handle_message.
  destruct (iteration CHAT_BUFFER doc_retriever steady w msg s) as [[[]|e] s1];
    [apply IH | reflexivity].
Qed.

(** A computation that leaves the whole session alone only yields a
    result. *)
Lemma bind_reader {A C : Type} (m : M A) (k : A -> M C) (s : session) :
  keeps (fun s => s) m ->
  bind m k s = match fst (m s) with
               | Ok a => k a s
               | Raise e => (Raise e, s)
               end.
Proof.
  intros H. unfold bind. specialize (H s).
  destruct (m s) as [[a|e] s1]; simpl in *; now subst.
Qed.

(** *** Truncation *)

Lemma truncate_to_skipn (buf : list entry) :
  (0 < CHAT_BUFFER)%Z ->
  truncate_to CHAT_BUFFER buf
  = skipn (List.length buf - Z.to_nat CHAT_BUFFER) buf.
Proof.
  intros Hpos. unfold truncate_to, slice_from.
  destruct (Z.of_nat (List.length buf) >? CHAT_BUFFER)%Z eqn:E.
  - apply Z.gtb_lt in E.
    assert (L : (- CHAT_BUFFER <? 0)%Z = true) by (apply Z.ltb_lt; lia).
    rewrite L. f_equal. lia.
  - assert (L : (Z.of_nat (List.length buf) <= CHAT_BUFFER)%Z).
    { destruct (Z.gtb_spec (Z.of_nat (List.length buf)) CHAT_BUFFER);
        [discriminate | assumption]. }
    replace (List.length buf - Z.to_nat CHAT_BUFFER)%nat with 0%nat by lia.
    reflexivity.
Qed.

Lemma truncate_to_length (buf : list entry) :
  (0 < CHAT_BUFFER)%Z ->
  (Z.of_nat (List.length (truncate_to CHAT_BUFFER buf)) <= CHAT_BUFFER)%Z.
Proof.
  intros Hpos. rewrite truncate_to_skipn by assumption.
  rewrite length_skipn. lia.
Qed.

Lemma truncate_to_suffix (buf : list entry) :
  (0 < CHAT_BUFFER)%Z ->
  exists dropped, buf = (dropped ++ truncate_to CHAT_BUFFER buf)%list.
Proof.
  intros Hpos. rewrite truncate_to_skipn by assumption.
  exists (firstn (List.length buf - Z.to_nat CHAT_BUFFER) buf).
  now rewrite firstn_skipn.
Qed.

Lemma truncate_to_at_bound (buf : list entry) (e : entry) :
  (0 < CHAT_BUFFER)%Z ->
  Z.of_nat (List.length buf) = CHAT_BUFFER ->
  truncate_to CHAT_BUFFER (buf ++ [e]) = (tl buf ++ [e])%list.
Proof.
  intros Hpos Hlen. rewrite truncate_to_skipn by assumption.
  rewrite length_app. simpl.
  replace (List.length buf + 1 - Z.to_nat CHAT_BUFFER)%nat with 1%nat by lia.
  destruct buf as [|x buf]; [simpl in Hlen; lia | reflexivity].
Qed.

(** *** The agent invocations of one iteration *)

Lemma sql_send_invoked (w : world) (message : string) (s : session) :
  let s' := snd (sql_send CHAT_BUFFER w message s) in
  invoked s' = invoked s
  \/ invoked s'
     = (invoked s
        ++ [SqlCall (truncate_to CHAT_BUFFER
                       (sql_chat_history s ++ [user_entry message]))])%list.
Proof.
  cbv beta iota zeta delta
    [sql_send bind modify get lift ret raise parse_results].
  simpl. destruct (sql_agent s); [|left; reflexivity].
  simpl. right.
  destruct (sql_agent_invoke w _) as [messages|e]; [|reflexivity].
  destruct (rev messages); reflexivity.
Qed.

Lemma medical_send_invoked (w : world) (message : string) (s : session) :
  let s' := snd (medical_send CHAT_BUFFER w message s) in
  invoked s' = invoked s
  \/ invoked s'
     = (invoked s
        ++ [MedicalCall (truncate_to CHAT_BUFFER
                           (chat_history s ++ [user_entry message]))])%list.
Proof.
  cbv beta iota zeta delta
    [medical_send bind modify get lift ret raise parse_results].
  simpl. destruct (agent s); [|left; reflexivity].
  simpl. right.
  destruct (agent_invoke w _) as [messages|e]; [|reflexivity].
  destruct (rev messages); reflexivity.
Qed.

Lemma medical_context_keeps_session (w : world) (msg : string) :
  keeps (fun s => s)
    (if doc_retriever && negb (strip msg =? "")
     then bind (search_medical_info w msg) (fun ctx => ret (Some ctx))
     else ret None).
Proof. unfold search_medical_info. frame. Qed.

(** The router invokes at most one agent, and an agent that is handed a
    buffer is handed a truncated one. *)
Lemma dispatch_invoked (w : world) (msg : string) (s : session) :
  let s' := snd (dispatch CHAT_BUFFER doc_retriever w msg s) in
  invoked s' = invoked s
  \/ invoked s' = (invoked s ++ [SummaryCall (current_ws_user_name s)])%list
  \/ (exists message,
        invoked s'
        = (invoked s
           ++ [SqlCall (truncate_to CHAT_BUFFER
                          (sql_chat_history s ++ [user_entry message]))])%list)
  \/ (exists message,
        invoked s'
        = (invoked s
           ++ [MedicalCall (truncate_to CHAT_BUFFER
                              (chat_history s ++ [user_entry message]))])%list).
Proof.
  cbv zeta. unfold dispatch. destruct (classify msg).
  - right; left.
    cbv beta iota zeta delta
      [bind modify get lift ret raise generate_consultation_summary].
    reflexivity.
  - destruct (asks_availability msg); [|left; reflexivity].
    unfold sql_turn. rewrite bind_reader by apply prefetch_keeps_session.
    destruct (fst (prefetch_slots_info w s)) as [info|e]; [|left; reflexivity].
    destruct (sql_send_invoked w (message_for_agent info msg) s) as [H|H];
      [left; exact H | right; right; left; eexists; exact H].
  - unfold medical_turn. rewrite bind_reader by apply keeps_lift.
    change (fst (lift (db_doctors_list w) s)) with (db_doctors_list w).
    destruct (db_doctors_list w) as [db|e]; [|left; reflexivity]. cbv zeta.
    rewrite bind_reader by apply medical_context_keeps_session.
    match goal with
    | |- context [match fst ?x with _ => _ end] =>
        destruct (fst x) as [ctx|e]; [|left; reflexivity]
    end.
    destruct (medical_send_invoked w
                (enhanced_msg msg (get_all_doctors_list db) ctx) s) as [H|H];
      [left; exact H | right; right; right; eexists; exact H].
Qed.

(** What an iteration adds to the router's work touches only the transcript
    and the socket. *)
Ltac after_dispatch :=
  rewrite handle_message_cases;
  match goal with
  | |- context [dispatch ?cb ?dr ?w ?msg ?s] =>
      destruct (dispatch cb dr w msg s) as [[[]|?] s1]; [destruct (response s1)|];
      reflexivity
  end.

Lemma handle_message_invoked (w : world) (msg : string) (s : session) :
  invoked (snd (handle_message CHAT_BUFFER doc_retriever w msg s))
  = invoked (snd (dispatch CHAT_BUFFER doc_retriever w msg (user_logged w msg s))).
Proof. after_dispatch. Qed.

Lemma handle_message_chat_history (w : world) (msg : string) (s : session) :
  chat_history (snd (handle_message CHAT_BUFFER doc_retriever w msg s))
  = chat_history
      (snd (dispatch CHAT_BUFFER doc_retriever w msg (user_logged w msg s))).
Proof. after_dispatch. Qed.

Lemma handle_message_sql_chat_history (w : world) (msg : string) (s : session) :
  sql_chat_history (snd (handle_message CHAT_BUFFER doc_retriever w msg s))
  = sql_chat_history
      (snd (dispatch CHAT_BUFFER doc_retriever w msg (user_logged w msg s))).
Proof. after_dispatch. Qed.

Lemma asks_availability_spec (msg : string) :
  asks_availability msg = true <-> has_keyword AVAILABILITY_KEYWORDS msg.
Proof. apply any_in_spec. Qed.

Lemma classify_sql (msg : string) :
  has_keyword SQL_AGENT_KEYWORDS msg ->
  ~ has_keyword SUMMARY_AGENT_KEYWORDS msg ->
  classify msg = SqlAgent.
Proof.
  rewrite <- should_use_sql_agent_spec, <- should_use_summary_agent_spec.
  unfold classify. intros -> H.
  destruct (should_use_summary_agent msg); [now elim H | reflexivity].
Qed.

(** ** The session loop *)

Lemma handle_message_returns (w : world) (msg : string) (s : session) :
  exists s',
    handle_message CHAT_BUFFER doc_retriever w msg s = (Ok tt, s')
    /\ List.length (sent s') = S (List.length (sent s)).
Proof.
  pose proof (dispatch_keeps_sent w msg (user_logged w msg s)) as Hsent.
  rewrite handle_message_cases.
  destruct (dispatch CHAT_BUFFER doc_retriever w msg (user_logged w msg s))
    as [[[]|e] s1]; simpl in Hsent; [destruct (response s1)|];
    eexists; (split; [reflexivity|]); simpl;
    rewrite length_app, Hsent; simpl; lia.
Qed.

(** The loop handles every message in front of the first [None], sends one
    string for each, and ends without an exception. *)
Lemma chat_loop_answers_each_message
  (receives : list (world * option string)) (s : session) :
  exists s',
    chat_loop CHAT_BUFFER doc_retriever receives s = (Ok tt, s')
    /\ List.length (sent s')
       = (List.length (sent s) + List.length (received receives))%nat.
Proof.
  revert s. induction receives as [|[w [msg|]] later IH]; intros s.
  - exists s. split; [reflexivity | simpl; lia].
  - destruct (handle_message_returns w msg s) as (s1 & H1 & L1).
    destruct (IH s1) as (s' & H' & L').
    exists s'. cbn [chat_loop received]. unfold bind at 1. rewrite H1.
    split; [exact H' | simpl; lia].
  - exists s. split; [reflexivity | simpl; lia].
Qed.

Lemma first_message_has_no_response (USER_NAME : string) (h : handshake) :
  response (open_session USER_NAME h) = None.
Proof. reflexivity. Qed.

(** An iteration whose user line is written. *)
Lemma iteration_cases (o : io) (w : world) (msg : string) (s : session) :
  user_line o = Ok tt ->
  iteration CHAT_BUFFER doc_retriever o w msg s =
  match dispatch CHAT_BUFFER doc_retriever w msg (user_logged w msg s) with
  | (Raise e, s1) => (Ok tt, push_sent (bot_error e) s1)
  | (Ok _, s1) =>
      match response s1 with
      | Some reply =>
          match bot_line o with
          | Ok _ => (Ok tt, replied w reply s1)
          | Raise e => (Ok tt, push_sent (bot_error e) s1)
          end
      | None => (Ok tt, push_sent (bot_error (UnboundLocalError "response")) s1)
      end
  end.
Proof.
  destruct o as [u b]. cbn [user_line bot_line]. intros ->.
  cbv beta iota zeta delta
    [iteration try_except try_body bind save_chat_message modify lift
     read_response get ws_send ret raise user_logged user_line bot_line].
  destruct (dispatch CHAT_BUFFER doc_retriever w msg _) as [[[]|e] s1];
    [destruct (response s1); [destruct b as [[]|]|]|]; reflexivity.
Qed.

(** An iteration whose user line cannot be written raises what the append
    raised, before anything else is done. *)
Lemma iteration_unwritable (o : io) (w : world) (msg : string) (s : session)
  (e : exn) :
  user_line o = Raise e ->
  iteration CHAT_BUFFER doc_retriever o w msg s = (Raise e, s).
Proof.
  intros H. unfold iteration, save_chat_message, bind, lift. now rewrite H.
Qed.

(** C7 (as amended).  When the user's line can be appended to the
    transcript, an iteration does not raise: whatever the router, the store,
    the retriever, an agent or the append of the bot's line does, the client
    is sent exactly one string, which is either the response (then also
    written to the transcript as the bot's line) or a text that begins with
    "Bot Error: "; and the loop goes on to the next receive. *)
Theorem every_message_is_answered (o : io) (w : world) (msg : string)
  (s : session) (later : list (io * world * option string)) :
  user_line o = Ok tt ->
  exists s' reply,
    iteration CHAT_BUFFER doc_retriever o w msg s = (Ok tt, s')
    /\ sent s' = (sent s ++ [reply])%list
    /\ ((response s' = Some reply
         /\ transcript s'
            = transcript s ++ transcript_line (now_user w) "user" msg
              ++ transcript_line (now_bot w) "bot" reply)
        \/ ((exists e, reply = "Bot Error: " ++ str_exn e)
            /\ transcript s'
               = transcript s ++ transcript_line (now_user w) "user" msg))
    /\ session_loop CHAT_BUFFER doc_retriever ((o, w, Some msg) :: later) s
       = session_loop CHAT_BUFFER doc_retriever later s'.
Proof.
  intros Hu.
  pose proof (dispatch_keeps_sent w msg (user_logged w msg s)) as Hsent.
  pose proof (dispatch_keeps_transcript w msg (user_logged w msg s)) as Hfile.
  cbn [session_loop]. unfold bind at 1.
  rewrite (iteration_cases o w msg s Hu).
  destruct (dispatch CHAT_BUFFER doc_retriever w msg (user_logged w msg s))
    as [[[]|e] s1]; cbn [snd] in Hsent, Hfile; simpl in Hsent, Hfile.
  - destruct (response s1) as [reply|] eqn:Hresp.
    + destruct (bot_line o) as [[]|e].
      * exists (replied w reply s1), reply. repeat split.
        -- simpl. now rewrite Hsent.
        -- left. split; [exact Hresp|]. simpl. rewrite Hfile.
           now rewrite append_assoc.
      * eexists _, _. repeat split.
        -- simpl. now rewrite Hsent.
        -- right. split; [eexists; reflexivity | exact Hfile].
    + eexists _, _. repeat split.
      * simpl. now rewrite Hsent.
      * right. split; [eexists; reflexivity | exact Hfile].
  - eexists _, _. repeat split.
    + simpl. now rewrite Hsent.
    + right. split; [eexists; reflexivity | exact Hfile].
Qed.

(** C10.  When the router raises, the client is sent the "Bot Error: ..."
    text, and the transcript holds the user's line of that turn and no line
    of the bot. *)
Theorem failed_dispatch_is_not_logged (w : world) (msg : string)
  (s s1 : session) (e : exn) :
  dispatch CHAT_BUFFER doc_retriever w msg (user_logged w msg s) = (Raise e, s1) ->
  exists s',
    handle_message CHAT_BUFFER doc_retriever w msg s = (Ok tt, s')
    /\ sent s' = (sent s ++ [("Bot Error: " ++ str_exn e)%string])%list
    /\ transcript s' = transcript s ++ transcript_line (now_user w) "user" msg.
Proof.
  intros H.
  pose proof (dispatch_keeps_sent w msg (user_logged w msg s)) as Hsent.
  pose proof (dispatch_keeps_transcript w msg (user_logged w msg s)) as Hfile.
  rewrite handle_message_cases. rewrite H in *. simpl in Hsent, Hfile.
  eexists. repeat split.
  - simpl. now rewrite Hsent.
  - exact Hfile.
Qed.

(** C8.  A Summary message calls the summary service once, with the user
    name; the reply is a function of the world, the user name and the
    transcript file, and both buffers are as they were. *)
Theorem summary_bypasses_buffers (w : world) (msg : string) (s : session) :
  classify msg = Summary ->
  exists s' reply,
    handle_message CHAT_BUFFER doc_retriever w msg s = (Ok tt, s')
    /\ chat_history s' = chat_history s
    /\ sql_chat_history s' = sql_chat_history s
    /\ invoked s' = (invoked s ++ [SummaryCall (current_ws_user_name s)])%list
    /\ reply
       = consultation_summary w (current_ws_user_name s)
           (if history_readable w
            then transcript s ++ transcript_line (now_user w) "user" msg
            else "")
    /\ response s' = Some reply
    /\ sent s' = (sent s ++ [reply])%list.
Proof.
  intros H. rewrite handle_message_cases. unfold dispatch. rewrite H.
  cbv beta iota zeta delta
    [bind modify get lift ret raise generate_consultation_summary].
  simpl. eexists _, _. repeat split.
Qed.

(** C9 (as amended).  A message with a sql keyword, no summary keyword and
    no availability keyword reaches no agent and changes no buffer nor the
    local [response].  While [response] is unbound the client is sent a
    "Bot Error: ..." text and the transcript gains the user's line only;
    once it is bound, its value is sent and logged again as the bot's
    line. *)
Theorem sql_request_without_availability (w : world) (msg : string)
  (s : session) :
  has_keyword SQL_AGENT_KEYWORDS msg ->
  ~ has_keyword SUMMARY_AGENT_KEYWORDS msg ->
  ~ has_keyword AVAILABILITY_KEYWORDS msg ->
  exists s',
    handle_message CHAT_BUFFER doc_retriever w msg s = (Ok tt, s')
    /\ chat_history s' = chat_history s
    /\ sql_chat_history s' = sql_chat_history s
    /\ invoked s' = invoked s
    /\ response s' = response s
    /\ match response s with
       | None =>
           sent s'
           = (sent s
              ++ [("Bot Error: " ++ str_exn (UnboundLocalError "response"))%string])%list
           /\ transcript s'
              = transcript s ++ transcript_line (now_user w) "user" msg
       | Some previous =>
           sent s' = (sent s ++ [previous])%list
           /\ transcript s'
              = transcript s ++ transcript_line (now_user w) "user" msg
                ++ transcript_line (now_bot w) "bot" previous
       end.
Proof.
  intros Hsql Hsum Havail.
  rewrite handle_message_cases. unfold dispatch.
  rewrite (classify_sql msg Hsql Hsum).
  destruct (asks_availability msg) eqn:E;
    [apply asks_availability_spec in E; contradiction|].
  unfold ret. change (response (user_logged w msg s)) with (response s).
  destruct (response s) as [previous|] eqn:Hr; eexists; repeat split; simpl.
  - exact Hr.
  - now rewrite append_assoc.
  - exact Hr.
Qed.

(** C1, at the failing input.  The message "book an appointment with
    Dr. Ricci" is routed to the sql branch and no agent is invoked for it. *)
Theorem booking_request_invokes_no_agent (w : world) (s : session) :
  classify "book an appointment with Dr. Ricci" = SqlAgent
  /\ invoked
       (snd (handle_message CHAT_BUFFER doc_retriever w
               "book an appointment with Dr. Ricci" s))
     = invoked s.
Proof.
  split; [reflexivity|]. rewrite handle_message_invoked. reflexivity.
Qed.

(** C2 (as amended).  For a positive bound: the truncation that follows the
    append of a user entry leaves at most [CHAT_BUFFER] entries, which are
    the newest ones in their order; at the bound it drops the oldest entry
    and no other; and a buffer handed to an agent has at most [CHAT_BUFFER]
    entries. *)
Theorem buffers_truncated_before_invocation (w : world) (msg : string)
  (s : session) :
  (0 < CHAT_BUFFER)%Z ->
  (forall buf e,
      (Z.of_nat (List.length (truncate_to CHAT_BUFFER (buf ++ [e])))
       <= CHAT_BUFFER)%Z
      /\ exists dropped,
           (buf ++ [e] = dropped ++ truncate_to CHAT_BUFFER (buf ++ [e]))%list)
  /\ (forall buf e,
         Z.of_nat (List.length buf) = CHAT_BUFFER ->
         truncate_to CHAT_BUFFER (buf ++ [e]) = (tl buf ++ [e])%list)
  /\ (forall c,
         In c (invoked (snd (handle_message CHAT_BUFFER doc_retriever w msg s))) ->
         In c (invoked s)
         \/ (Z.of_nat (List.length (call_buffer c)) <= CHAT_BUFFER)%Z).
Proof.
  intros Hpos. split; [|split].
  - intros buf e. split.
    + now apply truncate_to_length.
    + now apply truncate_to_suffix.
  - intros buf e. now apply truncate_to_at_bound.
  - intros c. rewrite handle_message_invoked.
    destruct (dispatch_invoked w msg (user_logged w msg s))
      as [H|[H|[[m H]|[m H]]]]; rewrite H; clear H;
      change (invoked (user_logged w msg s)) with (invoked s);
      try (now left); rewrite in_app_iff; simpl;
      (intros [Hc|[<-|[]]]; [now left | right]); simpl.
    + lia.
    + now apply truncate_to_length.
    + now apply truncate_to_length.
Qed.

End LoopFacts.

(** *** The loop on sample sessions *)

Lemma every_message_is_answered_witness :
  exists s' reply,
    iteration 4 true
      (mkIo (Ok tt) (Raise (External "[Errno 28] No space left on device")))
      (Sample.calm Sample.roster) Sample.headache Sample.session_after_ricci
    = (Ok tt, s')
    /\ sent s' = (sent Sample.session_after_ricci ++ [reply])%list
    /\ ((response s' = Some reply
         /\ transcript s'
            = transcript Sample.session_after_ricci
              ++ transcript_line Sample.ts1 "user" Sample.headache
              ++ transcript_line Sample.ts2 "bot" reply)
        \/ ((exists e, reply = "Bot Error: " ++ str_exn e)
            /\ transcript s'
               = transcript Sample.session_after_ricci
                 ++ transcript_line Sample.ts1 "user" Sample.headache))
    /\ session_loop 4 true
         [ (mkIo (Ok tt)
                 (Raise (External "[Errno 28] No space left on device")),
            Sample.calm Sample.roster, Some Sample.headache) ]
         Sample.session_after_ricci
       = session_loop 4 true [] s'.
Proof.
  apply (every_message_is_answered 4 true
           (mkIo (Ok tt)
                 (Raise (External "[Errno 28] No space left on device")))
           (Sample.calm Sample.roster) Sample.headache
           Sample.session_after_ricci []); reflexivity.
Defined.

(** C7, as stated, fails: the append of the user's line is outside the inner
    [try].  When it raises, the loop ends with that exception: nothing is
    sent for the message, and the message received next is never handled. *)
Lemma unwritable_user_line_ends_the_loop :
  let full :=
    mkIo (Raise (External "[Errno 28] No space left on device")) (Ok tt) in
  session_loop 4 true
    [ (full, Sample.calm Sample.roster, Some Sample.headache);
      (steady, Sample.calm Sample.roster, Some Sample.headache) ]
    Sample.session_after_ricci
  = (Raise (External "[Errno 28] No space left on device"),
     Sample.session_after_ricci).
Proof. reflexivity. Qed.

Lemma failed_dispatch_is_not_logged_witness :
  exists s',
    handle_message 20 false Sample.locked Sample.headache
      (open_session "Guest" Sample.named) = (Ok tt, s')
    /\ sent s' = [GREETING; "Bot Error: database is locked"]
    /\ transcript s'
       = transcript_line Sample.ts1 "user" Sample.headache.
Proof.
  exact (failed_dispatch_is_not_logged 20 false Sample.locked Sample.headache
           (open_session "Guest" Sample.named) _ _ eq_refl).
Defined.

Lemma summary_bypasses_buffers_witness :
  exists s' reply,
    handle_message 20 false (Sample.calm Sample.roster) "give me a summary"
      Sample.session_after_ricci = (Ok tt, s')
    /\ chat_history s' = Sample.after_ricci
    /\ sql_chat_history s' = []
    /\ invoked s' = [SummaryCall "Mario Rossi"]
    /\ reply = "You discussed a headache."
    /\ response s' = Some reply
    /\ sent s' = [GREETING; reply].
Proof.
  exact (summary_bypasses_buffers 20 false (Sample.calm Sample.roster)
           "give me a summary" Sample.session_after_ricci eq_refl).
Defined.

Lemma booking_has_sql_keyword :
  has_keyword SQL_AGENT_KEYWORDS Sample.booking.
Proof.
  exists "book". split; [simpl; tauto|].
  exists "", " an appointment with dr. ricci". reflexivity.
Defined.

Lemma booking_has_no_summary_keyword :
  ~ has_keyword SUMMARY_AGENT_KEYWORDS Sample.booking.
Proof.
  intros H. apply should_use_summary_agent_spec in H. discriminate H.
Defined.

Lemma booking_has_no_availability_keyword :
  ~ has_keyword AVAILABILITY_KEYWORDS Sample.booking.
Proof.
  intros H. apply asks_availability_spec in H. discriminate H.
Defined.

Lemma sql_request_without_availability_witness :
  exists s',
    handle_message 20 false (Sample.calm Sample.roster) Sample.booking
      (open_session "Guest" Sample.named) = (Ok tt, s')
    /\ sent s'
       = [GREETING;
          "Bot Error: cannot access local variable 'response' where it is not associated with a value"].
Proof.
  destruct (sql_request_without_availability 20 false
              (Sample.calm Sample.roster) Sample.booking
              (open_session "Guest" Sample.named)
              booking_has_sql_keyword booking_has_no_summary_keyword
              booking_has_no_availability_keyword)
    as (s' & H & _ & _ & _ & _ & Hsent & _).
  exists s'. split; [exact H | exact Hsent].
Defined.

(** C9, as stated, fails: "book an appointment with Dr. Ricci" is the second
    message of this session, the first one having failed on the store; the
    client is sent a "Bot Error: ..." text that was not sent before, and the
    transcript gains the user's line only. *)
Lemma second_message_without_previous_response :
  let s1 := snd (handle_message 20 false Sample.locked Sample.headache
                   (open_session "Guest" Sample.named)) in
  let s2 := snd (handle_message 20 false (Sample.calm Sample.roster)
                   Sample.booking s1) in
  sent s1 = [GREETING; "Bot Error: database is locked"]
  /\ sent s2
     = (sent s1
        ++ ["Bot Error: cannot access local variable 'response' where it is not associated with a value"])%list
  /\ transcript s2 = transcript s1 ++ transcript_line Sample.ts1 "user" Sample.booking
  /\ ~ (exists previous, In previous (sent s1)
                         /\ sent s2 = (sent s1 ++ [previous])%list).
Proof.
  cbv zeta. repeat split.
  intros (previous & Hin & H). vm_compute in H. vm_compute in Hin.
  injection H as <-.
  destruct Hin as [Hin|[Hin|[]]]; discriminate Hin.
Qed.

Lemma buffers_truncated_before_invocation_witness :
  (0 < 2)%Z
  /\ truncate_to 2 ([user_entry "a"; assistant_entry "b"] ++ [user_entry "c"])
     = [assistant_entry "b"; user_entry "c"].
Proof.
  split; [reflexivity|].
  apply (proj1 (proj2 (buffers_truncated_before_invocation 2 false
                         (Sample.calm Sample.roster) Sample.headache
                         (open_session "Guest" Sample.named) eq_refl))).
  reflexivity.
Defined.

(** C2, as stated, fails: with [CHAT_BUFFER = 4], after two medical turns
    whose agent answers by one message, the medical buffer holds six
    entries. *)
Lemma buffer_exceeds_bound_between_turns :
  let s := snd (chat_socket 4 false "Guest" Sample.named
                  [ (Sample.calm Sample.roster, Some Sample.headache);
                    (Sample.calm Sample.roster, Some "it is getting worse") ]) in
  List.length (chat_history s) = 6%nat
  /\ ~ (Z.of_nat (List.length (chat_history s)) <= 4)%Z.
Proof.
  cbv zeta.
  assert (E : List.length
                (chat_history
                   (snd (chat_socket 4 false "Guest" Sample.named
                           [ (Sample.calm Sample.roster, Some Sample.headache);
                             (Sample.calm Sample.roster,
                               Some "it is getting worse") ]))) = 6%nat)
    by (vm_compute; reflexivity).
  rewrite E. split; [reflexivity | lia].
Qed.

(** ** The prefetch fallback *)

Lemma insert_by_permutation {A : Type} (le : A -> A -> bool) (x : A)
  (l : list A) : Permutation (insert_by le x l) (x :: l).
Proof.
  induction l as [|y l IH]; simpl; [reflexivity|].
  destruct (le x y); [reflexivity|].
  rewrite IH. apply perm_swap.
Qed.

Lemma order_by_permutation {A : Type} (le : A -> A -> bool) (l : list A) :
  Permutation (order_by le l) l.
Proof.
  induction l as [|x l IH]; simpl; [reflexivity|].
  rewrite insert_by_permutation. now constructor.
Qed.

Lemma slot_lines_cons (r : slot) (rows : list slot) :
  slot_lines (r :: rows) = slot_line r ++ slot_lines rows.
Proof.
  unfold slot_lines. simpl. destruct (map slot_line rows); simpl.
  - now rewrite append_nil_r.
  - reflexivity.
Qed.

Lemma Substring_inside (needle hay pre post : string) :
  Substring needle hay -> Substring needle (pre ++ hay ++ post).
Proof.
  intros (a & b & ->). exists (pre ++ a), (b ++ post).
  now rewrite !append_assoc.
Qed.

Lemma slot_line_in_slot_lines (r : slot) (rows : list slot) :
  In r rows -> Substring (slot_line r) (slot_lines rows).
Proof.
  induction rows as [|x rows IH]; [intros []|].
  rewrite slot_lines_cons. intros [->|Hin].
  - now exists "", (slot_lines rows).
  - destruct (IH Hin) as (a & b & E). exists (slot_line x ++ a), b.
    now rewrite E, append_assoc.
Qed.

(** C5 (as amended).  When the doctors named in the last assistant turn have
    no open slot while the store has one, the context block is the sentence
    that names those doctors followed by one line
    "- Slot ID {id}: {doctor} ({specialization}) - {time}" for each open slot
    of the store, and that block heads the message handed to the sql
    branch. *)
Theorem fallback_lists_every_open_slot (w : world) (s : session)
  (db_names db_mentioned db_all : store) :
  db_doctor_names w = Ok db_names ->
  let mentioned :=
    extract_mentioned_doctors_from_history (get_all_doctor_names db_names)
      (chat_history s) in
  mentioned <> [] ->
  db_slots_by_doctors w = Ok db_mentioned ->
  query_slots_by_doctors db_mentioned mentioned = [] ->
  db_all_slots w = Ok db_all ->
  open_slots db_all <> [] ->
  exists rows block,
    Permutation rows (open_slots db_all)
    /\ block = "No slots available for " ++ join ", " mentioned
               ++ ". Here are ALL available slots:" ++ nl ++ slot_lines rows
    /\ prefetch_slots_info w s = (Ok block, s)
    /\ (forall r, In r (open_slots db_all) ->
          Substring ("- Slot ID " ++ str_of_Z (slot_id r) ++ ": "
                     ++ slot_doctor r ++ " (" ++ slot_spec r ++ ") - "
                     ++ slot_time r ++ nl) block)
    /\ (forall CHAT_BUFFER doc_retriever msg,
          classify msg = SqlAgent -> asks_availability msg = true ->
          dispatch CHAT_BUFFER doc_retriever w msg s
          = sql_send CHAT_BUFFER w (message_for_agent block msg) s).
Proof.
  intros Hnames mentioned Hsome Hdb Hnone Hall Hopen.
  set (rows := order_by by_spec_time (open_slots db_all)).
  assert (Hperm : Permutation rows (open_slots db_all))
    by apply order_by_permutation.
  assert (Hprefetch :
            prefetch_slots_info w s
            = (Ok ("No slots available for " ++ join ", " mentioned
                   ++ ". Here are ALL available slots:" ++ nl
                   ++ slot_lines rows), s)).
  { unfold prefetch_slots_info, bind, lift, get. rewrite Hnames.
    fold mentioned. destruct mentioned as [|d ds] eqn:E; [contradiction|].
    unfold get_slots_by_doctors, bind, lift, ret. rewrite Hdb, Hnone, Hall.
    cbn [get_slots_by_specialization]. fold rows.
    destruct rows as [|r rows'] eqn:Er; [|reflexivity].
    apply Permutation_nil in Hperm. now elim Hopen. }
  exists rows, ("No slots available for " ++ join ", " mentioned
                ++ ". Here are ALL available slots:" ++ nl ++ slot_lines rows).
  split; [exact Hperm|]. split; [reflexivity|]. split; [exact Hprefetch|].
  split.
  - intros r Hr.
    replace ("No slots available for " ++ join ", " mentioned
             ++ ". Here are ALL available slots:" ++ nl ++ slot_lines rows)
      with (("No slots available for " ++ join ", " mentioned
             ++ ". Here are ALL available slots:" ++ nl)
            ++ slot_lines rows ++ "")
      by (now rewrite append_nil_r, !append_assoc).
    apply Substring_inside. apply slot_line_in_slot_lines.
    apply Permutation_in with (l := open_slots db_all);
      [now apply Permutation_sym | exact Hr].
  - intros cb dr msg Hsql Havail. unfold dispatch. rewrite Hsql, Havail.
    unfold sql_turn. unfold bind at 1. now rewrite Hprefetch.
Qed.

Lemma fallback_lists_every_open_slot_witness :
  exists rows block,
    Permutation rows (open_slots Sample.roster)
    /\ block
       = "No slots available for Dr. Ricci. Here are ALL available slots:"
         ++ nl ++ slot_lines rows
    /\ prefetch_slots_info (Sample.calm Sample.roster)
         Sample.session_after_ricci
       = (Ok block, Sample.session_after_ricci).
Proof.
  destruct (fallback_lists_every_open_slot (Sample.calm Sample.roster)
              Sample.session_after_ricci Sample.roster Sample.roster
              Sample.roster eq_refl)
    as (rows & block & Hperm & Hblock & Hprefetch & _).
  - discriminate.
  - reflexivity.
  - reflexivity.
  - reflexivity.
  - discriminate.
  - exists rows, block. split; [exact Hperm|]. split; [exact Hblock|].
    exact Hprefetch.
Defined.

(** C5, as stated, fails: Dr. Ricci was recommended and has no open slot, and
    the store has no open slot at all; the block is the plain sentence, which
    does not name Dr. Ricci. *)
Lemma fallback_with_nothing_open :
  let mentioned :=
    extract_mentioned_doctors_from_history
      (get_all_doctor_names Sample.booked_out)
      (chat_history Sample.session_after_ricci) in
  mentioned = ["Dr. Ricci"]
  /\ query_slots_by_doctors Sample.booked_out mentioned = []
  /\ prefetch_slots_info (Sample.calm Sample.booked_out)
       Sample.session_after_ricci
     = (Ok "No appointment slots available at the moment.",
        Sample.session_after_ricci)
  /\ contains "Dr. Ricci" "No appointment slots available at the moment."
     = false.
Proof. cbv zeta. repeat split. Qed.

(** ** Reading the transcript back *)

Section StripFacts.

Lemma blank_append (a b : string) : blank (a ++ b) = blank a && blank b.
Proof.
  induction a as [|c a IH]; simpl; [reflexivity|].
  now rewrite IH, andb_assoc.
Qed.

Lemma lstrip_blank (a : string) : blank a = true -> lstrip a = "".
Proof.
  induction a as [|c a IH]; simpl; [reflexivity|].
  intros H. apply andb_prop in H. destruct H as [Hc Ha].
  rewrite Hc. now apply IH.
Qed.

Lemma rstrip_blank (a : string) : blank a = true -> rstrip a = "".
Proof. destruct a as [|c a]; [reflexivity|]. cbn [rstrip]. now intros ->. Qed.

Lemma lstrip_append (a b : string) :
  lstrip (a ++ b) = if blank a then lstrip b else lstrip a ++ b.
Proof.
  induction a as [|c a IH]; simpl; [reflexivity|].
  destruct (is_space c); simpl; [exact IH | reflexivity].
Qed.

Lemma rstrip_append_blank (a b : string) :
  blank b = true -> rstrip (a ++ b) = rstrip a.
Proof.
  intros Hb. induction a as [|c a IH].
  - simpl. now apply rstrip_blank.
  - change (String c a ++ b) with (String c (a ++ b)). cbn [rstrip blank].
    rewrite blank_append, Hb, andb_true_r, IH. reflexivity.
Qed.

Lemma strip_append_blank (a b : string) :
  blank b = true -> strip (a ++ b) = strip a.
Proof.
  intros Hb. unfold strip. rewrite lstrip_append.
  destruct (blank a) eqn:Ha.
  - now rewrite (lstrip_blank a Ha), (lstrip_blank b Hb).
  - now apply rstrip_append_blank.
Qed.

End StripFacts.

Section RegexFacts.

Lemma eat_lit_spec (s input rest : string) :
  eat_lit s input = Some rest <-> input = s ++ rest.
Proof.
  revert input. induction s as [|c s IH]; intros input; simpl.
  - split; [now intros [= ->] | now intros ->].
  - destruct input as [|d input]; [split; discriminate|].
    destruct (Ascii.eqb_spec c d) as [->|Hcd].
    + rewrite IH. split; [now intros -> | now intros [= ->]].
    + split; [discriminate | intros [= -> _]; congruence].
Qed.

Lemma eat_lit_append (s rest : string) : eat_lit s (s ++ rest) = Some rest.
Proof. now apply eat_lit_spec. Qed.

Lemma eat_lit_more (s a a' b : string) :
  eat_lit s a = Some a' -> eat_lit s (a ++ b) = Some (a' ++ b).
Proof.
  rewrite !eat_lit_spec. intros ->. now rewrite append_assoc.
Qed.

Lemma eat_digits_more (n : nat) (a a' b : string) :
  eat_digits n a = Some a' -> eat_digits n (a ++ b) = Some (a' ++ b).
Proof.
  revert a. induction n as [|n IH]; intros a; simpl.
  - now intros [= ->].
  - destruct a as [|c a]; [discriminate|]. simpl.
    destruct (is_digit c); [apply IH | discriminate].
Qed.

Lemma eat_more (r : regex) (a a' b : string) :
  plain r = true -> eat r a = Some a' -> eat r (a ++ b) = Some (a' ++ b).
Proof.
  revert a a'. induction r; intros a a' Hp; simpl in *; try discriminate.
  - apply eat_lit_more.
  - apply eat_digits_more.
  - apply andb_prop in Hp. destruct Hp as [Hp1 Hp2].
    destruct (eat r1 a) as [mid|] eqn:E; [|discriminate].
    intros H. rewrite (IHr1 _ _ Hp1 E). now apply IHr2.
Qed.

Lemma match_plain (r : regex) (X : Type) (input : string)
  (caps : list string) (k : string -> list string -> option X) :
  plain r = true ->
  match_re r X input caps k
  = match eat r input with
    | Some rest => k rest caps
    | None => None
    end.
Proof.
  revert input caps k. induction r; intros input caps k Hp; simpl in *;
    try discriminate; try reflexivity.
  apply andb_prop in Hp. destruct Hp as [Hp1 Hp2].
  rewrite IHr1 by assumption.
  destruct (eat r1 input) as [mid|]; [now apply IHr2 | reflexivity].
Qed.

Lemma fullmatch_plain (r : regex) (s : string) :
  plain r = true -> fullmatch r s = true -> eat r s = Some "".
Proof.
  intros Hp. unfold fullmatch. rewrite match_plain by assumption.
  destruct (eat r s) as [rest|]; [|discriminate].
  destruct (String.eqb_spec rest ""); [now subst | discriminate].
Qed.

Lemma substring_head (a b : string) :
  substring 0 (String.length a) (a ++ b) = a.
Proof.
  induction a as [|c a IH]; simpl.
  - now destruct b.
  - now rewrite IH.
Qed.

Lemma consumed_append (a b : string) : consumed (a ++ b) b = a.
Proof.
  unfold consumed. rewrite length_append.
  replace (String.length a + String.length b - String.length b)%nat
    with (String.length a) by lia.
  apply substring_head.
Qed.

(** A literal at the head of the pattern and of the input. *)
Lemma match_lit (s : string) (r : regex) (X : Type) (x : string)
  (caps : list string) (k : string -> list string -> option X) :
  match_re (Lit s >> r) X (s ++ x) caps k = match_re r X x caps k.
Proof. cbn [match_re]. now rewrite eat_lit_append. Qed.

(** A group around a plain pattern that matches all of [a]. *)
Lemma match_plain_group (p r : regex) (X : Type) (a x : string)
  (caps : list string) (k : string -> list string -> option X) :
  plain p = true -> eat p a = Some "" ->
  match_re (Group p >> r) X (a ++ x) caps k
  = match_re r X x (caps ++ [a])%list k.
Proof.
  intros Hp Ha. cbn [match_re]. rewrite match_plain by assumption.
  rewrite (eat_more p a "" x Hp Ha). simpl. now rewrite consumed_append.
Qed.

(** The group [(user|bot)] in front of one of the two roles. *)
Lemma match_role (r : regex) (X : Type) (role x : string)
  (caps : list string) (k : string -> list string -> option X) :
  role = "user" \/ role = "bot" ->
  match_re (Group (Alt (Lit "user") (Lit "bot")) >> r) X (role ++ x) caps k
  = match_re r X x (caps ++ [role])%list k.
Proof.
  intros [->| ->]; cbn [match_re].
  - rewrite eat_lit_append, consumed_append.
    destruct (match_re r X x (caps ++ ["user"])%list k);
      [reflexivity | now simpl].
  - replace (eat_lit "user" ("bot" ++ x)) with (@None string) by reflexivity.
    now rewrite eat_lit_append, consumed_append.
Qed.

Lemma match_lookahead (X : Type) (u : string) (caps : list string)
  (k : string -> list string -> option X) :
  match_re (Lookahead (Alt (Lit (nl ++ "[")) EndZ)) X u caps k
  = if stops u then k u caps else None.
Proof.
  cbn [match_re]. unfold stops.
  destruct (eat_lit (nl ++ "[") u); [reflexivity|].
  destruct u; reflexivity.
Qed.

Lemma lazy_any_plus_ext {X : Type} (input : string)
  (k1 k2 : string -> option X) :
  (forall u, k1 u = k2 u) ->
  lazy_any_plus input k1 = lazy_any_plus input k2.
Proof.
  intros H. induction input as [|c input IH]; simpl; [reflexivity|].
  now rewrite H, IH.
Qed.

(** [.+?] runs over [c a] when the continuation refuses every place
    inside. *)
Lemma lazy_any_plus_first {X : Type} (a b : string) (c : ascii)
  (k : string -> option X) :
  (forall a1 a2, a = a1 ++ a2 -> a2 <> "" -> k (a2 ++ b) = None) ->
  lazy_any_plus (String c a ++ b) k
  = match k b with
    | Some x => Some x
    | None => lazy_any_plus b k
    end.
Proof.
  revert c. induction a as [|d a IH]; intros c H; [reflexivity|].
  change (String c (String d a) ++ b) with (String c (String d a ++ b)).
  cbn [lazy_any_plus].
  rewrite (H "" (String d a)) by (reflexivity || discriminate).
  apply IH. intros a1 a2 -> Hne. apply (H (String d a1) a2); auto.
Qed.

End RegexFacts.

Section LineFacts.

Lemma contains_suffix (needle a b : string) :
  contains needle (a ++ b) = false -> contains needle b = false.
Proof.
  intros H. destruct (contains needle b) eqn:E; [|reflexivity].
  apply contains_spec in E. destruct E as (pre & post & ->).
  assert (contains needle (a ++ pre ++ needle ++ post) = true).
  { apply contains_spec. exists (a ++ pre), post. now rewrite append_assoc. }
  congruence.
Qed.

(** Inside a text without a line break and bracket, and up to the first of
    the two line breaks the logger adds, the lookahead fails. *)
Lemma stops_inside (t rest : string) :
  contains (nl ++ "[") t = false ->
  stops (t ++ nl ++ nl ++ rest) = false.
Proof.
  intros H. unfold stops.
  destruct (eat_lit (nl ++ "[") (t ++ nl ++ nl ++ rest)) as [s|] eqn:E.
  - apply eat_lit_spec in E. exfalso.
    destruct t as [|x [|y t]]; cbn in E.
    + discriminate E.
    + discriminate E.
    + injection E as -> -> _.
      assert (contains (nl ++ "[") ((nl ++ "[") ++ t) = true)
        by (apply contains_spec; now exists "", t).
      cbn in H, H0. congruence.
  - destruct t; reflexivity.
Qed.

(** The places inside [text ++ "\n"], past its first character. *)
Lemma inside_line (text : string) :
  exists c a,
    text ++ nl = String c a
    /\ forall a1 a2, a = a1 ++ a2 -> a2 <> "" ->
         exists t1 t2, a2 = t2 ++ nl /\ text = t1 ++ t2.
Proof.
  destruct text as [|c t].
  - exists (ascii_of_nat 10), "". split; [reflexivity|].
    intros a1 a2 H Hne. destruct a1; simpl in H; [now subst | discriminate].
  - exists c, (t ++ nl). split; [reflexivity|].
    assert (G : forall a1 a2 u, u ++ nl = a1 ++ a2 -> a2 <> "" ->
                  exists t2, a2 = t2 ++ nl /\ u = a1 ++ t2).
    { induction a1 as [|x a1 IH]; intros a2 u H Hne.
      - exists u. now split.
      - destruct u as [|y u].
        + cbn in H. injection H as _ H. destruct a1; simpl in H;
            [now subst | discriminate].
        + cbn in H. injection H as -> H.
          destruct (IH a2 u H Hne) as (t2 & -> & ->). now exists t2. }
    intros a1 a2 H Hne. destruct (G a1 a2 t H Hne) as (t2 & -> & ->).
    now exists (String c a1), t2.
Qed.

(** The text group and the lookahead, on the text of a line and what the
    logger and the later lines put after it. *)
Lemma match_text (text rest : string) (caps : list string) :
  contains (nl ++ "[") text = false ->
  line_follows rest ->
  match_re (Group LazyAnyPlus >> Lookahead (Alt (Lit (nl ++ "[")) EndZ)) _
    (text ++ nl ++ nl ++ rest) caps (fun rest caps => Some (caps, rest))
  = Some ((caps ++ [(text ++ (if rest =? "" then nl ++ nl else nl))%string])%list,
          if rest =? "" then "" else nl ++ rest).
Proof.
  intros Htext Hrest.
  set (input := text ++ nl ++ nl ++ rest).
  transitivity
    (lazy_any_plus input
       (fun u => if stops u
                 then Some ((caps ++ [consumed input u])%list, u)
                 else None)).
  { cbn [match_re]. apply lazy_any_plus_ext. intros u. unfold stops.
    destruct (eat_lit (nl ++ "[") u); [reflexivity|].
    destruct u; reflexivity. }
  destruct (inside_line text) as (c & a & Hline & Hinside).
  assert (Hinput : input = String c a ++ (nl ++ rest)).
  { unfold input. rewrite <- Hline. now rewrite !append_assoc. }
  rewrite Hinput at 1.
  rewrite lazy_any_plus_first.
  - destruct Hrest as [->|[x ->]].
    + assert (Hc : consumed input "" = text ++ nl ++ nl).
      { replace input with ((text ++ nl ++ nl) ++ "")
          by (unfold input; now rewrite !append_assoc).
        apply consumed_append. }
      replace (stops (nl ++ "")) with false by reflexivity.
      cbn [append nl chr lazy_any_plus stops eat_lit]. simpl.
      rewrite Hc. reflexivity.
    + assert (Hc : consumed input (nl ++ "[" ++ x) = text ++ nl).
      { rewrite Hinput, <- Hline. apply consumed_append. }
      replace (stops (nl ++ "[" ++ x)) with true by reflexivity.
      rewrite Hc. reflexivity.
  - intros a1 a2 Ha Hne.
    destruct (Hinside a1 a2 Ha Hne) as (t1 & t2 & -> & Ht).
    rewrite append_assoc, stops_inside; [reflexivity|].
    rewrite Ht in Htext. now apply contains_suffix in Htext.
Qed.

End LineFacts.

Section FindallFacts.

Variable r : regex.

Lemma findall_from_stable (n m : nat) (input : string) :
  (String.length input < n)%nat -> (String.length input < m)%nat ->
  findall_from n r input = findall_from m r input.
Proof.
  revert m input. induction n as [|n IH]; intros m input Hn Hm; [lia|].
  destruct m as [|m]; [lia|]. cbn [findall_from].
  assert (Hstep :
            match input with
            | "" => []
            | String _ input' => findall_from n r input'
            end
            = match input with
              | "" => []
              | String _ input' => findall_from m r input'
              end).
  { destruct input as [|c input']; [reflexivity|].
    simpl in Hn, Hm. apply IH; lia. }
  rewrite Hstep.
  destruct (match_here r input) as [[caps rest]|]; [|reflexivity].
  destruct (String.length rest <? String.length input)%nat eqn:E;
    [|reflexivity].
  apply Nat.ltb_lt in E. f_equal. apply IH; lia.
Qed.

Lemma findall_unfold (input : string) :
  findall r input
  = let step :=
      match input with
      | "" => []
      | String _ input' => findall r input'
      end in
    match match_here r input with
    | Some (caps, rest) =>
        if (String.length rest <? String.length input)%nat
        then caps :: findall r rest
        else caps :: step
    | None => step
    end.
Proof.
  unfold findall at 1. cbn [findall_from]. cbv zeta.
  assert (Hstep :
            match input with
            | "" => []
            | String _ input' => findall_from (String.length input) r input'
            end
            = match input with
              | "" => []
              | String _ input' => findall r input'
              end).
  { destruct input as [|c input']; [reflexivity|].
    unfold findall. apply findall_from_stable; simpl; lia. }
  rewrite Hstep.
  destruct (match_here r input) as [[caps rest]|]; [|reflexivity].
  destruct (String.length rest <? String.length input)%nat eqn:E;
    [|reflexivity].
  apply Nat.ltb_lt in E. f_equal. unfold findall.
  apply findall_from_stable; lia.
Qed.

End FindallFacts.

Lemma written_from (records : list (string * string * string))
  (file : string) :
  fold_left
    (fun file '(role, text, timestamp) =>
       file ++ transcript_line timestamp role text)
    records file
  = file ++ written records.
Proof.
  unfold written. revert file.
  induction records as [|[[role text] ts] records IH]; intros file; simpl.
  - now rewrite append_nil_r.
  - rewrite IH, (IH (transcript_line ts role text)).
    now rewrite append_assoc.
Qed.

Lemma written_cons (role text ts : string)
  (records : list (string * string * string)) :
  written ((role, text, ts) :: records)
  = transcript_line ts role text ++ written records.
Proof. unfold written at 1. simpl. apply written_from. Qed.

Lemma written_line_follows (records : list (string * string * string)) :
  line_follows (written records).
Proof.
  destruct records as [|[[role text] ts] records]; [now left|].
  right. rewrite written_cons. unfold transcript_line.
  eexists. rewrite !append_assoc. reflexivity.
Qed.

(** A line that reads back is matched at its head, up to the line break in
    front of the next line or to the end of the file. *)
Lemma match_line (role text ts rest : string) :
  reads_back (role, text, ts) -> line_follows rest ->
  match_here PATTERN (transcript_line ts role text ++ rest)
  = Some ([ts; role; text ++ (if rest =? "" then nl ++ nl else nl)],
          if rest =? "" then "" else nl ++ rest).
Proof.
  intros (Hrole & Hts & _ & Htext) Hrest.
  unfold match_here, PATTERN, transcript_line.
  replace (("[" ++ ts ++ "] " ++ role ++ ": " ++ text ++ nl ++ nl) ++ rest)
    with ("[" ++ ts ++ "] " ++ role ++ ": " ++ text ++ nl ++ nl ++ rest)
    by (now rewrite !append_assoc).
  rewrite match_lit.
  rewrite match_plain_group
    by (reflexivity || (apply fullmatch_plain; [reflexivity | exact Hts])).
  rewrite match_lit, match_role by assumption.
  rewrite match_lit.
  now rewrite match_text.
Qed.

Lemma findall_line (role text ts rest : string) :
  reads_back (role, text, ts) -> line_follows rest ->
  findall PATTERN (transcript_line ts role text ++ rest)
  = [ts; role; text ++ (if rest =? "" then nl ++ nl else nl)]
    :: findall PATTERN rest.
Proof.
  intros Hrec Hrest. rewrite findall_unfold. cbv zeta.
  rewrite match_line by assumption.
  destruct Hrest as [->|[x ->]].
  - reflexivity.
  - replace ("[" ++ x =? "") with false by reflexivity.
    assert (L : (String.length (nl ++ "[" ++ x)
                 <? String.length (transcript_line ts role text ++ "[" ++ x))%nat
                = true).
    { apply Nat.ltb_lt. unfold transcript_line.
      rewrite !length_append. simpl. lia. }
    rewrite L. f_equal.
Qed.

(** *** Reading in text mode *)

Lemma universal_newlines_without_cr (file : string) :
  all_in not_cr file -> universal_newlines file = file.
Proof.
  induction file as [|c file IH]; [reflexivity|].
  rewrite all_in_cons. unfold not_cr at 1. intros [Hc Hfile].
  apply negb_true_iff in Hc. cbn [universal_newlines]. rewrite Hc.
  now rewrite (IH Hfile).
Qed.

Lemma without_cr (text : string) :
  contains (String cr "") text = false -> all_in not_cr text.
Proof.
  induction text as [|c text IH]; [intros _; apply all_in_nil|].
  rewrite contains_char_cons, all_in_cons. intros H.
  apply orb_false_iff in H. destruct H as [Hc Htext].
  split; [unfold not_cr; now rewrite Hc | now apply IH].
Qed.

Lemma all_in_literal (cls : ascii -> bool) (s : string) :
  forallb cls (list_ascii_of_string s) = true -> all_in cls s.
Proof.
  intros H. apply Forall_forall. intros c Hc.
  now apply (proj1 (forallb_forall _ _) H).
Qed.

Lemma eat_digits_consumes (cls : ascii -> bool) (n : nat)
  (input rest : string) :
  (forall c, is_digit c = true -> cls c = true) ->
  eat_digits n input = Some rest ->
  exists d, input = d ++ rest /\ all_in cls d.
Proof.
  intros Hcls. revert input. induction n as [|n IH]; intros input; simpl.
  - intros [= ->]. exists "". split; [reflexivity | apply all_in_nil].
  - destruct input as [|c input]; [discriminate|].
    destruct (is_digit c) eqn:Hc; [|discriminate]. intros H.
    destruct (IH input H) as (d & -> & Hd). exists (String c d).
    split; [reflexivity|]. apply all_in_cons. auto.
Qed.

Lemma eat_consumes (cls : ascii -> bool) (r : regex) :
  (forall c, is_digit c = true -> cls c = true) ->
  literals_in cls r = true ->
  forall input rest,
    eat r input = Some rest -> exists d, input = d ++ rest /\ all_in cls d.
Proof.
  intros Hcls. induction r; intros Hlit input rest; simpl in *;
    try discriminate.
  - intros H. apply eat_lit_spec in H. exists s.
    split; [assumption | now apply all_in_literal].
  - now apply eat_digits_consumes.
  - apply andb_prop in Hlit. destruct Hlit as [H1 H2].
    destruct (eat r1 input) as [mid|] eqn:E; [|discriminate]. intros H.
    destruct (IHr1 H1 _ _ E) as (d1 & -> & Hd1).
    destruct (IHr2 H2 _ _ H) as (d2 & -> & Hd2).
    exists (d1 ++ d2). rewrite append_assoc.
    split; [reflexivity | now apply all_in_append].
Qed.

Lemma digit_is_not_cr (c : ascii) : is_digit c = true -> not_cr c = true.
Proof.
  destruct c as [[] [] [] [] [] [] [] []]; vm_compute; congruence.
Qed.

Lemma timestamp_without_cr (ts : string) :
  is_timestamp ts = true -> all_in not_cr ts.
Proof.
  intros H. apply fullmatch_plain in H; [|reflexivity].
  destruct (eat_consumes not_cr TIMESTAMP digit_is_not_cr eq_refl _ _ H)
    as (d & -> & Hd).
  now rewrite append_nil_r.
Qed.

Lemma written_without_cr (records : list (string * string * string)) :
  Forall reads_back records -> all_in not_cr (written records).
Proof.
  induction 1 as [|[[role text] ts] records Hrec _ IH]; [apply all_in_nil|].
  rewrite written_cons. destruct Hrec as (Hrole & Hts & Hcr & _).
  unfold transcript_line. rewrite !all_in_append.
  repeat split; try assumption.
  - now apply all_in_literal.
  - now apply timestamp_without_cr.
  - now apply all_in_literal.
  - destruct Hrole as [-> | ->]; now apply all_in_literal.
  - now apply all_in_literal.
  - now apply without_cr.
  - now apply all_in_literal.
  - now apply all_in_literal.
Qed.

Section RoundTrip.

(** Python's [str.strip]; what is used of it is that a line break at the end
    of a string does not change the result. *)
Variable str_strip : string -> string.
Hypothesis str_strip_line_break :
  forall a, str_strip (a ++ nl) = str_strip a.

(** C6 (as amended).  For records whose role is "user" or "bot", whose clock
    reading has the strftime format, and whose text holds no carriage return
    and no line break followed by an opening bracket: the file the logger
    writes reads back, through the text mode of [open] and the pattern of
    the history API, as the same records in the same order, each text
    trimmed. *)
Theorem transcript_round_trip (records : list (string * string * string)) :
  Forall reads_back records ->
  api_chat_history str_strip (written records)
  = map (message_of_record str_strip) records.
Proof.
  intros Hall. unfold api_chat_history. cbv zeta.
  rewrite (universal_newlines_without_cr _ (written_without_cr _ Hall)).
  induction Hall as [|[[role text] ts] records Hrec _ IH]; [reflexivity|].
  rewrite written_cons.
  rewrite findall_line by (assumption || apply written_line_follows).
  cbn [map]. rewrite IH. f_equal.
  destruct Hrec as (Hrole & _).
  unfold message_of_match, message_of_record. cbn [nth].
  f_equal.
  - destruct Hrole as [->| ->]; reflexivity.
  - destruct (written records =? "").
    + now rewrite <- append_assoc, !str_strip_line_break.
    + apply str_strip_line_break.
Qed.

End RoundTrip.

Lemma strip_line_break (a : string) : strip (a ++ nl) = strip a.
Proof. now apply strip_append_blank. Qed.

Lemma transcript_round_trip_witness :
  api_chat_history strip
    (written [ ("user", "hello [doc]", Sample.ts1);
               ("bot", "Hi! " ++ nl ++ "How are you?" ++ nl, Sample.ts2) ])
  = [ mkHistoryMessage Sample.ts1 "user" "hello [doc]";
      mkHistoryMessage Sample.ts2 "bot" ("Hi! " ++ nl ++ "How are you?") ].
Proof.
  apply (transcript_round_trip strip strip_line_break
           [ ("user", "hello [doc]", Sample.ts1);
             ("bot", "Hi! " ++ nl ++ "How are you?" ++ nl, Sample.ts2) ]).
  constructor; [|constructor; [|constructor]];
    (split; [|split; [|split]]);
    try reflexivity; [left | right]; reflexivity.
Defined.

(** C6, as stated, fails on two kinds of text.  A text with a bracket at the
    head of its second line reads back cut at the line break; and a carriage
    return reads back, through the text mode of [open], as a line break. *)
Lemma texts_that_do_not_read_back :
  let bracket :=
    [ ("bot", "See the report:" ++ nl ++ "[1] blood test", Sample.ts1) ] in
  let carriage :=
    [ ("bot", "line one" ++ String cr "line two", Sample.ts1) ] in
  (api_chat_history strip (written bracket)
   = [ mkHistoryMessage Sample.ts1 "bot" "See the report:" ]
   /\ api_chat_history strip (written bracket)
      <> map (message_of_record strip) bracket)
  /\ (api_chat_history strip (written carriage)
      = [ mkHistoryMessage Sample.ts1 "bot" ("line one" ++ nl ++ "line two") ]
      /\ api_chat_history strip (written carriage)
         <> map (message_of_record strip) carriage).
Proof.
  cbv zeta. split; (split; [reflexivity|]); vm_compute; discriminate.
Qed.

(* ------------------------------------------------------------------------- *)
(** * Further properties of the chat loop *)

Section LoopMore.

Variable CHAT_BUFFER : Z.
Variable doc_retriever : bool.

Lemma handle_message_transcript (w : world) (msg : string) (s : session) :
  exists tail,
    transcript (snd (handle_message CHAT_BUFFER doc_retriever w msg s))
    = transcript s ++ transcript_line (now_user w) "user" msg ++ tail.
Proof.
  pose proof (dispatch_keeps_transcript CHAT_BUFFER doc_retriever w msg
                (user_logged w msg s)) as Hfile.
  rewrite handle_message_cases.
  destruct (dispatch CHAT_BUFFER doc_retriever w msg (user_logged w msg s))
    as [[[]|e] s1]; simpl in Hfile; [destruct (response s1) as [reply|]|].
  - exists (transcript_line (now_bot w) "bot" reply). simpl.
    now rewrite Hfile, append_assoc.
  - exists "". simpl. now rewrite Hfile, append_nil_r.
  - exists "". simpl. now rewrite Hfile, append_nil_r.
Qed.

(** X1.  The loop only appends to the transcript: the file after any run of
    the loop is the file before it followed by new text, and that text holds
    the user's line of every message handled. *)
Theorem transcript_only_grows (receives : list (world * option string))
  (s : session) :
  exists added,
    transcript (snd (chat_loop CHAT_BUFFER doc_retriever receives s))
    = transcript s ++ added
    /\ forall w msg, In (w, msg) (handled receives) ->
         Substring (transcript_line (now_user w) "user" msg) added.
Proof.
  revert s. induction receives as [|[w [msg|]] later IH]; intros s.
  - exists "". simpl. rewrite append_nil_r. split; [reflexivity | intros ? ? []].
  - destruct (handle_message_returns CHAT_BUFFER doc_retriever w msg s)
      as (s1 & H1 & _).
    destruct (handle_message_transcript w msg s) as (tail & Ht).
    rewrite H1 in Ht. cbn [snd] in Ht.
    destruct (IH s1) as (added & Ha & Hin).
    exists (transcript_line (now_user w) "user" msg ++ tail ++ added).
    cbn [chat_loop handled]. unfold bind at 1. rewrite H1. split.
    + rewrite Ha, Ht. now rewrite !append_assoc.
    + intros w' msg' [E|Hl].
      * injection E as <- <-. now exists "", (tail ++ added).
      * replace (transcript_line (now_user w) "user" msg ++ tail ++ added)
          with ((transcript_line (now_user w) "user" msg ++ tail)
                ++ added ++ "")
          by (now rewrite append_nil_r, !append_assoc).
        apply Substring_inside. now apply Hin.
  - exists "". simpl. rewrite append_nil_r. split; [reflexivity | intros ? ? []].
Qed.

Lemma medical_turn_keeps_sql_chat_history (w : world) (msg : string) :
  keeps sql_chat_history (medical_turn CHAT_BUFFER doc_retriever w msg).
Proof.
  unfold medical_turn, medical_send, search_medical_info, parse_results.
  frame.
Qed.

Lemma sql_turn_keeps_chat_history (w : world) (msg : string) :
  keeps chat_history (sql_turn CHAT_BUFFER w msg).
Proof.
  unfold sql_turn, sql_send, prefetch_slots_info, get_slots_by_doctors,
    parse_results.
  frame.
Qed.

(** X2.  The two buffers are independent: a medical message leaves the sql
    buffer as it was, a sql message leaves the medical buffer as it was, and
    a summary message leaves both. *)
Theorem buffers_are_independent (w : world) (msg : string) (s : session) :
  let s' := snd (handle_message CHAT_BUFFER doc_retriever w msg s) in
  match classify msg with
  | MedicalQa => sql_chat_history s' = sql_chat_history s
  | SqlAgent => chat_history s' = chat_history s
  | Summary =>
      chat_history s' = chat_history s
      /\ sql_chat_history s' = sql_chat_history s
  end.
Proof.
  cbv zeta.
  rewrite handle_message_chat_history, handle_message_sql_chat_history.
  unfold dispatch. destruct (classify msg).
  - split; reflexivity.
  - destruct (asks_availability msg); [|reflexivity].
    now rewrite sql_turn_keeps_chat_history.
  - now rewrite medical_turn_keeps_sql_chat_history.
Qed.

(** X3.  When the medical agent returns its messages, the buffer becomes
    those messages followed by an assistant entry that repeats the content
    of the last of them: the reply is kept twice. *)
Theorem reply_is_stored_twice (w : world) (message : string) (s : session)
  (older : list entry) (final : entry) :
  agent s = true ->
  agent_invoke w
    (truncate_to CHAT_BUFFER (chat_history s ++ [user_entry message]))
  = Ok (older ++ [final])%list ->
  exists s',
    medical_send CHAT_BUFFER w message s = (Ok tt, s')
    /\ chat_history s'
       = (older ++ [final; assistant_entry (content final)])%list
    /\ response s' = Some (content final).
Proof.
  intros Hbound Hreply.
  cbv beta iota zeta delta
    [medical_send bind modify get lift ret raise parse_results].
  simpl. rewrite Hbound. simpl. rewrite Hreply.
  rewrite rev_app_distr. simpl.
  eexists. split; [reflexivity|]. simpl.
  split; [now rewrite <- app_assoc | reflexivity].
Qed.

(** X5.  A sql turn that raises after the prefetch (the agent is unbound, the
    agent raises, or it returns no message) is not undone: the sql buffer
    keeps the user entry of the turn, truncated, and neither the response
    nor the medical buffer changes. *)
Theorem failed_send_keeps_user_entry (w : world) (message : string)
  (s s1 : session) (e : exn) :
  sql_send CHAT_BUFFER w message s = (Raise e, s1) ->
  sql_chat_history s1
  = truncate_to CHAT_BUFFER (sql_chat_history s ++ [user_entry message])
  /\ response s1 = response s
  /\ chat_history s1 = chat_history s.
Proof.
  cbv beta iota zeta delta
    [sql_send bind modify get lift ret raise parse_results].
  simpl. destruct (sql_agent s); simpl.
  - destruct (sql_agent_invoke w _) as [messages|e0]; simpl.
    + destruct (rev messages); simpl; [|discriminate].
      intros [= <- <-]. repeat split.
    + intros [= <- <-]. repeat split.
  - intros [= <- <-]. repeat split.
Qed.

End LoopMore.

Lemma reply_is_stored_twice_witness :
  exists s',
    medical_send 20 (Sample.calm Sample.roster) "my head hurts"
      (open_session "Guest" Sample.named) = (Ok tt, s')
    /\ chat_history s'
       = [ user_entry "my head hurts";
           assistant_entry "I recommend Dr. Ricci.";
           assistant_entry "I recommend Dr. Ricci." ]
    /\ response s' = Some "I recommend Dr. Ricci.".
Proof.
  exact (reply_is_stored_twice 20 (Sample.calm Sample.roster) "my head hurts"
           (open_session "Guest" Sample.named)
           [user_entry "my head hurts"]
           (assistant_entry "I recommend Dr. Ricci.") eq_refl eq_refl).
Defined.

Lemma failed_send_keeps_user_entry_witness :
  sql_chat_history
    (snd (sql_send 20 (Sample.calm Sample.roster) "cancel slot 3"
            (open_session "Guest" Sample.anonymous)))
  = [user_entry "cancel slot 3"].
Proof.
  exact (proj1 (failed_send_keeps_user_entry 20 (Sample.calm Sample.roster)
                  "cancel slot 3" (open_session "Guest" Sample.anonymous)
                  _ _ eq_refl)).
Defined.

(** X4.  A bound that is not positive does not empty the buffer: with
    [CHAT_BUFFER = 0] the slice [buf[-0:]] is the whole buffer, and with
    [CHAT_BUFFER = -k] it is the buffer without its [k] oldest entries. *)
Theorem truncate_to_nonpositive_bound (bound : Z) (buf : list entry) :
  (bound <= 0)%Z ->
  truncate_to bound buf = skipn (Z.to_nat (- bound)) buf.
Proof.
  intros Hb. unfold truncate_to, slice_from.
  destruct (Z.of_nat (List.length buf) >? bound)%Z eqn:E.
  - assert (L : (- bound <? 0)%Z = false) by (apply Z.ltb_ge; lia).
    rewrite L.
    destruct (Z.le_gt_cases (- bound) (Z.of_nat (List.length buf))) as [H|H].
    + now rewrite Z.min_l by assumption.
    + rewrite Z.min_r by lia. rewrite Nat2Z.id.
      rewrite skipn_all. symmetry. apply skipn_all2. lia.
  - assert (L : (Z.of_nat (List.length buf) <= bound)%Z).
    { destruct (Z.gtb_spec (Z.of_nat (List.length buf)) bound);
        [discriminate | assumption]. }
    destruct buf as [|x buf]; [now rewrite skipn_nil | simpl in L; lia].
Qed.

Lemma truncate_to_nonpositive_bound_witness :
  truncate_to 0 [user_entry "a"; assistant_entry "b"; user_entry "c"]
  = [user_entry "a"; assistant_entry "b"; user_entry "c"].
Proof.
  apply (truncate_to_nonpositive_bound 0
           [user_entry "a"; assistant_entry "b"; user_entry "c"]).
  reflexivity.
Defined.

Section LoopAgents.

Variable CHAT_BUFFER : Z.
Variable doc_retriever : bool.

Lemma dispatch_keeps_agent (w : world) (msg : string) :
  keeps agent (dispatch CHAT_BUFFER doc_retriever w msg).
Proof.
  unfold dispatch, sql_turn, sql_send, medical_turn, medical_send,
    search_medical_info, prefetch_slots_info, get_slots_by_doctors,
    parse_results, generate_consultation_summary.
  frame.
Qed.

Lemma dispatch_keeps_sql_agent (w : world) (msg : string) :
  keeps sql_agent (dispatch CHAT_BUFFER doc_retriever w msg).
Proof.
  unfold dispatch, sql_turn, sql_send, medical_turn, medical_send,
    search_medical_info, prefetch_slots_info, get_slots_by_doctors,
    parse_results, generate_consultation_summary.
  frame.
Qed.

Lemma dispatch_keeps_user_name (w : world) (msg : string) :
  keeps current_ws_user_name (dispatch CHAT_BUFFER doc_retriever w msg).
Proof.
  unfold dispatch, sql_turn, sql_send, medical_turn, medical_send,
    search_medical_info, prefetch_slots_info, get_slots_by_doctors,
    parse_results, generate_consultation_summary.
  frame.
Qed.

(** What the router leaves alone, an iteration leaves alone, when the
    transcript and the socket are not concerned. *)
Lemma handle_message_keeps {B : Type} (f : session -> B) (w : world)
  (msg : string) :
  (forall t s, f (set_transcript t s) = f s) ->
  (forall x s, f (push_sent x s) = f s) ->
  keeps f (dispatch CHAT_BUFFER doc_retriever w msg) ->
  keeps f (handle_message CHAT_BUFFER doc_retriever w msg).
Proof.
  intros Hfile Hsent Hd s. specialize (Hd (user_logged w msg s)).
  rewrite handle_message_cases.
  destruct (dispatch CHAT_BUFFER doc_retriever w msg (user_logged w msg s))
    as [[[]|e] s1]; cbn [snd] in *; [destruct (response s1)|];
    cbn [snd]; unfold replied; rewrite ?Hsent, ?Hfile, Hd;
    unfold user_logged; now rewrite Hfile.
Qed.

Lemma sql_send_unbound (w : world) (message : string) (s : session) :
  sql_agent s = false ->
  invoked (snd (sql_send CHAT_BUFFER w message s)) = invoked s.
Proof.
  intros H.
  cbv beta iota zeta delta
    [sql_send bind modify get lift ret raise parse_results].
  simpl. now rewrite H.
Qed.

Lemma medical_send_unbound (w : world) (message : string) (s : session) :
  agent s = false ->
  invoked (snd (medical_send CHAT_BUFFER w message s)) = invoked s.
Proof.
  intros H.
  cbv beta iota zeta delta
    [medical_send bind modify get lift ret raise parse_results].
  simpl. now rewrite H.
Qed.

Lemma dispatch_invoked_unbound (w : world) (msg : string) (s : session) :
  agent s = false -> sql_agent s = false ->
  let s' := snd (dispatch CHAT_BUFFER doc_retriever w msg s) in
  invoked s' = invoked s
  \/ invoked s' = (invoked s ++ [SummaryCall (current_ws_user_name s)])%list.
Proof.
  intros Ha Hs. cbv zeta. unfold dispatch. destruct (classify msg).
  - right.
    cbv beta iota zeta delta
      [bind modify get lift ret raise generate_consultation_summary].
    reflexivity.
  - left. destruct (asks_availability msg); [|reflexivity].
    unfold sql_turn. rewrite bind_reader by apply prefetch_keeps_session.
    destruct (fst (prefetch_slots_info w s)) as [info|e]; [|reflexivity].
    now apply sql_send_unbound.
  - left. unfold medical_turn. rewrite bind_reader by apply keeps_lift.
    change (fst (lift (db_doctors_list w) s)) with (db_doctors_list w).
    destruct (db_doctors_list w) as [db|e]; [|reflexivity]. cbv zeta.
    rewrite bind_reader
      by apply (medical_context_keeps_session doc_retriever).
    match goal with
    | |- context [match fst ?x with _ => _ end] =>
        destruct (fst x) as [ctx|e]; [|reflexivity]
    end.
    now apply medical_send_unbound.
Qed.

(** X6.  On a connection that gives no [username] parameter the two agents
    are never bound, so whatever is received afterwards the only invocations
    made are calls of the summary service, under the fallback user name. *)
Theorem anonymous_connection_reaches_no_agent (USER_NAME : string)
  (h : handshake) (receives : list (world * option string)) :
  username_param h = None ->
  Forall (fun c => c = SummaryCall USER_NAME)
    (invoked (snd (chat_socket CHAT_BUFFER doc_retriever USER_NAME h receives))).
Proof.
  intros Hanon. unfold chat_socket.
  assert (Inv : forall receives s,
             agent s = false -> sql_agent s = false ->
             current_ws_user_name s = USER_NAME ->
             Forall (fun c => c = SummaryCall USER_NAME) (invoked s) ->
             Forall (fun c => c = SummaryCall USER_NAME)
               (invoked (snd (chat_loop CHAT_BUFFER doc_retriever receives s)))).
  { clear. induction receives as [|[w [msg|]] later IH];
      intros s Ha Hs Hu Hi; [exact Hi | | exact Hi].
    destruct (handle_message_returns CHAT_BUFFER doc_retriever w msg s)
      as (s1 & H1 & _).
    cbn [chat_loop]. unfold bind at 1. rewrite H1.
    assert (E : s1 = snd (handle_message CHAT_BUFFER doc_retriever w msg s))
      by now rewrite H1.
    apply IH.
    - rewrite E. rewrite (handle_message_keeps agent);
        [exact Ha | reflexivity | reflexivity | apply dispatch_keeps_agent].
    - rewrite E. rewrite (handle_message_keeps sql_agent);
        [exact Hs | reflexivity | reflexivity | apply dispatch_keeps_sql_agent].
    - rewrite E. rewrite (handle_message_keeps current_ws_user_name);
        [exact Hu | reflexivity | reflexivity | apply dispatch_keeps_user_name].
    - rewrite E, handle_message_invoked.
      destruct (dispatch_invoked_unbound w msg (user_logged w msg s) Ha Hs)
        as [H|H]; rewrite H; [exact Hi|].
      apply Forall_app. split; [exact Hi|].
      constructor; [|constructor]. cbn. now rewrite Hu. }
  apply Inv.
  - unfold open_session. rewrite Hanon. now destruct (initialize_llm h).
  - unfold open_session. now rewrite Hanon.
  - unfold open_session. now rewrite Hanon.
  - constructor.
Qed.

Lemma strip_of_nonblank (x : string) :
  blank x = false -> strip x <> "".
Proof.
  unfold strip. induction x as [|c x IH]; [discriminate|].
  cbn [lstrip blank]. destruct (is_space c) eqn:Ec; simpl.
  - exact IH.
  - intros _. rewrite Ec. simpl. discriminate.
Qed.

(** X7.  A summary message of the loop always reaches the model when the
    transcript can be read, since the user's line has just been written: the
    reply is the model's answer or, when the model raises, the text
    "Error generating summary: ...", and in both cases it is sent and logged
    as a normal bot line. *)
Theorem summary_in_loop_asks_the_model (w : world) (msg : string)
  (s : session) :
  classify msg = Summary ->
  history_readable w = true ->
  exists s',
    handle_message CHAT_BUFFER doc_retriever w msg s = (Ok tt, s')
    /\ let reply :=
         summary_reply w (current_ws_user_name s)
           (transcript s ++ transcript_line (now_user w) "user" msg) in
       response s' = Some reply
       /\ sent s' = (sent s ++ [reply])%list
       /\ transcript s'
          = transcript s ++ transcript_line (now_user w) "user" msg
            ++ transcript_line (now_bot w) "bot" reply.
Proof.
  intros Hsum Hread. rewrite handle_message_cases. unfold dispatch.
  rewrite Hsum.
  cbv beta iota zeta delta
    [bind modify get lift ret raise generate_consultation_summary].
  simpl. rewrite Hread. unfold consultation_summary.
  assert (Hne : (strip (transcript s ++ transcript_line (now_user w) "user" msg)
                 =? "") = false).
  { apply String.eqb_neq. apply strip_of_nonblank.
    rewrite blank_append. unfold transcript_line.
    now rewrite andb_false_r. }
  rewrite Hne. eexists. split; [reflexivity|]. cbv zeta. simpl.
  fold (summary_prompt (user_appointments w (current_ws_user_name s))
          (transcript s ++ transcript_line (now_user w) "user" msg)).
  fold (summary_reply w (current_ws_user_name s)
          (transcript s ++ transcript_line (now_user w) "user" msg)).
  repeat split. now rewrite append_assoc.
Qed.

End LoopAgents.

Lemma anonymous_connection_reaches_no_agent_witness :
  Forall (fun c => c = SummaryCall "Guest")
    (invoked
       (snd (chat_socket 20 false "Guest" Sample.anonymous
               [ (Sample.calm Sample.roster, Some Sample.headache);
                 (Sample.calm Sample.roster, Some "show available slots");
                 (Sample.calm Sample.roster, Some "give me a summary") ]))).
Proof.
  apply (anonymous_connection_reaches_no_agent 20 false "Guest"
           Sample.anonymous).
  reflexivity.
Defined.

Lemma summary_in_loop_asks_the_model_witness :
  exists s',
    handle_message 20 false (Sample.calm Sample.roster) "give me a summary"
      (open_session "Guest" Sample.named) = (Ok tt, s')
    /\ response s' = Some "You discussed a headache.".
Proof.
  destruct (summary_in_loop_asks_the_model 20 false
              (Sample.calm Sample.roster) "give me a summary"
              (open_session "Guest" Sample.named) eq_refl eq_refl)
    as (s' & H & Hr & _).
  exists s'. split; [exact H | exact Hr].
Defined.

(** ** More on the prefetcher *)

Lemma extract_is_a_filter (all_doctors : list string) (history : list entry) :
  extract_mentioned_doctors_from_history all_doctors history = []
  \/ exists e,
       In e history
       /\ extract_mentioned_doctors_from_history all_doctors history
          = filter (mentions e) all_doctors.
Proof.
  unfold extract_mentioned_doctors_from_history.
  assert (G : forall l,
             scan_last_assistant all_doctors l = []
             \/ exists e, In e l
                          /\ scan_last_assistant all_doctors l
                             = filter (mentions e) all_doctors).
  { induction l as [|x l IH]; [now left|]. simpl.
    destruct (role x =? "assistant").
    - right. exists x. split; [now left | reflexivity].
    - destruct IH as [IH|(e & Hin & IH)]; [now left|].
      right. exists e. split; [now right | exact IH]. }
  destruct (G (rev history)) as [H|(e & Hin & H)]; [now left|].
  right. exists e. split; [now apply in_rev | exact H].
Qed.

Lemma Substring_trans (a b c : string) :
  Substring a b -> Substring b c -> Substring a c.
Proof.
  intros (p1 & q1 & ->) (p2 & q2 & ->).
  exists (p2 ++ p1), (q1 ++ q2). now rewrite !append_assoc.
Qed.

(** X8.  The extraction matches names as substrings: a doctor of the roster
    whose name is contained, case aside, in the name of a doctor that is
    reported is reported as well. *)
Theorem contained_name_is_reported (all_doctors : list string)
  (history : list entry) (short long : string) :
  In short all_doctors ->
  In long (extract_mentioned_doctors_from_history all_doctors history) ->
  Substring (lower short) (lower long) ->
  In short (extract_mentioned_doctors_from_history all_doctors history).
Proof.
  intros Hshort Hlong Hsub.
  destruct (extract_is_a_filter all_doctors history) as [E|(e & _ & E)];
    rewrite E in *; [contradiction|].
  apply filter_In in Hlong. destruct Hlong as [_ Hlong].
  apply filter_In. split; [exact Hshort|].
  unfold mentions in *. apply contains_spec.
  apply contains_spec in Hlong. now apply Substring_trans with (lower long).
Qed.

Lemma contained_name_is_reported_witness :
  In "Dr. Ricci"
    (extract_mentioned_doctors_from_history
       ["Dr. Ricci"; "Dr. Riccio"]
       [assistant_entry "Please see Dr. Riccio."]).
Proof.
  apply (contained_name_is_reported ["Dr. Ricci"; "Dr. Riccio"]
           [assistant_entry "Please see Dr. Riccio."]
           "Dr. Ricci" "Dr. Riccio").
  - now left.
  - simpl. now right; left.
  - now exists "", "o".
Defined.

Section LoopCalls.

Variable CHAT_BUFFER : Z.
Variable doc_retriever : bool.

Lemma truncate_to_keeps_newest (buf : list entry) (e : entry) :
  (0 < CHAT_BUFFER)%Z ->
  exists older, truncate_to CHAT_BUFFER (buf ++ [e]) = (older ++ [e])%list.
Proof.
  intros Hpos. rewrite truncate_to_skipn by assumption.
  rewrite length_app. simpl. rewrite skipn_app.
  replace (List.length buf + 1 - Z.to_nat CHAT_BUFFER - List.length buf)%nat
    with 0%nat by lia.
  eexists. reflexivity.
Qed.

Lemma dispatch_calls (w : world) (msg : string) (s : session) :
  (0 < CHAT_BUFFER)%Z ->
  exists new,
    invoked (snd (dispatch CHAT_BUFFER doc_retriever w msg s))
    = (invoked s ++ new)%list
    /\ (List.length new <= 1)%nat
    /\ Forall (call_carries s msg) new.
Proof.
  intros Hpos. unfold dispatch. destruct (classify msg).
  - exists [SummaryCall (current_ws_user_name s)].
    split; [reflexivity|]. split; [simpl; lia|].
    constructor; [reflexivity | constructor].
  - destruct (asks_availability msg);
      [|exists []; split; [now rewrite app_nil_r|]; split; [simpl; lia|constructor]].
    unfold sql_turn. rewrite bind_reader by apply prefetch_keeps_session.
    destruct (fst (prefetch_slots_info w s)) as [info|e];
      [|exists []; split; [now rewrite app_nil_r|]; split; [simpl; lia|constructor]].
    destruct (sql_send_invoked CHAT_BUFFER w (message_for_agent info msg) s)
      as [H|H]; rewrite H.
    + exists []. split; [now rewrite app_nil_r|]. split; [simpl; lia|constructor].
    + eexists [_]. split; [reflexivity|]. split; [simpl; lia|].
      constructor; [|constructor]. cbn.
      destruct (truncate_to_keeps_newest (sql_chat_history s)
                  (user_entry (message_for_agent info msg)) Hpos) as (older & E).
      now exists older, info.
  - unfold medical_turn. rewrite bind_reader by apply keeps_lift.
    change (fst (lift (db_doctors_list w) s)) with (db_doctors_list w).
    destruct (db_doctors_list w) as [db|e];
      [|exists []; split; [now rewrite app_nil_r|]; split; [simpl; lia|constructor]].
    cbv zeta.
    rewrite bind_reader
      by apply (medical_context_keeps_session doc_retriever).
    match goal with
    | |- context [match fst ?x with _ => _ end] =>
        destruct (fst x) as [ctx|e];
        [|exists []; split; [now rewrite app_nil_r|]; split; [simpl; lia|constructor]]
    end.
    destruct (medical_send_invoked CHAT_BUFFER w
                (enhanced_msg msg (get_all_doctors_list db) ctx) s)
      as [H|H]; rewrite H.
    + exists []. split; [now rewrite app_nil_r|]. split; [simpl; lia|constructor].
    + eexists [_]. split; [reflexivity|]. split; [simpl; lia|].
      constructor; [|constructor]. cbn.
      destruct (truncate_to_keeps_newest (chat_history s)
                  (user_entry (enhanced_msg msg (get_all_doctors_list db) ctx))
                  Hpos) as (older & E).
      now exists older, (get_all_doctors_list db), ctx.
Qed.

(** X9.  For a positive bound, an iteration makes at most one invocation;
    the summary service is given the user name of the session, and an agent
    is given a buffer whose last entry is the user entry built from the
    message just received. *)
Theorem one_invocation_with_the_message_last (w : world) (msg : string)
  (s : session) :
  (0 < CHAT_BUFFER)%Z ->
  exists new,
    invoked (snd (handle_message CHAT_BUFFER doc_retriever w msg s))
    = (invoked s ++ new)%list
    /\ (List.length new <= 1)%nat
    /\ Forall (call_carries s msg) new.
Proof.
  intros Hpos. rewrite handle_message_invoked.
  destruct (dispatch_calls w msg (user_logged w msg s) Hpos)
    as (new & H & Hlen & Hc).
  exists new. split; [exact H|]. split; [exact Hlen|].
  revert Hc. apply Forall_impl. intros c. destruct c; exact (fun x => x).
Qed.

Lemma prefetch_reads_history (w : world) (s1 s2 : session) :
  chat_history s1 = chat_history s2 ->
  fst (prefetch_slots_info w s1) = fst (prefetch_slots_info w s2).
Proof.
  intros H.
  cbv beta iota zeta delta
    [prefetch_slots_info bind lift get ret get_slots_by_doctors].
  destruct (db_doctor_names w) as [db|e]; [|reflexivity].
  rewrite H.
  destruct (extract_mentioned_doctors_from_history _ _) as [|d ds].
  - destruct (db_all_slots w) as [db3|e]; [|reflexivity].
    now destruct (get_slots_by_specialization db3 None).
  - destruct (db_slots_by_doctors w) as [db2|e]; [|reflexivity].
    destruct (query_slots_by_doctors db2 (d :: ds)); [|reflexivity].
    destruct (db_all_slots w) as [db3|e]; [|reflexivity].
    now destruct (get_slots_by_specialization db3 None).
Qed.

(** X10.  When a query of the prefetch raises, the availability message is
    answered with "Bot Error: ..." and the turn leaves no trace: no user
    entry is appended to the sql buffer, no agent is invoked, and the
    response and the medical buffer are as before. *)
Theorem failed_prefetch_leaves_no_trace (w : world) (msg : string)
  (s : session) (e : exn) :
  classify msg = SqlAgent ->
  asks_availability msg = true ->
  fst (prefetch_slots_info w s) = Raise e ->
  exists s',
    handle_message CHAT_BUFFER doc_retriever w msg s = (Ok tt, s')
    /\ sent s' = (sent s ++ [("Bot Error: " ++ str_exn e)%string])%list
    /\ sql_chat_history s' = sql_chat_history s
    /\ chat_history s' = chat_history s
    /\ invoked s' = invoked s
    /\ response s' = response s.
Proof.
  intros Hsql Havail Hfail. rewrite handle_message_cases.
  unfold dispatch. rewrite Hsql, Havail. unfold sql_turn.
  rewrite bind_reader by apply prefetch_keeps_session.
  rewrite (prefetch_reads_history w (user_logged w msg s) s eq_refl), Hfail.
  eexists. repeat split.
Qed.

End LoopCalls.

Lemma one_invocation_with_the_message_last_witness :
  exists new,
    invoked (snd (handle_message 20 false (Sample.calm Sample.roster)
                    "show available slots" Sample.session_after_ricci))
    = new
    /\ (List.length new <= 1)%nat.
Proof.
  destruct (one_invocation_with_the_message_last 20 false
              (Sample.calm Sample.roster) "show available slots"
              Sample.session_after_ricci eq_refl)
    as (new & H & Hlen & _).
  exists new. split; [exact H | exact Hlen].
Defined.

Lemma failed_prefetch_leaves_no_trace_witness :
  exists s',
    handle_message 20 false Sample.locked "show available slots"
      Sample.session_after_ricci = (Ok tt, s')
    /\ sent s' = [GREETING; "Bot Error: database is locked"]
    /\ sql_chat_history s' = [].
Proof.
  destruct (failed_prefetch_leaves_no_trace 20 false Sample.locked
              "show available slots" Sample.session_after_ricci
              (External "database is locked") eq_refl eq_refl eq_refl)
    as (s' & H & Hs & Hq & _).
  exists s'. split; [exact H|]. split; [exact Hs | exact Hq].
Defined.

(** ** The store queries *)

Section OrderBy.

Context {A : Type} (le : A -> A -> bool).
Hypothesis le_total : forall a b, le a b = true \/ le b a = true.

Lemma insert_by_sorted (x : A) (l : list A) :
  sorted_by le l -> sorted_by le (insert_by le x l).
Proof.
  unfold sorted_by. induction l as [|y l IH]; intros Hl; simpl.
  - repeat constructor.
  - destruct (le x y) eqn:E.
    + constructor; [exact Hl | now constructor].
    + apply Sorted_inv in Hl. destruct Hl as [Hl Hhd].
      constructor; [now apply IH|].
      assert (Hyx : le y x = true)
        by (destruct (le_total x y); [congruence | assumption]).
      destruct l as [|z l]; simpl; [now constructor|].
      destruct (le x z); constructor; [exact Hyx|].
      now apply HdRel_inv in Hhd.
Qed.

Lemma order_by_sorted (l : list A) : sorted_by le (order_by le l).
Proof.
  induction l as [|x l IH]; simpl; [constructor|].
  now apply insert_by_sorted.
Qed.

End OrderBy.

Lemma by_time_total (r1 r2 : slot) :
  by_time r1 r2 = true \/ by_time r2 r1 = true.
Proof. apply String.leb_total. Qed.

Lemma by_spec_time_total (r1 r2 : slot) :
  by_spec_time r1 r2 = true \/ by_spec_time r2 r1 = true.
Proof.
  unfold by_spec_time, String.ltb.
  rewrite (String.compare_antisym (slot_spec r2) (slot_spec r1)).
  destruct (String.compare (slot_spec r1) (slot_spec r2)) eqn:E; simpl.
  - apply String.compare_eq_iff in E. rewrite E, String.eqb_refl. simpl.
    apply String.leb_total.
  - now left.
  - now right.
Qed.

Lemma open_slots_spec (db : store) (r : slot) :
  In r (open_slots db) <-> is_open_slot db r.
Proof.
  unfold open_slots, is_open_slot. rewrite in_flat_map. split.
  - intros (a & Ha & Hr). destruct (a_patient a) eqn:Hp; [destruct Hr|].
    apply in_map_iff in Hr. destruct Hr as (d & <- & Hd).
    apply filter_In in Hd. destruct Hd as [Hd E].
    apply String.eqb_eq in E. now exists a, d.
  - intros (a & d & Ha & Hd & Hp & E & ->). exists a. split; [exact Ha|].
    rewrite Hp. apply in_map_iff. exists d. split; [reflexivity|].
    apply filter_In. split; [exact Hd | now apply String.eqb_eq].
Qed.

(** X12.  [get_slots_by_specialization] lists, each once, the appointments
    that have no patient and whose doctor has a row in [doctors]: all of
    them in ascending order of specialization then of the text of the time
    slot when no specialization (or an empty one) is given, and otherwise
    those whose specialization is the given one, case aside, in ascending
    order of the text of the time slot. *)
Theorem slots_by_specialization_are_the_open_ones (db : store)
  (specialization : option string) :
  let rows := get_slots_by_specialization db specialization in
  match specialization with
  | Some (String c sp) =>
      sorted_by by_time rows
      /\ Permutation rows
           (filter (fun r => lower (slot_spec r) =? lower (String c sp))
                   (open_slots db))
      /\ forall r, In r rows <->
                   is_open_slot db r
                   /\ lower (slot_spec r) = lower (String c sp)
  | _ =>
      sorted_by by_spec_time rows
      /\ Permutation rows (open_slots db)
      /\ forall r, In r rows <-> is_open_slot db r
  end.
Proof.
  cbv zeta.
  assert (All : sorted_by by_spec_time (order_by by_spec_time (open_slots db))
                /\ Permutation (order_by by_spec_time (open_slots db))
                     (open_slots db)
                /\ forall r, In r (order_by by_spec_time (open_slots db))
                             <-> is_open_slot db r).
  { split; [apply order_by_sorted, by_spec_time_total|].
    split; [apply order_by_permutation|].
    intros r. rewrite <- open_slots_spec. split; apply Permutation_in;
      [|apply Permutation_sym]; apply order_by_permutation. }
  destruct specialization as [[|c sp]|]; [exact All | | exact All].
  cbn [get_slots_by_specialization].
  split; [apply order_by_sorted, by_time_total|].
  split; [apply order_by_permutation|].
  intros r. rewrite <- open_slots_spec, <- String.eqb_eq.
  rewrite <- (filter_In
                (fun r => lower (slot_spec r) =? lower (String c sp))).
  split; apply Permutation_in; [|apply Permutation_sym];
    apply order_by_permutation.
Qed.

(** X13.  [get_slots_by_doctors] does not query the store for an empty list
    of names, even when the store cannot be reached; for a non-empty list it
    raises what the store raises, or returns, each once and in ascending
    order of the text of the time slot, the open slots whose doctor is one
    of the names, case aside. *)
Theorem slots_by_doctors_are_theirs (w : world) (doctor_names : list string)
  (s : session) :
  match doctor_names, db_slots_by_doctors w with
  | [], _ => get_slots_by_doctors w doctor_names s = (Ok [], s)
  | _ :: _, Raise e => get_slots_by_doctors w doctor_names s = (Raise e, s)
  | _ :: _, Ok db =>
      exists rows,
        get_slots_by_doctors w doctor_names s = (Ok rows, s)
        /\ sorted_by by_time rows
        /\ forall r, In r rows <->
                     is_open_slot db r
                     /\ exists name, In name doctor_names
                                     /\ lower (slot_doctor r) = lower name
  end.
Proof.
  destruct doctor_names as [|d ds]; [reflexivity|].
  unfold get_slots_by_doctors, bind, lift, ret.
  destruct (db_slots_by_doctors w) as [db|e]; [|reflexivity].
  eexists. split; [reflexivity|]. unfold query_slots_by_doctors.
  split; [apply order_by_sorted, by_time_total|].
  intros r. rewrite <- open_slots_spec.
  assert (E : (exists name, In name (d :: ds)
                            /\ lower (slot_doctor r) = lower name)
              <-> existsb (fun n => lower (slot_doctor r) =? lower n) (d :: ds)
                  = true).
  { rewrite existsb_exists. split; intros (n & Hn & H); exists n;
      (split; [exact Hn|]); now apply String.eqb_eq. }
  rewrite E.
  rewrite <- (filter_In
                (fun r => existsb (fun n => lower (slot_doctor r) =? lower n)
                                  (d :: ds))).
  split; apply Permutation_in; [|apply Permutation_sym];
    apply order_by_permutation.
Qed.

Lemma join_contains (sep x : string) (l : list string) :
  In x l -> Substring x (join sep l).
Proof.
  unfold join. induction l as [|y l IH]; [intros []|].
  intros [->|Hin].
  - destruct l as [|z l]; simpl.
    + exists "", "". simpl. now rewrite append_nil_r.
    + now exists "", (sep ++ String.concat sep (z :: l)).
  - destruct l as [|z l]; [destruct Hin|].
    change (String.concat sep (y :: z :: l))
      with (y ++ sep ++ String.concat sep (z :: l)).
    destruct (IH Hin) as (a & b & E). rewrite E.
    exists (y ++ sep ++ a), b. now rewrite !append_assoc.
Qed.

Lemma group_append_has (spec name : string)
  (by_spec : list (string * list string)) :
  exists names, In (spec, names) (group_append spec name by_spec)
                /\ In name names.
Proof.
  induction by_spec as [|[key names] others IH]; simpl.
  - exists [name]. split; now left.
  - destruct (String.eqb_spec key spec) as [->|Hne].
    + exists (names ++ [name])%list. split; [now left|].
      apply in_or_app. right. now left.
    + destruct IH as (ns & Hin & Hn). exists ns. split; [now right | exact Hn].
Qed.

Lemma group_append_keeps (spec name key member : string)
  (names : list string) (by_spec : list (string * list string)) :
  In (key, names) by_spec -> In member names ->
  exists names', In (key, names') (group_append spec name by_spec)
                 /\ In member names'.
Proof.
  induction by_spec as [|[k ns] others IH]; [intros []|].
  intros [E|Hin] Hm; simpl.
  - injection E as -> ->. destruct (key =? spec).
    + exists (names ++ [name])%list. split; [now left|].
      apply in_or_app. now left.
    + exists names. split; [now left | exact Hm].
  - destruct (IH Hin Hm) as (names' & H1 & H2). destruct (k =? spec).
    + exists names. split; [now right | exact Hm].
    + exists names'. split; [now right | exact H2].
Qed.

Lemma grouped_rows_are_kept (rows : list doctor_row)
  (by_spec : list (string * list string)) :
  let groups :=
    fold_left (fun groups d =>
                 group_append (d_specialization d) (d_name d) groups)
              rows by_spec in
  (forall d, In d rows ->
     exists names, In (d_specialization d, names) groups
                   /\ In (d_name d) names)
  /\ (forall key names member,
        In (key, names) by_spec -> In member names ->
        exists names', In (key, names') groups /\ In member names').
Proof.
  cbv zeta. revert by_spec. induction rows as [|x rows IH]; intros by_spec.
  - split; [intros d [] | intros key names member H1 H2; now exists names].
  - simpl.
    destruct (IH (group_append (d_specialization x) (d_name x) by_spec))
      as [IH1 IH2].
    split.
    + intros d [<-|Hd]; [|now apply IH1].
      destruct (group_append_has (d_specialization x) (d_name x) by_spec)
        as (names & H1 & H2).
      now apply (IH2 _ names).
    + intros key names member H1 H2.
      destruct (group_append_keeps (d_specialization x) (d_name x)
                  key member names by_spec H1 H2) as (names' & H3 & H4).
      now apply (IH2 _ names').
Qed.

(** X11.  The roster text of the medical prompt names every doctor of the
    store under the doctor's specialization: for each row of [doctors] the
    text holds a line "- {specialization}: {names}" whose comma-separated
    names include the doctor's. *)
Theorem every_doctor_is_listed (db : store) (d : doctor_row) :
  In d (doctors db) ->
  exists names,
    In (d_name d) names
    /\ Substring ("- " ++ d_specialization d ++ ": " ++ join ", " names)
         (get_all_doctors_list db).
Proof.
  intros Hd. unfold get_all_doctors_list.
  assert (Hrow : In d (order_by by_spec_name (doctors db))).
  { apply Permutation_in with (l := doctors db);
      [apply Permutation_sym, order_by_permutation | exact Hd]. }
  destruct (order_by by_spec_name (doctors db)) as [|x rows] eqn:E;
    [destruct Hrow|].
  cbv zeta.
  destruct (grouped_rows_are_kept (x :: rows) []) as [Hgroups _].
  destruct (Hgroups d Hrow) as (names & Hg & Hn).
  exists names. split; [exact Hn|].
  apply join_contains. right.
  apply in_map_iff. exists (d_specialization d, names).
  split; [reflexivity|].
  apply Permutation_in with (2 := Hg).
  apply Permutation_sym, order_by_permutation.
Qed.

Lemma every_doctor_is_listed_witness :
  exists names,
    In "Dr. Moretti" names
    /\ Substring ("- Dermatology: " ++ join ", " names)
         (get_all_doctors_list Sample.roster).
Proof.
  apply (every_doctor_is_listed Sample.roster
           (mkDoctor "Dr. Moretti" "Dermatology")).
  simpl. tauto.
Defined.

(** ** The patient problem summary *)

Lemma length_substring_head (n : nat) (s : string) :
  (n <= String.length s)%nat -> String.length (substring 0 n s) = n.
Proof.
  revert s. induction n as [|n IH]; intros s H.
  - now destruct s.
  - destruct s as [|c s]; simpl in *; [lia|]. rewrite IH; lia.
Qed.

(** X14.  The problem summary stored with an appointment is never empty and
    never longer than 200 characters, whatever the file and whatever the
    model answers or raises. *)
Theorem patient_problem_is_short_and_not_empty
  (llm : string -> outcome string) (file : option string) (readable : bool) :
  let problem := generate_patient_problem_summary llm file readable in
  problem <> "" /\ (String.length problem <= 200)%nat.
Proof.
  cbv zeta. unfold generate_patient_problem_summary.
  destruct (strip (read_chat_history_from_file file readable) =? "");
    [split; [discriminate | simpl; lia]|].
  destruct (llm _) as [answer|e]; [|split; [discriminate | simpl; lia]].
  cbv zeta.
  destruct (200 <? String.length (strip answer))%nat eqn:E.
  - apply Nat.ltb_lt in E.
    assert (L : String.length (substring 0 197 (strip answer) ++ "...") = 200%nat).
    { rewrite length_append, length_substring_head by lia. reflexivity. }
    destruct (String.eqb_spec (substring 0 197 (strip answer) ++ "...") "")
      as [Heq|Hne].
    + rewrite Heq in L. discriminate L.
    + split; [exact Hne | lia].
  - apply Nat.ltb_ge in E.
    destruct (String.eqb_spec (strip answer) "") as [Heq|Hne].
    + split; [discriminate | simpl; lia].
    + split; [exact Hne | exact E].
Qed.

(** ** The booking endpoints *)

Section Bookings.

Variable db : store.

Lemma find_appointment_some (slot_id : Z) (a : appointment_row) :
  find_appointment slot_id db = Some a ->
  In a (appointments db) /\ a_id a = slot_id.
Proof.
  unfold find_appointment. intros H. apply find_some in H.
  destruct H as [Hin E]. split; [exact Hin | now apply Z.eqb_eq].
Qed.

Lemma find_appointment_none (slot_id : Z) (a : appointment_row) :
  find_appointment slot_id db = None ->
  In a (appointments db) -> a_id a <> slot_id.
Proof.
  unfold find_appointment. intros H Hin.
  apply (find_none _ _ H) in Hin. now apply Z.eqb_neq.
Qed.

Lemma distinct_ids_unique (a b : appointment_row) :
  distinct_ids db ->
  In a (appointments db) -> In b (appointments db) ->
  a_id a = a_id b -> a = b.
Proof.
  unfold distinct_ids. induction (appointments db) as [|x l IH]; [intros _ []|].
  simpl. intros Hnd Ha Hb E. apply NoDup_cons_iff in Hnd.
  destruct Hnd as [Hx Hnd].
  destruct Ha as [->|Ha], Hb as [->|Hb]; try reflexivity.
  - elim Hx. rewrite E. now apply in_map.
  - elim Hx. rewrite <- E. now apply in_map.
  - now apply IH.
Qed.

Lemma find_appointment_of (a : appointment_row) :
  distinct_ids db -> In a (appointments db) ->
  find_appointment (a_id a) db = Some a.
Proof.
  intros Hnd Hin.
  destruct (find_appointment (a_id a) db) as [b|] eqn:E.
  - apply find_appointment_some in E. destruct E as [Hb E].
    f_equal. now apply distinct_ids_unique.
  - now elim (find_appointment_none (a_id a) a E Hin).
Qed.

Lemma find_after_set_patient (patient : option string) (slot_id : Z) :
  find_appointment slot_id (set_patient patient slot_id db)
  = option_map
      (fun a => mkAppointment (a_id a) (a_doctor a) (a_time_slot a) patient)
      (find_appointment slot_id db).
Proof.
  unfold find_appointment, set_patient. simpl.
  induction (appointments db) as [|x l IH]; [reflexivity|]. simpl.
  destruct (a_id x =? slot_id)%Z eqn:E; simpl; rewrite E;
    [reflexivity | exact IH].
Qed.

Lemma set_patient_keeps_others (patient : option string) (slot_id : Z)
  (a : appointment_row) :
  In a (appointments db) -> a_id a <> slot_id ->
  In a (appointments (set_patient patient slot_id db)).
Proof.
  intros Hin Hne. unfold set_patient. simpl. apply in_map_iff.
  exists a. split; [|exact Hin].
  apply Z.eqb_neq in Hne. now rewrite Hne.
Qed.

Lemma set_patient_twice (p q : option string) (slot_id : Z) :
  set_patient q slot_id (set_patient p slot_id db) = set_patient q slot_id db.
Proof.
  unfold set_patient. simpl. f_equal. rewrite map_map.
  apply map_ext. intros a.
  destruct (a_id a =? slot_id)%Z eqn:E; simpl; now rewrite E.
Qed.

Lemma set_patient_same (slot_id : Z) (a : appointment_row) :
  distinct_ids db ->
  find_appointment slot_id db = Some a ->
  set_patient (a_patient a) slot_id db = db.
Proof.
  intros Hnd Hfind. apply find_appointment_some in Hfind.
  destruct Hfind as [Hin Hid].
  assert (E : map (fun b =>
                     if (a_id b =? slot_id)%Z
                     then mkAppointment (a_id b) (a_doctor b) (a_time_slot b)
                                        (a_patient a)
                     else b)
                  (appointments db)
              = appointments db).
  { rewrite <- (map_id (appointments db)) at 2.
    apply map_ext_in. intros b Hb.
    destruct (a_id b =? slot_id)%Z eqn:E; [|reflexivity].
    apply Z.eqb_eq in E.
    assert (b = a)
      by (apply distinct_ids_unique;
          [exact Hnd | exact Hb | exact Hin | congruence]).
    subst b. now destruct a. }
  unfold set_patient. rewrite E. now destruct db.
Qed.

(** X15.  [api_book_slot] books free slots only: it answers 200 exactly when
    the caller is logged in and the slot exists without a patient; on any
    other answer the store is unchanged; and in every case each appointment
    with another identifier, and each appointment that has a patient, is in
    the store afterwards as it was. *)
Theorem api_book_slot_books_free_slots_only (current_user : option string)
  (body_patient : body_value) (slot_id : Z) :
  distinct_ids db ->
  let reply := fst (api_book_slot current_user body_patient slot_id db) in
  let db' := snd (api_book_slot current_user body_patient slot_id db) in
  (fst reply = 200%nat <->
     current_user <> None
     /\ exists a, In a (appointments db) /\ a_id a = slot_id
                  /\ a_patient a = None)
  /\ (fst reply <> 200%nat -> db' = db)
  /\ (forall a, In a (appointments db) ->
        a_id a <> slot_id \/ a_patient a <> None ->
        In a (appointments db')).
Proof.
  intros Hnd. cbv zeta. unfold api_book_slot.
  destruct current_user as [user|]; simpl.
  2:{ split; [split; [discriminate | intros [H _]; now elim H]|].
      split; [reflexivity | intros a Ha _; exact Ha]. }
  destruct (find_appointment slot_id db) as [row|] eqn:Hfind; simpl.
  2:{ split; [split; [discriminate|]|].
      - intros (_ & a & Ha & Hid & _).
        now elim (find_appointment_none slot_id a Hfind Ha).
      - split; [reflexivity | intros a Ha _; exact Ha]. }
  pose proof (find_appointment_some slot_id row Hfind) as [Hrow Hid].
  destruct (a_patient row) as [p|] eqn:Hp; simpl.
  - split; [split; [discriminate|]|].
    + intros (_ & a & Ha & Hida & Hpa).
      assert (a = row)
        by (apply distinct_ids_unique; [exact Hnd | exact Ha | exact Hrow | congruence]).
      subst a. congruence.
    + split; [reflexivity | intros a Ha _; exact Ha].
  - split; [split; [intros _ | reflexivity]|].
    + split; [discriminate | now exists row].
    + split; [intros H; now elim H|].
      intros a Ha [Hne|Hbooked];
        [now apply set_patient_keeps_others|].
      apply set_patient_keeps_others; [exact Ha|].
      intros E. apply Hbooked.
      assert (a = row)
        by (apply distinct_ids_unique; [exact Hnd | exact Ha | exact Hrow | congruence]).
      now subst a.
Qed.

(** X16.  Booking then cancelling with the same request restores the store,
    for a request whose body names the patient by a string or not at all:
    when [api_book_slot] answers 200, [api_cancel_slot] on the resulting
    store, for the same caller, body and slot, answers 200 and gives back the
    store there was before the booking. *)
Theorem book_then_cancel_restores_the_store (user : string)
  (body_patient : option string) (slot_id : Z) :
  distinct_ids db ->
  fst (fst (api_book_slot (Some user) (body_of body_patient) slot_id db))
  = 200%nat ->
  let db' :=
    snd (api_book_slot (Some user) (body_of body_patient) slot_id db) in
  fst (fst (api_cancel_slot (Some user) body_patient slot_id db')) = 200%nat
  /\ snd (api_cancel_slot (Some user) body_patient slot_id db') = db.
Proof.
  intros Hnd. unfold api_book_slot, api_cancel_slot.
  destruct (find_appointment slot_id db) as [row|] eqn:Hfind; simpl;
    [|discriminate].
  destruct (a_patient row) as [p|] eqn:Hp; simpl; [discriminate|].
  intros _. rewrite find_after_set_patient, Hfind.
  destruct body_patient as [named|]; simpl;
    rewrite String.eqb_refl; simpl; (split; [reflexivity|]);
    rewrite set_patient_twice, <- Hp; now apply set_patient_same.
Qed.

(** X17.  [api_cancel_slot] compares the name under which the slot is booked
    with the name in the request body, and with the caller's name only when
    the body gives none: it answers 200 exactly when the slot is booked
    under that name, case aside; the slot then has no patient, and on any
    other answer the store is unchanged. *)
Theorem api_cancel_slot_checks_the_named_patient (user : string)
  (body_patient : option string) (slot_id : Z) :
  distinct_ids db ->
  let named := match body_patient with Some p => p | None => user end in
  let reply := fst (api_cancel_slot (Some user) body_patient slot_id db) in
  let db' := snd (api_cancel_slot (Some user) body_patient slot_id db) in
  (fst reply = 200%nat <->
     exists a booked_by,
       In a (appointments db) /\ a_id a = slot_id
       /\ a_patient a = Some booked_by /\ lower booked_by = lower named)
  /\ (fst reply = 200%nat ->
      forall a, In a (appointments db') -> a_id a = slot_id ->
                a_patient a = None)
  /\ (fst reply <> 200%nat -> db' = db).
Proof.
  intros Hnd. cbv zeta. unfold api_cancel_slot.
  destruct (find_appointment slot_id db) as [row|] eqn:Hfind; simpl.
  2:{ split; [split; [discriminate|]|split; [discriminate | reflexivity]].
      intros (a & b & Ha & Hid & _).
      now elim (find_appointment_none slot_id a Hfind Ha). }
  pose proof (find_appointment_some slot_id row Hfind) as [Hrow Hid].
  assert (Huniq : forall a, In a (appointments db) -> a_id a = slot_id -> a = row).
  { intros a Ha Hida.
    apply distinct_ids_unique; [exact Hnd | exact Ha | exact Hrow | congruence]. }
  destruct (a_patient row) as [p|] eqn:Hp; simpl.
  2:{ split; [split; [discriminate|]|split; [discriminate | reflexivity]].
      intros (a & b & Ha & Hida & Hpa & _).
      rewrite (Huniq a Ha Hida) in Hpa. congruence. }
  destruct (String.eqb_spec (lower p)
              (lower match body_patient with Some p0 => p0 | None => user end))
    as [Heq|Hne]; simpl.
  - split; [split; [intros _; now exists row, p | reflexivity]|].
    split; [|intros H; now elim H].
    intros _ a Ha Hida. unfold set_patient in Ha. simpl in Ha.
    apply in_map_iff in Ha. destruct Ha as (b & <- & Hb).
    destruct (a_id b =? slot_id)%Z eqn:E; [reflexivity|].
    apply Z.eqb_neq in E. contradiction.
  - split; [split; [discriminate|]|split; [discriminate | reflexivity]].
    intros (a & b & Ha & Hida & Hpa & Hl).
    rewrite (Huniq a Ha Hida) in Hpa. congruence.
Qed.

(** X18.  A slot that has just been booked is no longer offered: after
    [api_book_slot] answers 200 to a request whose body does not give [null]
    for the patient, no row of the slot queries bears the identifier of the
    slot.  With [null] the answer is 200 as well, but the store is left as it
    was, so the slot is still free. *)
Theorem booked_slot_is_not_offered (current_user : option string)
  (body_patient : body_value) (id : Z) :
  fst (fst (api_book_slot current_user body_patient id db)) = 200%nat ->
  (body_patient <> JsonNull ->
   Forall (fun r => slot_id r <> id)
     (open_slots (snd (api_book_slot current_user body_patient id db))))
  /\ (body_patient = JsonNull -> distinct_ids db ->
      snd (api_book_slot current_user body_patient id db) = db).
Proof.
  unfold api_book_slot. destruct current_user as [user|]; [|discriminate].
  destruct (find_appointment id db) as [row|] eqn:Hfind; [|discriminate].
  destruct (a_patient row) eqn:Hrow; [discriminate|]. simpl. intros _. split.
  - intros Hbody. apply Forall_forall. intros r Hr.
    apply open_slots_spec in Hr.
    destruct Hr as (a & d & Ha & _ & Hp & _ & ->). simpl in *.
    apply in_map_iff in Ha. destruct Ha as (b & <- & Hb).
    destruct (a_id b =? id)%Z eqn:E; simpl in *;
      [|now apply Z.eqb_neq].
    destruct body_patient; [discriminate | now elim Hbody | discriminate].
  - intros -> Hnd. rewrite <- Hrow. now apply set_patient_same.
Qed.

End Bookings.

Lemma reserve_on (USER_NAME : string) (id : Z) (db : store) :
  id <> 0%Z ->
  reserve USER_NAME (Some id) db
  = match find_appointment id db with
    | None => ((404%nat, "Unable to process request"), db)
    | Some row =>
        if truthy (a_patient row)
           && negb (lower (match a_patient row with Some p => p | None => "" end)
                    =? lower USER_NAME)
        then ((403%nat, "Unable to process request"), db)
        else
          ((200%nat, "Reservation successful"),
           if negb (truthy (a_patient row))
           then set_patient (Some USER_NAME) id db
           else db)
    end.
Proof. intros H. destruct id; [now elim H | reflexivity | reflexivity]. Qed.

Lemma cancel_on (USER_NAME : string) (id : Z) (db : store) :
  id <> 0%Z ->
  cancel USER_NAME (Some id) db
  = match find_appointment id db with
    | None => ((404%nat, "Unable to process request"), db)
    | Some row =>
        if truthy (a_patient row)
           && negb (lower (match a_patient row with Some p => p | None => "" end)
                    =? lower USER_NAME)
        then ((403%nat, "Unable to process request"), db)
        else ((200%nat, "Cancellation successful"), set_patient None id db)
    end.
Proof. intros H. destruct id; [now elim H | reflexivity | reflexivity]. Qed.

(** X19.  [reserve] is idempotent: repeating the request on the store it
    left gives the same answer and the same store. *)
Theorem reserve_is_idempotent (USER_NAME : string) (slot : option Z)
  (db : store) :
  reserve USER_NAME slot (snd (reserve USER_NAME slot db))
  = reserve USER_NAME slot db.
Proof.
  destruct slot as [id|]; [|reflexivity].
  destruct (Z.eq_dec id 0) as [->|Hne]; [reflexivity|].
  rewrite (reserve_on USER_NAME id db Hne).
  destruct (find_appointment id db) as [row|] eqn:Hfind;
    [|cbn [snd]; now rewrite reserve_on, Hfind].
  destruct (truthy (a_patient row)
            && negb (lower match a_patient row with
                           | Some p => p
                           | None => ""
                           end =? lower USER_NAME)) eqn:Hc;
    [cbn [snd]; now rewrite reserve_on, Hfind, Hc|].
  destruct (truthy (a_patient row)) eqn:Ht; cbn [negb snd].
  - rewrite reserve_on, Hfind, Ht, Hc by assumption. reflexivity.
  - rewrite reserve_on by assumption.
    rewrite find_after_set_patient, Hfind. cbn [option_map a_patient].
    rewrite String.eqb_refl. cbn [negb]. rewrite andb_false_r.
    destruct (truthy (Some USER_NAME)); cbn [negb];
      now rewrite ?set_patient_twice.
Qed.

(** X20.  Reserving a free slot and cancelling it restores the store, for
    every slot identifier but 0: the two endpoints read 0 as a missing
    identifier, so the slot numbered 0 can be neither reserved nor
    cancelled through them. *)
Theorem reserve_then_cancel_restores_the_store (USER_NAME : string) (id : Z)
  (db : store) (row : appointment_row) :
  distinct_ids db ->
  id <> 0%Z ->
  find_appointment id db = Some row ->
  a_patient row = None ->
  cancel USER_NAME (Some id) (snd (reserve USER_NAME (Some id) db))
  = ((200%nat, "Cancellation successful"), db)
  /\ reserve USER_NAME (Some 0%Z) db = ((400%nat, "Missing slot_id"), db)
  /\ cancel USER_NAME (Some 0%Z) db = ((400%nat, "Missing slot_id"), db).
Proof.
  intros Hnd Hne Hfind Hp. split; [|split; reflexivity].
  rewrite (reserve_on USER_NAME id db Hne), Hfind, Hp. cbn [truthy andb negb snd].
  rewrite cancel_on by assumption.
  rewrite find_after_set_patient, Hfind. cbn [option_map a_patient].
  rewrite String.eqb_refl. cbn [negb]. rewrite andb_false_r.
  rewrite set_patient_twice, <- Hp. f_equal.
  now apply set_patient_same.
Qed.

(** X21.  The two endpoints leave the slots of other users alone: an
    appointment held under a non-empty name other than [USER_NAME], case
    aside, is in the store after [reserve] and after [cancel] as it was
    before. *)
Theorem legacy_endpoints_keep_other_users_slots (USER_NAME : string)
  (slot : option Z) (db : store) (a : appointment_row) (holder : string) :
  distinct_ids db ->
  In a (appointments db) ->
  a_patient a = Some holder ->
  holder <> "" ->
  lower holder <> lower USER_NAME ->
  In a (appointments (snd (reserve USER_NAME slot db)))
  /\ In a (appointments (snd (cancel USER_NAME slot db))).
Proof.
  intros Hnd Ha Hp Hne Hother.
  destruct slot as [id|]; [|split; exact Ha].
  destruct (Z.eq_dec id 0) as [->|Hid]; [split; exact Ha|].
  rewrite reserve_on, cancel_on by assumption.
  destruct (find_appointment id db) as [row|] eqn:Hfind; [|split; exact Ha].
  pose proof (find_appointment_some db id row Hfind) as [Hrow Hrid].
  destruct (Z.eq_dec (a_id a) id) as [E|E].
  - assert (a = row)
      by (apply (distinct_ids_unique db);
          [exact Hnd | exact Ha | exact Hrow | congruence]).
    subst row. rewrite Hp.
    assert (Ht : truthy (Some holder) = true) by (now destruct holder).
    rewrite Ht. apply String.eqb_neq in Hother. rewrite Hother.
    split; exact Ha.
  - destruct (truthy (a_patient row)
              && negb (lower match a_patient row with
                             | Some p => p
                             | None => ""
                             end =? lower USER_NAME));
      [split; exact Ha|].
    cbn [snd]. split.
    + destruct (negb (truthy (a_patient row))); [|exact Ha].
      now apply set_patient_keeps_others.
    + now apply set_patient_keeps_others.
Qed.

(** *** The endpoints on the sample store *)

Lemma roster_has_distinct_ids : distinct_ids Sample.roster.
Proof.
  unfold distinct_ids. simpl.
  repeat constructor; simpl; intuition discriminate.
Defined.

Lemma api_book_slot_books_free_slots_only_witness :
  In (mkAppointment 2 "Dr. Ricci" "2026-11-04 15:30" (Some "Mario Rossi"))
    (appointments
       (snd (api_book_slot (Some "John Doe") Missing 2 Sample.roster))).
Proof.
  apply (proj2 (proj2 (api_book_slot_books_free_slots_only Sample.roster
                         (Some "John Doe") Missing 2
                         roster_has_distinct_ids))).
  - simpl. tauto.
  - right. discriminate.
Defined.

Lemma book_then_cancel_restores_the_store_witness :
  fst (fst (api_cancel_slot (Some "John Doe") (Some "Anna Verdi") 1
              (snd (api_book_slot (Some "John Doe") (JsonString "Anna Verdi")
                                  1 Sample.roster))))
  = 200%nat
  /\ snd (api_cancel_slot (Some "John Doe") (Some "Anna Verdi") 1
            (snd (api_book_slot (Some "John Doe") (JsonString "Anna Verdi")
                                1 Sample.roster)))
     = Sample.roster.
Proof.
  apply (book_then_cancel_restores_the_store Sample.roster "John Doe"
           (Some "Anna Verdi") 1 roster_has_distinct_ids).
  reflexivity.
Defined.

Lemma api_cancel_slot_checks_the_named_patient_witness :
  fst (fst (api_cancel_slot (Some "John Doe") (Some "mario rossi") 2
              Sample.roster))
  = 200%nat.
Proof.
  apply (proj2 (proj1 (api_cancel_slot_checks_the_named_patient Sample.roster
                         "John Doe" (Some "mario rossi") 2
                         roster_has_distinct_ids))).
  exists (mkAppointment 2 "Dr. Ricci" "2026-11-04 15:30" (Some "Mario Rossi")),
    "Mario Rossi".
  repeat split. simpl. tauto.
Defined.

Lemma booked_slot_is_not_offered_witness :
  Forall (fun r => slot_id r <> 1%Z)
    (open_slots
       (snd (api_book_slot (Some "John Doe") Missing 1 Sample.roster)))
  /\ snd (api_book_slot (Some "John Doe") JsonNull 1 Sample.roster)
     = Sample.roster.
Proof.
  split.
  - apply (proj1 (booked_slot_is_not_offered Sample.roster (Some "John Doe")
                    Missing 1 eq_refl)).
    discriminate.
  - apply (proj2 (booked_slot_is_not_offered Sample.roster (Some "John Doe")
                    JsonNull 1 eq_refl) eq_refl roster_has_distinct_ids).
Defined.

Lemma reserve_then_cancel_restores_the_store_witness :
  cancel "John Doe" (Some 1%Z)
    (snd (reserve "John Doe" (Some 1%Z) Sample.roster))
  = ((200%nat, "Cancellation successful"), Sample.roster).
Proof.
  apply (reserve_then_cancel_restores_the_store "John Doe" 1 Sample.roster
           (mkAppointment 1 "Dr. Fontana" "2026-11-05 09:00" None)
           roster_has_distinct_ids).
  - discriminate.
  - reflexivity.
  - reflexivity.
Defined.

Lemma legacy_endpoints_keep_other_users_slots_witness :
  In (mkAppointment 2 "Dr. Ricci" "2026-11-04 15:30" (Some "Mario Rossi"))
    (appointments (snd (cancel "John Doe" (Some 2%Z) Sample.roster))).
Proof.
  refine (proj2 (legacy_endpoints_keep_other_users_slots "John Doe"
                   (Some 2%Z) Sample.roster
                   (mkAppointment 2 "Dr. Ricci" "2026-11-04 15:30"
                                  (Some "Mario Rossi"))
                   "Mario Rossi" roster_has_distinct_ids _ eq_refl _ _)).
  - simpl. tauto.
  - discriminate.
  - discriminate.
Defined.

(* ------------------------------------------------------------------------- *)
(** ** Upload file names *)

Section UploadNames.

Lemma contains_dot_cons (c : ascii) (s : string) :
  contains "." (String c s) = (c =? ".")%char || contains "." s.
Proof.
  cbn [contains String.prefix].
  destruct (ascii_dec "." c) as [<-|Hc].
  - now destruct s.
  - destruct (Ascii.eqb_spec c "."); [congruence | reflexivity].
Qed.

Lemma rsplit_dot_without_dot (s : string) :
  contains "." s = false -> rsplit_dot s = [s].
Proof.
  induction s as [|c s IH]; [reflexivity|].
  rewrite contains_dot_cons. intros H. apply orb_false_iff in H.
  destruct H as [Hc Hs]. cbn [rsplit_dot]. rewrite (IH Hs), Hc. reflexivity.
Qed.

Lemma rsplit_dot_at_last_dot (stem ext : string) :
  contains "." ext = false -> rsplit_dot (stem ++ "." ++ ext) = [stem; ext].
Proof.
  intros H. induction stem as [|c stem IH].
  - simpl. now rewrite (rsplit_dot_without_dot ext H).
  - change (String c stem ++ "." ++ ext) with (String c (stem ++ "." ++ ext)).
    cbn [rsplit_dot]. now rewrite IH.
Qed.

Lemma contains_dot_append (stem ext : string) :
  contains "." (stem ++ "." ++ ext) = true.
Proof. apply contains_spec. now exists stem, ext. Qed.

(** X22. [allowed_file] looks at what follows the last dot, read without
    case: a name [stem.ext] whose [ext] has no dot is accepted exactly when
    [ext] in lower case is one of [ALLOWED_EXTENSIONS], whatever [stem] is;
    and the bare word [ext] is refused, even if it is an allowed extension. *)
Theorem allowed_file_reads_the_last_extension (stem ext : string) :
  contains "." ext = false ->
  (allowed_file (stem ++ "." ++ ext) = true
   <-> In (lower ext) ALLOWED_EXTENSIONS)
  /\ allowed_file ext = false.
Proof.
  intros H. split.
  - unfold allowed_file.
    rewrite contains_dot_append, (rsplit_dot_at_last_dot stem ext H).
    cbn [nth andb]. rewrite existsb_exists. split.
    + intros (x & Hin & Hx). apply String.eqb_eq in Hx. now subst x.
    + intros Hin. exists (lower ext). split; [assumption|].
      apply String.eqb_refl.
  - unfold allowed_file. now rewrite H.
Qed.

End UploadNames.

Lemma allowed_file_reads_the_last_extension_witness :
  allowed_file ("scan.2024" ++ "." ++ "PDF") = true
  /\ allowed_file "PDF" = false.
Proof.
  destruct (allowed_file_reads_the_last_extension "scan.2024" "PDF" eq_refl)
    as [H1 H2].
  split; [apply H1; vm_compute; tauto | exact H2].
Defined.

(* ------------------------------------------------------------------------- *)
(** ** The e-mail pattern *)

Section EmailPattern.

Lemma greedy_star_spec {X : Type} (cls : ascii -> bool) (input : string)
  (k : string -> option X) :
  (exists x, Cls.greedy_star cls input k = Some x)
  <-> exists a b, input = a ++ b /\ all_in cls a /\ exists x, k b = Some x.
Proof.
  induction input as [|c rest IH].
  - simpl. split.
    + intros H. exists "", "". repeat split; [apply all_in_nil | assumption].
    + intros (a & b & E & _ & H). destruct a; [|discriminate].
      simpl in E. now subst b.
  - cbn [Cls.greedy_star]. destruct (cls c) eqn:Hc.
    + destruct (Cls.greedy_star cls rest k) as [x|] eqn:Hg.
      * split; [intros _ | intros _; now exists x].
        destruct (proj1 IH (ex_intro _ x eq_refl)) as (a & b & E & Ha & Hk).
        exists (String c a), b. rewrite all_in_cons, E. now repeat split.
      * split.
        -- intros H. exists "", (String c rest).
           repeat split; [apply all_in_nil | assumption].
        -- intros (a & b & E & Ha & Hk). destruct a as [|d a].
           ++ simpl in E. now subst b.
           ++ simpl in E. inversion E; subst d rest.
              apply all_in_cons in Ha.
              assert (exists x, @None X = Some x) as [x Hx]
                by (apply IH; exists a, b; tauto).
              discriminate.
    + split.
      * intros H. exists "", (String c rest).
        repeat split; [apply all_in_nil | assumption].
      * intros (a & b & E & Ha & Hk). destruct a as [|d a].
        -- simpl in E. now subst b.
        -- simpl in E. inversion E; subst d. apply all_in_cons in Ha.
           destruct Ha; congruence.
Qed.

Lemma eat_class_spec (n : nat) (cls : ascii -> bool) (input rest : string) :
  Cls.eat_class n cls input = Some rest
  <-> exists a, input = a ++ rest /\ String.length a = n /\ all_in cls a.
Proof.
  revert input. induction n as [|n IH]; intros input; simpl.
  - split.
    + intros H. inversion H. exists "". repeat split. apply all_in_nil.
    + intros (a & E & L & _). destruct a; [|discriminate]. now subst.
  - destruct input as [|c input].
    + split; [discriminate|]. intros (a & E & L & _).
      destruct a; discriminate.
    + destruct (cls c) eqn:Hc.
      * rewrite IH. split.
        -- intros (a & E & L & Ha). exists (String c a).
           rewrite all_in_cons. simpl. subst. now repeat split.
        -- intros (a & E & L & Ha). destruct a as [|d a]; [discriminate|].
           simpl in E, L. inversion E; subst. apply all_in_cons in Ha.
           exists a. repeat split; [lia | tauto].
      * split; [discriminate|]. intros (a & E & L & Ha).
        destruct a as [|d a]; [discriminate|]. simpl in E.
        inversion E; subst. apply all_in_cons in Ha. destruct Ha; congruence.
Qed.

Lemma match_pattern_spec {X : Type} (p : Cls.pattern) :
  forall (input : string) (k : string -> option X),
    (exists x, Cls.match_pattern p input k = Some x)
    <-> exists a b,
          input = a ++ b /\ Cls.accepts p a b /\ exists x, k b = Some x.
Proof.
  induction p as [c | min cls | p1 IH1 p2 IH2 | ]; intros input k.
  - cbn [Cls.match_pattern Cls.accepts]. destruct input as [|d rest].
    + split; [intros [x H]; discriminate|].
      intros (a & b & E & -> & _). discriminate.
    + destruct (Ascii.eqb_spec c d) as [<-|Hcd].
      * split.
        -- intros H. exists (String c ""), rest. now repeat split.
        -- intros (a & b & E & -> & H). simpl in E. now inversion E.
      * split; [intros [x H]; discriminate|].
        intros (a & b & E & -> & _). simpl in E. inversion E. congruence.
  - cbn [Cls.match_pattern Cls.accepts].
    destruct (Cls.eat_class min cls input) as [rest|] eqn:He.
    + apply eat_class_spec in He. destruct He as (a0 & E0 & L0 & H0).
      rewrite greedy_star_spec. split.
      * intros (a & b & E & Ha & Hk). exists (a0 ++ a), b.
        rewrite append_assoc, <- E, length_append, all_in_append.
        repeat split; try assumption. lia.
      * intros (a & b & E & [L Ha] & Hk).
        (* the first [min] characters of [a] are [a0] *)
        rewrite E0 in E. subst min.
        assert (exists a', a = a0 ++ a') as [a' ->].
        { clear - E L. revert a E L.
          induction a0 as [|c a0 IH]; intros a E L.
          - now exists a.
          - destruct a as [|d a]; [simpl in L; lia|].
            simpl in E, L. inversion E. subst d.
            destruct (IH a) as [a' ->]; [assumption | lia |].
            now exists a'. }
        exists a', b. apply all_in_append in Ha.
        repeat split; try tauto.
        rewrite append_assoc in E. clear - E.
        induction a0; simpl in E; [assumption | inversion E; auto].
    + split; [intros [x H]; discriminate|].
      intros (a & b & E & [L Ha] & Hk).
      assert (exists a1 a2, a = a1 ++ a2 /\ String.length a1 = min)
        as (a1 & a2 & -> & L1).
      { clear - L. revert a L. induction min as [|n IH]; intros a L.
        - now exists "", a.
        - destruct a as [|c a]; [simpl in L; lia|].
          destruct (IH a) as (a1 & a2 & -> & L1); [simpl in L; lia|].
          exists (String c a1), a2. simpl. now rewrite L1. }
      apply all_in_append in Ha.
      assert (Cls.eat_class min cls input = Some (a2 ++ b)) as He'.
      { apply eat_class_spec. exists a1. rewrite E, append_assoc. tauto. }
      congruence.
  - cbn [Cls.match_pattern Cls.accepts]. rewrite IH1. split.
    + intros (a1 & b1 & E1 & H1 & Hk).
      apply IH2 in Hk. destruct Hk as (a2 & b & E2 & H2 & Hk).
      exists (a1 ++ a2), b. subst b1. rewrite append_assoc.
      repeat split; try assumption. now exists a1, a2.
    + intros (a & b & E & (a1 & a2 & -> & H1 & H2) & Hk).
      exists a1, (a2 ++ b). rewrite <- append_assoc.
      repeat split; try assumption. apply IH2. now exists a2, b.
  - cbn [Cls.match_pattern Cls.accepts].
    destruct ((input =? "") || (input =? nl)) eqn:Hd.
    + split.
      * intros H. exists "", input. repeat split; try assumption.
        apply orb_true_iff in Hd.
        destruct Hd as [Hd|Hd]; apply String.eqb_eq in Hd; tauto.
      * intros (a & b & E & [-> _] & Hk). now subst.
    + split; [intros [x H]; discriminate|].
      intros (a & b & E & [-> Hb] & _). simpl in E. subst b.
      apply orb_false_iff in Hd. destruct Hd as [H1 H2].
      apply String.eqb_neq in H1, H2. tauto.
Qed.

Lemma matches_spec (p : Cls.pattern) (s : string) :
  Cls.matches p s = true <-> exists a b, s = a ++ b /\ Cls.accepts p a b.
Proof.
  unfold Cls.matches. split.
  - intros H.
    destruct (Cls.match_pattern p s (fun _ => Some tt)) as [x|] eqn:E;
      [|discriminate].
    destruct (proj1 (match_pattern_spec p s _) (ex_intro _ x E))
      as (a & b & Hs & Ha & _).
    now exists a, b.
  - intros (a & b & Hs & Ha).
    destruct (proj2 (match_pattern_spec p s (fun _ => Some tt))) as [x ->];
      [|reflexivity].
    exists a, b. repeat split; try assumption. now exists tt.
Qed.

Lemma length_positive (s : string) : (1 <= String.length s)%nat <-> s <> "".
Proof. destruct s; simpl; split; try congruence; try lia. Qed.

Lemma email_pattern_spec (email : string) :
  Cls.matches EMAIL email = true <-> is_email_shaped email.
Proof.
  unfold is_email_shaped. rewrite matches_spec.
  unfold EMAIL. cbn [Cls.accepts]. split.
  - intros (a & b & E & local & a2 & -> & [L Hl] & at_ & a3 & -> & ->
            & domain & a4 & -> & [Ld Hd] & dot & a5 & -> & ->
            & tld & a6 & -> & [Lt Ht] & -> & Hb).
    exists local, domain, tld, b. rewrite append_nil_r in E.
    rewrite !append_assoc in E. rewrite <- !length_positive.
    repeat split; assumption.
  - intros (local & domain & tld & tail & E & Hl1 & Hl & Hd1 & Hd & Lt & Ht
            & Htail).
    exists (local ++ "@" ++ domain ++ "." ++ tld), tail.
    split; [now rewrite E, !append_assoc|].
    exists local, ("@" ++ domain ++ "." ++ tld). rewrite length_positive.
    repeat split; try assumption.
    exists "@", (domain ++ "." ++ tld). repeat split.
    exists domain, ("." ++ tld). rewrite length_positive.
    repeat split; try assumption.
    exists ".", tld. repeat split.
    exists tld, "". rewrite append_nil_r. repeat split; assumption.
Qed.

(** X23. [validate_email] accepts exactly the strings of the shape
    [local@domain.tld], with a non-empty [local] part of letters, digits and
    [._%+-], a non-empty [domain] of letters, digits, dots and hyphens, and a
    [tld] of at least two letters, possibly followed by one line break. *)
Theorem validate_email_accepts_the_shape (email : string) :
  validate_email email = true <-> is_email_shaped email.
Proof. apply email_pattern_spec. Qed.

Lemma append_last_inj (a b : string) (c d : ascii) :
  a ++ String c "" = b ++ String d "" -> a = b /\ c = d.
Proof.
  revert b. induction a as [|x a IH]; intros [|y b] H; simpl in H.
  - inversion H. now split.
  - inversion H. destruct b; discriminate.
  - inversion H. destruct a; discriminate.
  - inversion H. destruct (IH b) as [-> ->]; [assumption | now split].
Qed.

Lemma last_character (s : string) :
  s <> "" -> exists s' c, s = s' ++ String c "".
Proof.
  induction s as [|x s IH]; [congruence|]. intros _.
  destruct s as [|y s].
  - now exists "", x.
  - destruct IH as (s' & c & E); [discriminate|].
    exists (String x s'), c. simpl. now rewrite E.
Qed.

(** X24. [validate_email] does not tell an address from the same address
    followed by a line break: on a string without line break, appending one
    does not change the answer. *)
Theorem validate_email_ignores_a_final_line_break (email : string) :
  contains nl email = false ->
  validate_email (email ++ nl) = validate_email email.
Proof.
  intros Hnl. unfold validate_email. apply Bool.eq_iff_eq_true.
  rewrite !email_pattern_spec. split.
  - intros (local & domain & tld & tail & E & Hl1 & Hl & Hd1 & Hd & Lt & Ht
            & [-> | ->]).
    + (* the pattern would end on the line break: it is no letter *)
      exfalso. destruct (last_character tld) as (t & c & ->).
      { destruct tld; [simpl in Lt; lia | discriminate]. }
      apply all_in_append in Ht. destruct Ht as [_ Hc].
      apply all_in_cons in Hc. destruct Hc as [Hc _].
      rewrite append_nil_r in E.
      replace (local ++ "@" ++ domain ++ "." ++ t ++ String c "")
        with ((local ++ "@" ++ domain ++ "." ++ t) ++ String c "") in E
        by (now rewrite !append_assoc).
      apply append_last_inj in E. destruct E as [_ <-]. discriminate.
    + exists local, domain, tld, "".
      replace (local ++ "@" ++ domain ++ "." ++ tld ++ nl)
        with ((local ++ "@" ++ domain ++ "." ++ tld) ++ nl) in E
        by (now rewrite !append_assoc).
      apply append_last_inj in E. destruct E as [-> _].
      rewrite append_nil_r.
      repeat split; try assumption. now left.
  - intros (local & domain & tld & tail & E & Hl1 & Hl & Hd1 & Hd & Lt & Ht
            & [-> | ->]).
    + exists local, domain, tld, nl. rewrite E, append_nil_r, ?append_assoc.
      repeat split; try assumption. now right.
    + exfalso.
      assert (contains nl email = true); [|congruence].
      apply contains_spec. exists (local ++ "@" ++ domain ++ "." ++ tld), "".
      now rewrite E, !append_nil_r, !append_assoc.
Qed.

End EmailPattern.

Lemma validate_email_ignores_a_final_line_break_witness :
  validate_email ("anna.verdi@email.com" ++ nl)
  = validate_email "anna.verdi@email.com".
Proof.
  apply (validate_email_ignores_a_final_line_break "anna.verdi@email.com").
  reflexivity.
Defined.

(* ------------------------------------------------------------------------- *)
(** ** Registration and login *)

Section Accounts.

Variable pbkdf2 : string -> string -> string.
Variable str_lower : string -> string.

(** On ASCII text Python's [str.lower] is the lower-casing of A to Z. *)
Hypothesis str_lower_on_ascii :
  forall s, all_in is_ascii s -> str_lower s = lower s.

Lemma lower_char_idempotent (c : ascii) :
  lower_char (lower_char c) = lower_char c.
Proof. destruct c as [[] [] [] [] [] [] [] []]; reflexivity. Qed.

Lemma lower_idempotent (s : string) : lower (lower s) = lower s.
Proof.
  induction s as [|c s IH]; simpl; [reflexivity|].
  now rewrite lower_char_idempotent, IH.
Qed.

Lemma all_in_impl (cls cls' : ascii -> bool) (s : string) :
  (forall c, cls c = true -> cls' c = true) -> all_in cls s -> all_in cls' s.
Proof. intros H. unfold all_in. apply Forall_impl. exact H. Qed.

Lemma email_characters_are_ascii (c : ascii) :
  is_local_char c = true \/ is_domain_char c = true \/ is_letter c = true ->
  is_ascii c = true.
Proof.
  destruct c as [[] [] [] [] [] [] [] []]; vm_compute; intuition congruence.
Qed.

Lemma valid_email_is_ascii (email : string) :
  validate_email email = true -> all_in is_ascii email.
Proof.
  intros H. apply email_pattern_spec in H.
  destruct H as (local & domain & tld & tail & -> & _ & Hl & _ & Hd & _ & Ht
                 & Htail).
  rewrite !all_in_append. repeat split.
  - revert Hl. apply all_in_impl. intros c Hc.
    apply email_characters_are_ascii. tauto.
  - now apply all_in_literal.
  - revert Hd. apply all_in_impl. intros c Hc.
    apply email_characters_are_ascii. tauto.
  - now apply all_in_literal.
  - revert Ht. apply all_in_impl. intros c Hc.
    apply email_characters_are_ascii. tauto.
  - destruct Htail as [-> | ->]; now apply all_in_literal.
Qed.

Lemma password_errors (password : string) :
  fst (validate_password_strength password) = false ->
  exists m, snd (validate_password_strength password)
            = Some ("Password must " ++ m).
Proof.
  unfold validate_password_strength.
  repeat match goal with
         | |- context [if ?b then _ else _] => destruct b
         end; simpl; intros H; try discriminate; eauto.
Qed.

(** What [register_user] does for an ASCII user name: a refusal that is no
    database error and leaves the table alone, or the insert of the row with
    the name and the address in lower case. *)
Lemma register_user_cases
  (fresh_salt username email password full_name role : string)
  (users : list user_row) :
  all_in is_ascii username ->
  (exists e,
      register_user pbkdf2 str_lower fresh_salt username email password
                    full_name role users = (Refused e, users)
      /\ forall msg, e <> "Database error: " ++ msg)
  \/ (register_user pbkdf2 str_lower fresh_salt username email password
                    full_name role users
      = (Registered (next_user_id users),
         (users ++ [registered_row pbkdf2 str_lower fresh_salt username email
                                   password full_name role users])%list)
      /\ existsb (fun u => lower (u_username u) =? lower username) users
         = false
      /\ existsb (fun u => lower (u_email u) =? lower email) users = false
      /\ str_lower username = lower username
      /\ str_lower email = lower email).
Proof.
  intros Hname.
  unfold register_user, registered_row, hash_password. cbn [fst].
  destruct ((username =? "") || (String.length username <? 3)%nat);
    [left; eexists; split; [reflexivity | discriminate]|].
  destruct (validate_email email) eqn:Hmail; cbn [negb];
    [|left; eexists; split; [reflexivity | discriminate]].
  apply valid_email_is_ascii in Hmail.
  pose proof (password_errors password) as Hp.
  destruct (validate_password_strength password) as [[] error]; cbn [negb].
  2:{ destruct (Hp eq_refl) as [m Hm]. simpl in Hm. subst error.
      left; eexists; split; [reflexivity | discriminate]. }
  destruct ((full_name =? "") || (String.length full_name <? 2)%nat);
    [left; eexists; split; [reflexivity | discriminate]|].
  destruct (negb (existsb (String.eqb role) ["patient"; "doctor"; "admin"]));
    [left; eexists; split; [reflexivity | discriminate]|].
  destruct (existsb (fun u => lower (u_username u) =? lower username) users)
    eqn:Hu; [left; eexists; split; [reflexivity | discriminate]|].
  destruct (existsb (fun u => lower (u_email u) =? lower email) users)
    eqn:He; [left; eexists; split; [reflexivity | discriminate]|].
  rewrite (str_lower_on_ascii username Hname).
  rewrite (str_lower_on_ascii email Hmail).
  destruct (existsb (fun u => u_username u =? lower username) users) eqn:Hu'.
  { exfalso. apply existsb_exists in Hu'. destruct Hu' as (u & Hin & Hx).
    apply String.eqb_eq in Hx.
    assert (existsb (fun u => lower (u_username u) =? lower username) users
            = true); [|congruence].
    apply existsb_exists. exists u. split; [assumption|].
    rewrite Hx, lower_idempotent. apply String.eqb_refl. }
  destruct (existsb (fun u => u_email u =? lower email) users) eqn:He'.
  { exfalso. apply existsb_exists in He'. destruct He' as (u & Hin & Hx).
    apply String.eqb_eq in Hx.
    assert (existsb (fun u => lower (u_email u) =? lower email) users
            = true); [|congruence].
    apply existsb_exists. exists u. split; [assumption|].
    rewrite Hx, lower_idempotent. apply String.eqb_refl. }
  right. repeat split.
Qed.

(** X25. For an ASCII user name, the checks [register_user] makes before the
    insert cover the [UNIQUE] constraints of the table: whatever the table
    holds, it does not answer with a database error; and when it refuses,
    the table is left as it was.  (On other names Python's [lower] and
    SQLite's [LOWER] part, and the constraint can fire.) *)
Theorem register_user_never_hits_a_constraint
  (fresh_salt username email password full_name role : string)
  (users : list user_row) :
  all_in is_ascii username ->
  (forall msg,
      fst (register_user pbkdf2 str_lower fresh_salt username email password
                         full_name role users)
      <> Refused ("Database error: " ++ msg))
  /\ (forall e,
        fst (register_user pbkdf2 str_lower fresh_salt username email
                           password full_name role users) = Refused e ->
        snd (register_user pbkdf2 str_lower fresh_salt username email
                           password full_name role users) = users).
Proof.
  intros Hname.
  destruct (register_user_cases fresh_salt username email password full_name
                                role users Hname)
    as [(e & -> & He) | [-> _]].
  - split; [|reflexivity]. intros msg H. inversion H. now apply (He msg).
  - split; [discriminate|]. intros e H. discriminate.
Qed.

Lemma absent_of_existsb {A : Type} (f : A -> bool) (l : list A) :
  existsb f l = false -> forall x, In x l -> f x = false.
Proof.
  intros H x Hin. destruct (f x) eqn:E; [|reflexivity].
  assert (existsb f l = true) by (apply existsb_exists; eauto). congruence.
Qed.

Lemma NoDup_snoc {A : Type} (l : list A) (x : A) :
  NoDup l -> ~ In x l -> NoDup (l ++ [x]).
Proof.
  intros Hl Hx. apply (Permutation_NoDup (l := x :: l)).
  - apply Permutation_cons_append.
  - now constructor.
Qed.

(** X26. Registration under an ASCII user name keeps user names and e-mail
    addresses unique without regard to case: if no two rows of the table
    share a name or an address, case aside, the same holds after the call
    of [register_user]. *)
Theorem register_user_keeps_accounts_distinct
  (fresh_salt username email password full_name role : string)
  (users : list user_row) :
  all_in is_ascii username ->
  distinct_usernames users -> distinct_emails users ->
  distinct_usernames
    (snd (register_user pbkdf2 str_lower fresh_salt username email password
                        full_name role users))
  /\ distinct_emails
       (snd (register_user pbkdf2 str_lower fresh_salt username email
                           password full_name role users)).
Proof.
  intros Hname Hn He.
  destruct (register_user_cases fresh_salt username email password full_name
                                role users Hname)
    as [(e & -> & _) | (-> & Hu & Hm & En & Em)]; [now split|].
  unfold distinct_usernames, distinct_emails. cbn [snd].
  rewrite !map_app. cbn [map registered_row u_username u_email].
  rewrite En, Em, !lower_idempotent. split; apply NoDup_snoc; try assumption.
  - intros Hin. apply in_map_iff in Hin. destruct Hin as (u & Hx & Hin).
    pose proof (absent_of_existsb _ _ Hu u Hin) as H. simpl in H.
    rewrite Hx, String.eqb_refl in H. discriminate.
  - intros Hin. apply in_map_iff in Hin. destruct Hin as (u & Hx & Hin).
    pose proof (absent_of_existsb _ _ Hm u Hin) as H. simpl in H.
    rewrite Hx, String.eqb_refl in H. discriminate.
Qed.

Lemma find_app {A : Type} (f : A -> bool) (l l' : list A) :
  find f (l ++ l') = match find f l with
                     | Some x => Some x
                     | None => find f l'
                     end.
Proof.
  induction l as [|x l IH]; simpl; [reflexivity|]. now destruct (f x).
Qed.

Lemma find_none_of {A : Type} (f : A -> bool) (l : list A) :
  (forall x, In x l -> f x = false) -> find f l = None.
Proof.
  intros H. destruct (find f l) as [x|] eqn:E; [|reflexivity].
  apply find_some in E. destruct E as [Hin Hx]. rewrite (H x Hin) in Hx.
  discriminate.
Qed.

Lemma next_user_id_is_fresh (users : list user_row) :
  (0 < next_user_id users)%Z
  /\ forall u, In u users -> (u_id u < next_user_id users)%Z.
Proof.
  unfold next_user_id.
  induction users as [|v users [IH0 IH]]; cbn [map fold_right].
  - split; [lia | intros u []].
  - split; [lia|]. intros u [<- | Hin]; [lia|]. specialize (IH u Hin). lia.
Qed.

(** X27. An account registered under an ASCII user name can be used at
    once.  After a successful [register_user] (whose digest is, as a
    hexadecimal string is, ASCII), [login_user] with the same password and
    with the user name in any case (when no other account has it as e-mail
    address), or with the e-mail address in any case (when no other account
    has it as user name), succeeds, stores the new user id in the session,
    and [get_current_user] then returns the account as registered: name and
    address in lower case, role and full name as given. *)
Theorem registered_user_can_log_in
  (fresh_salt username email password full_name role : string)
  (users : list user_row) (id : Z) (x : string) (session_user : option Z) :
  let users' :=
    snd (register_user pbkdf2 str_lower fresh_salt username email password
                       full_name role users) in
  let info := mkUserInfo id (lower username) (lower email) role full_name in
  all_in is_ascii username ->
  ascii_only (pbkdf2 password fresh_salt) = true ->
  fst (register_user pbkdf2 str_lower fresh_salt username email password
                     full_name role users) = Registered id ->
  (lower x = lower username
   /\ forall u, In u users -> lower (u_email u) <> lower username)
  \/ (lower x = lower email
      /\ forall u, In u users -> lower (u_username u) <> lower email) ->
  login_user pbkdf2 x password users' session_user
  = (Ok (true, None, Some info), Some id)
  /\ get_current_user (Some id) users' = Some info.
Proof.
  intros users' info Hname Hhex Hreg Hx. subst users' info.
  destruct (register_user_cases fresh_salt username email password full_name
                                role users Hname)
    as [(e & E & _) | (E & Hu & Hm & En & Em)]; rewrite E in *;
    [discriminate|].
  cbn [fst snd] in *. inversion Hreg as [Hid]. clear Hreg.
  destruct (next_user_id_is_fresh users) as [Hpos Hfresh].
  unfold registered_row. rewrite En, Em.
  split.
  - unfold login_user. rewrite find_app.
    rewrite find_none_of.
    + cbn [find u_username u_email u_password_hash u_password_salt
           u_id info_of u_role u_full_name hash_password fst].
      rewrite !lower_idempotent.
      replace ((lower username =? lower x) || (lower email =? lower x))
        with true.
      * unfold verify_password, hash_password, compare_digest.
        cbn [u_password_hash u_password_salt].
        rewrite Hhex, String.eqb_refl. reflexivity.
      * symmetry. apply orb_true_iff.
        destruct Hx as [[-> _] | [-> _]]; [left | right];
          apply String.eqb_refl.
    + intros u Hin. apply orb_false_iff.
      pose proof (absent_of_existsb _ _ Hu u Hin) as H1.
      pose proof (absent_of_existsb _ _ Hm u Hin) as H2.
      simpl in H1, H2.
      destruct Hx as [[-> Hother] | [-> Hother]].
      * split; [assumption|]. apply String.eqb_neq. now apply Hother.
      * split; [|assumption]. apply String.eqb_neq. now apply Hother.
  - unfold get_current_user.
    destruct (next_user_id users) as [|p|p] eqn:En'; try lia.
    rewrite <- En'. unfold get_user_by_id. rewrite find_app.
    rewrite find_none_of.
    + cbn [find u_id]. rewrite Z.eqb_refl. reflexivity.
    + intros u Hin. apply Z.eqb_neq. specialize (Hfresh u Hin). lia.
Qed.

End Accounts.

Lemma latin1_lower_on_ascii (s : string) :
  all_in is_ascii s -> SampleAccounts.latin1_lower s = lower s.
Proof.
  induction s as [|c s IH]; [reflexivity|].
  rewrite all_in_cons. intros [Hc Hs]. cbn [SampleAccounts.latin1_lower lower].
  rewrite (IH Hs). f_equal. clear - Hc.
  destruct c as [[] [] [] [] [] [] [] []]; vm_compute in Hc |- *;
    congruence.
Defined.

Lemma register_user_never_hits_a_constraint_witness :
  fst (register_user SampleAccounts.digest SampleAccounts.latin1_lower "a9"
                     "ROSSI" "m.rossi@email.com" "Password123!"
                     "Maria Rossi" "patient" SampleAccounts.accounts)
  <> Refused ("Database error: "
              ++ "UNIQUE constraint failed: users.username")
  /\ snd (register_user SampleAccounts.digest SampleAccounts.latin1_lower
                        "a9" "ROSSI" "m.rossi@email.com" "Password123!"
                        "Maria Rossi" "patient" SampleAccounts.accounts)
     = SampleAccounts.accounts.
Proof.
  destruct (register_user_never_hits_a_constraint
              SampleAccounts.digest SampleAccounts.latin1_lower
              latin1_lower_on_ascii "a9" "ROSSI" "m.rossi@email.com"
              "Password123!" "Maria Rossi" "patient" SampleAccounts.accounts)
    as [H1 H2].
  - now apply all_in_literal.
  - split; [apply H1 | apply (H2 "Username already exists"); reflexivity].
Defined.

Lemma register_user_keeps_accounts_distinct_witness :
  distinct_usernames SampleAccounts.with_verdi
  /\ distinct_emails SampleAccounts.with_verdi.
Proof.
  apply (register_user_keeps_accounts_distinct
           SampleAccounts.digest SampleAccounts.latin1_lower
           latin1_lower_on_ascii "a9" "Verdi" "Anna.Verdi@email.com"
           "Password123!" "Anna Verdi" "patient" SampleAccounts.accounts).
  - now apply all_in_literal.
  - constructor; [intros [] | constructor].
  - constructor; [intros [] | constructor].
Defined.

Lemma registered_user_can_log_in_witness :
  login_user SampleAccounts.digest "VERDI" "Password123!"
             SampleAccounts.with_verdi None
  = (Ok (true, None,
         Some (mkUserInfo 2 "verdi" "anna.verdi@email.com" "patient"
                          "Anna Verdi")),
     Some 2%Z)
  /\ get_current_user (Some 2%Z) SampleAccounts.with_verdi
     = Some (mkUserInfo 2 "verdi" "anna.verdi@email.com" "patient"
                        "Anna Verdi").
Proof.
  apply (registered_user_can_log_in
           SampleAccounts.digest SampleAccounts.latin1_lower
           latin1_lower_on_ascii "a9" "Verdi" "Anna.Verdi@email.com"
           "Password123!" "Anna Verdi" "patient" SampleAccounts.accounts
           2%Z "VERDI" None).
  - now apply all_in_literal.
  - reflexivity.
  - reflexivity.
  - left. split; [reflexivity|].
    intros u [<- | []]. discriminate.
Defined.

(** Outside ASCII the two case foldings part, and the three properties
    fail.  A user name that begins with a capital A with grave accent is
    stored with the small letter, which SQLite's [LOWER] tells from the
    capital: registering the name a second time passes the check and hits
    the constraint; beside a row that holds the small letter followed by
    "BC" it gives two names equal case aside; and the login under the
    registered name finds no row. *)
Lemma non_ascii_names_escape_the_checks :
  let register name mail users :=
    register_user SampleAccounts.digest SampleAccounts.latin1_lower "a9"
                  name mail "Password123!" "Abc Grave" "patient" users in
  let once := snd (register SampleAccounts.abc_grave "abc@email.com" []) in
  let small_bc :=
    mkUser 1 (String (ascii_of_nat 224) "BC") "x@email.com" "" "" "patient"
           "X" in
  fst (register SampleAccounts.abc_grave "abc2@email.com" once)
  = Refused "Database error: UNIQUE constraint failed: users.username"
  /\ ~ distinct_usernames
         (snd (register SampleAccounts.abc_grave "abc@email.com" [small_bc]))
  /\ login_user SampleAccounts.digest SampleAccounts.abc_grave "Password123!"
                once None
     = (Ok (false, Some "Invalid username or password", None), None).
Proof.
  cbv zeta. split; [reflexivity|]. split; [|reflexivity].
  unfold distinct_usernames. vm_compute. intros H.
  inversion H as [|x l Hx _]. apply Hx. now left.
Qed.

(* ------------------------------------------------------------------------- *)
(** ** Look-ups by name *)

Section LikeFacts.

Lemma lower_append (a b : string) : lower (a ++ b) = lower a ++ lower b.
Proof. induction a as [|c a IH]; simpl; [reflexivity | now rewrite IH]. Qed.

Lemma lower_char_wildcard (c : ascii) :
  (lower_char c =? "%")%char = (c =? "%")%char
  /\ (lower_char c =? "_")%char = (c =? "_")%char.
Proof. destruct c as [[] [] [] [] [] [] [] []]; split; reflexivity. Qed.

Lemma no_wildcard_cons (c : ascii) (name : string) :
  no_wildcard (String c name)
  <-> ((c =? "%")%char = false /\ (c =? "_")%char = false)
      /\ no_wildcard name.
Proof.
  unfold no_wildcard. rewrite !contains_char_cons, !orb_false_iff. tauto.
Qed.

Lemma no_wildcard_lower (name : string) :
  no_wildcard name -> no_wildcard (lower name).
Proof.
  induction name as [|c name IH]; [trivial|]. cbn [lower].
  rewrite !no_wildcard_cons. intros [[H1 H2] H].
  destruct (lower_char_wildcard c) as [-> ->]. auto.
Qed.

Lemma like_percent (text : string) : like "%" text = true.
Proof.
  cbn [like]. rewrite Ascii.eqb_refl.
  induction text as [|c text IH]; [reflexivity|].
  cbn [any_suffix like]. exact IH.
Qed.

Lemma like_prefix (name text : string) :
  no_wildcard name ->
  like (name ++ "%") text = String.prefix (lower name) (lower text).
Proof.
  revert text. induction name as [|c name IH]; intros text Hn.
  - rewrite like_percent. now destruct text.
  - apply no_wildcard_cons in Hn. destruct Hn as [[H1 H2] Hn].
    change (String c name ++ "%") with (String c (name ++ "%")).
    cbn [like lower]. rewrite H1, H2. destruct text as [|d text].
    + reflexivity.
    + cbn [lower String.prefix orb]. rewrite (IH text Hn).
      destruct (Ascii.eqb_spec (lower_char c) (lower_char d)) as [E|E];
        destruct (ascii_dec (lower_char c) (lower_char d));
        try reflexivity; contradiction.
Qed.

Lemma like_contains (name text : string) :
  no_wildcard name ->
  like ("%" ++ name ++ "%") text = contains (lower name) (lower text).
Proof.
  intros Hn. change ("%" ++ name ++ "%") with (String "%" (name ++ "%")).
  cbn [like]. rewrite Ascii.eqb_refl.
  induction text as [|d text IH]; cbn [any_suffix contains lower].
  - rewrite (like_prefix name "" Hn). cbn [lower].
    now destruct (String.prefix (lower name) "").
  - rewrite (like_prefix name (String d text) Hn), IH. cbn [lower].
    now destruct (String.prefix (lower name) (String (lower_char d) (lower text))).
Qed.

Lemma lower_like_contains (name value : string) :
  no_wildcard name ->
  lower_like (Some value) ("%" ++ name ++ "%")
  = contains (lower name) (lower value).
Proof.
  intros Hn. unfold lower_like. rewrite !lower_append.
  change (lower "%") with "%".
  rewrite (like_contains (lower name) (lower value) (no_wildcard_lower _ Hn)).
  now rewrite !lower_idempotent.
Qed.

Lemma joined_where_spec (keep : appointment_row -> bool) (db : store)
  (r : slot) :
  In r (joined_where keep db)
  <-> exists a d,
        In a (appointments db) /\ In d (doctors db)
        /\ keep a = true /\ a_doctor a = d_name d
        /\ r = mkSlot (a_id a) (a_doctor a) (a_time_slot a)
                      (d_specialization d).
Proof.
  unfold joined_where. rewrite in_flat_map. split.
  - intros (a & Ha & Hr). destruct (keep a) eqn:Hk; [|destruct Hr].
    apply in_map_iff in Hr. destruct Hr as (d & <- & Hd).
    apply filter_In in Hd. destruct Hd as [Hd E].
    apply String.eqb_eq in E. now exists a, d.
  - intros (a & d & Ha & Hd & Hk & E & ->). exists a. split; [exact Ha|].
    rewrite Hk. apply in_map_iff. exists d. split; [reflexivity|].
    apply filter_In. split; [exact Hd | now apply String.eqb_eq].
Qed.

(** X28. The appointment list that [get_user_appointments] hands to the
    summary is not limited to the user: for a name without [%] and [_], it
    holds the line of every appointment whose patient name contains the
    user's name, case aside, and whose doctor is in the table of doctors;
    and it is ["None"] when there is no such patient name among the
    appointments. *)
Theorem get_user_appointments_match_by_containment (db : store)
  (user_name : string) :
  no_wildcard user_name ->
  (forall a d booked_by,
      In a (appointments db) -> In d (doctors db) ->
      a_doctor a = d_name d -> a_patient a = Some booked_by ->
      Substring (lower user_name) (lower booked_by) ->
      Substring (a_doctor a ++ " (" ++ d_specialization d ++ ") - "
                 ++ a_time_slot a)
                (get_user_appointments (Ok db) user_name))
  /\ ((forall a booked_by,
          In a (appointments db) -> a_patient a = Some booked_by ->
          ~ Substring (lower user_name) (lower booked_by)) ->
      get_user_appointments (Ok db) user_name = "None").
Proof.
  intros Hn. unfold get_user_appointments. split.
  - intros a d booked_by Ha Hd E Hp Hsub.
    set (keep := fun a => lower_like (a_patient a) ("%" ++ user_name ++ "%")).
    set (r := mkSlot (a_id a) (a_doctor a) (a_time_slot a)
                     (d_specialization d)).
    assert (Hr : In r (order_by by_time (joined_where keep db))).
    { apply (Permutation_in _ (Permutation_sym (order_by_permutation _ _))).
      apply joined_where_spec. exists a, d. repeat split; try assumption.
      unfold keep. rewrite Hp, (lower_like_contains _ _ Hn).
      now apply contains_spec. }
    destruct (order_by by_time (joined_where keep db)) as [|r0 rows] eqn:Er;
      [destruct Hr|].
    apply join_contains.
    apply (in_map (fun r => slot_doctor r ++ " (" ++ slot_spec r ++ ") - "
                            ++ slot_time r) _ r Hr).
  - intros Hnone.
    set (keep := fun a => lower_like (a_patient a) ("%" ++ user_name ++ "%")).
    assert (E : joined_where keep db = []).
    { destruct (joined_where keep db) as [|r rows] eqn:Er; [reflexivity|].
      assert (Hr : In r (joined_where keep db)) by (rewrite Er; now left).
      apply joined_where_spec in Hr.
      destruct Hr as (a & d & Ha & _ & Hk & _). unfold keep in Hk.
      destruct (a_patient a) as [booked_by|] eqn:Hp; [|discriminate].
      rewrite (lower_like_contains _ _ Hn) in Hk. apply contains_spec in Hk.
      now elim (Hnone a booked_by Ha Hp). }
    now rewrite E.
Qed.

(** X29. [search_patient_appointments] never refuses a name: asked for a
    patient name without [%] and [_] and for no doctor, it lists the
    appointments of every patient whose name contains that name, case
    aside, and no others. *)
Theorem search_patient_appointments_match_by_containment (db : store)
  (patient : string) (doctor : option string)
  (l : Helper.appointment_link) :
  no_wildcard patient -> doctor = None \/ doctor = Some "" ->
  In l (Helper.search_patient_appointments patient doctor db)
  <-> exists a booked_by,
        In a (appointments db) /\ a_patient a = Some booked_by
        /\ Substring (lower patient) (lower booked_by)
        /\ l = Helper.mkAppointmentLink (a_time_slot a) (a_doctor a)
                                        (Helper.link_to (a_id a)).
Proof.
  intros Hn Hd.
  assert (E : Helper.search_patient_appointments patient doctor db
              = map (fun a => Helper.mkAppointmentLink
                                (a_time_slot a) (a_doctor a)
                                (Helper.link_to (a_id a)))
                    (filter (fun a => lower_like (a_patient a)
                                                 ("%" ++ patient ++ "%"))
                            (appointments db)))
    by (destruct Hd as [-> | ->]; reflexivity).
  rewrite E, in_map_iff. split.
  - intros (a & <- & Ha). apply filter_In in Ha. destruct Ha as [Ha Hk].
    destruct (a_patient a) as [booked_by|] eqn:Hp; [|discriminate].
    rewrite (lower_like_contains _ _ Hn) in Hk. apply contains_spec in Hk.
    now exists a, booked_by.
  - intros (a & booked_by & Ha & Hp & Hsub & ->). exists a.
    split; [reflexivity|]. apply filter_In. split; [assumption|].
    rewrite Hp, (lower_like_contains _ _ Hn). now apply contains_spec.
Qed.

(** X30. What [get_user_reservations] shows a patient, the patient can
    cancel: for each reservation listed, [api_cancel_slot] called with the
    same patient name answers 200 and names its doctor and time slot, and
    the slot is among the open slots afterwards. *)
Theorem listed_reservation_can_be_cancelled (db : store)
  (user patient : string) (r : slot) :
  distinct_ids db ->
  In r (SqlAgent.get_user_reservations patient db) ->
  fst (api_cancel_slot (Some user) (Some patient) (slot_id r) db)
  = (200%nat,
     "Appointment with " ++ slot_doctor r ++ " for " ++ slot_time r
     ++ " cancelled successfully")
  /\ In r (open_slots
             (snd (api_cancel_slot (Some user) (Some patient) (slot_id r)
                                   db))).
Proof.
  intros Hnd Hr. unfold SqlAgent.get_user_reservations in Hr.
  apply (Permutation_in _ (order_by_permutation _ _)) in Hr.
  apply joined_where_spec in Hr.
  destruct Hr as (a & d & Ha & Hd & Hk & E & ->). cbn [slot_id slot_doctor slot_time].
  destruct (a_patient a) as [booked_by|] eqn:Hp; [|discriminate].
  unfold api_cancel_slot. rewrite (find_appointment_of db a Hnd Ha), Hp, Hk.
  cbn [negb fst snd]. split; [reflexivity|].
  apply open_slots_spec. 
  exists (mkAppointment (a_id a) (a_doctor a) (a_time_slot a) None), d.
  repeat split; try assumption.
  unfold set_patient. cbn [appointments]. apply in_map_iff. exists a.
  split; [|assumption]. now rewrite Z.eqb_refl.
Qed.

End LikeFacts.

Lemma get_user_appointments_match_by_containment_witness :
  Substring "Dr. Ricci (Neurology) - 2026-11-04 15:30"
            (get_user_appointments (Ok Sample.roster) "mario").
Proof.
  apply (proj1 (get_user_appointments_match_by_containment
                  Sample.roster "mario" (conj eq_refl eq_refl))
               (mkAppointment 2 "Dr. Ricci" "2026-11-04 15:30"
                              (Some "Mario Rossi"))
               (mkDoctor "Dr. Ricci" "Neurology") "Mario Rossi").
  - simpl. right. left. reflexivity.
  - simpl. right. right. left. reflexivity.
  - reflexivity.
  - reflexivity.
  - exists "", " rossi". reflexivity.
Defined.

Lemma search_patient_appointments_match_by_containment_witness :
  In (Helper.mkAppointmentLink "2026-11-04 15:30" "Dr. Ricci"
                               (Helper.link_to 2))
     (Helper.search_patient_appointments "ROSSI" None Sample.roster).
Proof.
  apply (proj2 (search_patient_appointments_match_by_containment
                  Sample.roster "ROSSI" None _ (conj eq_refl eq_refl)
                  (or_introl eq_refl))).
  exists (mkAppointment 2 "Dr. Ricci" "2026-11-04 15:30" (Some "Mario Rossi")),
         "Mario Rossi".
  repeat split.
  - simpl. right. left. reflexivity.
  - exists "mario ", "". reflexivity.
Defined.

Lemma listed_reservation_can_be_cancelled_witness :
  fst (api_cancel_slot (Some "Mario Rossi") (Some "mario rossi") 2
                       Sample.roster)
  = (200%nat,
     "Appointment with Dr. Ricci for 2026-11-04 15:30 cancelled successfully")
  /\ In (mkSlot 2 "Dr. Ricci" "2026-11-04 15:30" "Neurology")
        (open_slots (snd (api_cancel_slot (Some "Mario Rossi")
                                          (Some "mario rossi") 2
                                          Sample.roster))).
Proof.
  apply (listed_reservation_can_be_cancelled
           Sample.roster "Mario Rossi" "mario rossi"
           (mkSlot 2 "Dr. Ricci" "2026-11-04 15:30" "Neurology")
           roster_has_distinct_ids).
  vm_compute. left. reflexivity.
Defined.
